(** * Rubik's cube engine: a shallow embedding of [src/core/cube.js]

    The development follows the JavaScript sources of the repository:
    - [src/core/cube.js] (class [RubiksCube]): the cubie grid, the layer
      rotation with its animation queue, scramble, solve and reset;
    - the main script ([completeFaceRotation], [finalizeFaceRotation]): the
      gesture release that snaps a dragged layer to a quarter turn.

    Conventions of the embedding.
    - JavaScript numbers are exact rationals ([Q]); integral numbers (layer,
      direction, grid coordinates, time stamps in ms) are [Z].  Rounding
      errors of IEEE doubles are therefore not part of the model.
    - [Math.PI / 2] times an integer [d] is a rotation by [d] quarter turns;
      its cosine and sine are the integers [cosq d] and [sinq d].  This is
      the turn that the source makes for the directions it is given, 1 and
      -1, and for a few quarter turns; for a direction so large that the
      double [d * Math.PI / 2] is far from a multiple of a quarter turn the
      source turns by another angle, which is not modelled.
    - A [THREE.Quaternion] is represented by the rotation it denotes, given
      by the images of the three unit vectors (signed integer columns).
    - The callbacks that the repository itself passes around (the closures
      of [scramble] and [solve]) are defunctionalised. *)

From Stdlib Require Import ZArith QArith Qround Qabs Lqa Lia.
From Stdlib Require Import List Ascii String Bool Permutation FinFun.
Import ListNotations.

Local Open Scope Z_scope.

(** ** JavaScript numbers *)

Definition Qltb (a b : Q) : bool := negb (Qle_bool b a).

(** [Math.round]: the nearest integer, ties towards plus infinity. *)
Definition Math_round (q : Q) : Z := Qfloor (q + (1 # 2)).

Definition Math_abs (q : Q) : Q := Qabs q.

(** ** Geometry: vectors, the cube's constants *)

Record Vector3 : Type := mkVector3 { vx : Q; vy : Q; vz : Q }.

Definition cubeSize : Q := 1.
Definition gap : Q := 1 # 20.                      (* 0.05 *)
Definition totalSize : Q := (cubeSize + gap)%Q.
Definition CUBIE_POSITION_TOLERANCE : Q := 1 # 10. (* 0.1 *)

(** A face selector [{ axis, layer }]. *)
Record Face : Type := mkFace { f_axis : string; f_layer : Z }.

Inductive CubieType : Type := center | edge | corner.

Definition Face_eqb (f : Face) (a : string) (l : Z) : bool :=
  String.eqb (f_axis f) a && Z.eqb (f_layer f) l.

(** [faces.push(x)] under a condition. *)
Definition push_when {A : Type} (b : bool) (x : A) (l : list A) : list A :=
  if b then l ++ [x] else l.

(** [RubiksCube.getCubieTypeAndNeighbors(clickedAxis, clickedLayer, cubiePos)] *)
Definition outerFacesOf (cubiePos : Vector3) : list Face :=
  let faces := [] in
  let faces := push_when
    (Qltb (Math_abs (vy cubiePos - totalSize)) CUBIE_POSITION_TOLERANCE)
    (mkFace "y" 1) faces in
  let faces := push_when
    (Qltb (Math_abs (vy cubiePos + totalSize)) CUBIE_POSITION_TOLERANCE)
    (mkFace "y" (-1)) faces in
  let faces := push_when
    (Qltb (Math_abs (vx cubiePos - totalSize)) CUBIE_POSITION_TOLERANCE)
    (mkFace "x" 1) faces in
  let faces := push_when
    (Qltb (Math_abs (vx cubiePos + totalSize)) CUBIE_POSITION_TOLERANCE)
    (mkFace "x" (-1)) faces in
  let faces := push_when
    (Qltb (Math_abs (vz cubiePos - totalSize)) CUBIE_POSITION_TOLERANCE)
    (mkFace "z" 1) faces in
  let faces := push_when
    (Qltb (Math_abs (vz cubiePos + totalSize)) CUBIE_POSITION_TOLERANCE)
    (mkFace "z" (-1)) faces in
  faces.

Definition getCubieTypeAndNeighbors
    (clickedAxis : string) (clickedLayer : Z) (cubiePos : Vector3)
    : CubieType * list Face :=
  let faces := outerFacesOf cubiePos in
  let neighborFaces :=
    filter (fun f => negb (Face_eqb f clickedAxis clickedLayer)) faces in
  let cubieType :=
    if Nat.eqb (List.length faces) 1 then center
    else if Nat.eqb (List.length faces) 2 then edge
    else corner in
  (cubieType, neighborFaces).

(** [RubiksCube.selectCornerNeighborBySwipeDirection(neighborFaces, deltaX,
    deltaY)].  A missing ([null]/[undefined]) list is [None]; the result
    [null] is [None]. *)
Definition selectCornerNeighborBySwipeDirection
    (neighborFaces : option (list Face)) (deltaX deltaY : Q) : option Face :=
  match neighborFaces with
  | None => None
  | Some [] => None
  | Some (first :: rest) =>
      let isHorizontalSwipe := Qltb (Math_abs deltaY) (Math_abs deltaX) in
      if isHorizontalSwipe then
        match find (fun f => String.eqb (f_axis f) "y") (first :: rest) with
        | Some yNeighbor => Some yNeighbor
        | None => Some first
        end
      else
        match find (fun f => negb (String.eqb (f_axis f) "y")) (first :: rest) with
        | Some sideNeighbor => Some sideNeighbor
        | None => Some first
        end
  end.

(** The coordinate of a vector along an axis. *)
Definition coordinate (a : string) (v : Vector3) : Q :=
  if String.eqb a "x" then vx v
  else if String.eqb a "y" then vy v
  else vz v.

(** The six outer faces, in the order of the tests of
    [getCubieTypeAndNeighbors]. *)
Definition sixOuterFaces : list Face :=
  [ mkFace "y" 1; mkFace "y" (-1); mkFace "x" 1; mkFace "x" (-1);
    mkFace "z" 1; mkFace "z" (-1) ].

(** A position touches a face: its coordinate along the axis of the face is
    within the tolerance of the layer. *)
Definition touchesFace (pos : Vector3) (f : Face) : Prop :=
  (Qabs (coordinate (f_axis f) pos - inject_Z (f_layer f) * totalSize)
   < CUBIE_POSITION_TOLERANCE)%Q.

Definition touchesFaceb (pos : Vector3) (f : Face) : bool :=
  Qltb (Qabs (coordinate (f_axis f) pos - inject_Z (f_layer f) * totalSize))
       CUBIE_POSITION_TOLERANCE.

(** The number of outer faces a position touches. *)
Definition touchCount (pos : Vector3) : nat :=
  List.length (filter (touchesFaceb pos) sixOuterFaces).

(** ** Quarter turns

    A rotation group turned by [d * Math.PI / 2] about one axis.  The
    cosine and sine of that angle: *)
Definition cosq (d : Z) : Z :=
  match d mod 4 with 0 => 1 | 2 => -1 | _ => 0 end.

Definition sinq (d : Z) : Z :=
  match d mod 4 with 1 => 1 | 3 => -1 | _ => 0 end.

(** The world position of a point of the rotation group, taken back to the
    frame of [cubeGroup] ([getWorldPosition] then [worldToLocal]): the
    point turned about [axis].  The [switch] of the source has no default
    case, so an axis other than x, y, z leaves the group unturned. *)
Definition applyRotation (axis : string) (d : Z) (v : Vector3) : Vector3 :=
  let c := inject_Z (cosq d) in
  let s := inject_Z (sinq d) in
  if String.eqb axis "x" then
    mkVector3 (vx v) (vy v * c - vz v * s)%Q (vy v * s + vz v * c)%Q
  else if String.eqb axis "y" then
    mkVector3 (vx v * c + vz v * s)%Q (vy v) (vz v * c - vx v * s)%Q
  else if String.eqb axis "z" then
    mkVector3 (vx v * c - vy v * s)%Q (vx v * s + vy v * c)%Q (vz v)
  else v.

(** Integer vectors and the orientation of a cubie. *)
Record Z3 : Type := mkZ3 { zx : Z; zy : Z; zz : Z }.

Definition turnZ3 (axis : string) (d : Z) (v : Z3) : Z3 :=
  let c := cosq d in
  let s := sinq d in
  if String.eqb axis "x" then
    mkZ3 (zx v) (zy v * c - zz v * s) (zy v * s + zz v * c)
  else if String.eqb axis "y" then
    mkZ3 (zx v * c + zz v * s) (zy v) (zz v * c - zx v * s)
  else if String.eqb axis "z" then
    mkZ3 (zx v * c - zy v * s) (zx v * s + zy v * c) (zz v)
  else v.

(** The rotation that a quaternion of the source denotes: the images of
    the unit vectors of the three axes. *)
Record Quaternion : Type :=
  mkQuaternion { image_x : Z3; image_y : Z3; image_z : Z3 }.

Definition identityQuaternion : Quaternion :=
  mkQuaternion (mkZ3 1 0 0) (mkZ3 0 1 0) (mkZ3 0 0 1).

(** [cubie.quaternion.copy(worldQuaternion).premultiply(invertedQuaternion)]:
    the rotation of the group composed after the cubie's own. *)
Definition premultiply (axis : string) (d : Z) (q : Quaternion) : Quaternion :=
  mkQuaternion (turnZ3 axis d (image_x q)) (turnZ3 axis d (image_y q))
               (turnZ3 axis d (image_z q)).

(** ** Cubies *)

Inductive Color : Type := white | yellow | red | orange | blue | green | black.

Record Cubie : Type := mkCubie {
  position : Vector3;
  quaternion : Quaternion;
  materials : list Color;
  logicalPos : Z3
}.

(** [RubiksCube.createCubie(x, y, z)] *)
Definition createCubie (x y z : Z) : Cubie :=
  {| position := mkVector3 (inject_Z x * totalSize)%Q
                           (inject_Z y * totalSize)%Q
                           (inject_Z z * totalSize)%Q;
     quaternion := identityQuaternion;
     materials :=
       [ if x =? 1 then red else black;
         if x =? -1 then orange else black;
         if y =? 1 then white else black;
         if y =? -1 then yellow else black;
         if z =? 1 then blue else black;
         if z =? -1 then green else black ];
     logicalPos := mkZ3 x y z |}.

(** The three nested [for] loops of [initCube]. *)
Definition solvedCubies : list Cubie :=
  flat_map (fun x =>
    flat_map (fun y =>
      map (fun z => createCubie x y z) [-1; 0; 1]) [-1; 0; 1]) [-1; 0; 1].

(** The predicate of the [filter] in [getCubiesOnFace]. *)
Definition onFace (axis : string) (value : Z) (cubie : Cubie) : bool :=
  let pos := position cubie in
  let tolerance := (1 # 10)%Q in
  if String.eqb axis "x" then
    Qltb (Math_abs (vx pos - inject_Z value * totalSize)) tolerance
  else if String.eqb axis "y" then
    Qltb (Math_abs (vy pos - inject_Z value * totalSize)) tolerance
  else if String.eqb axis "z" then
    Qltb (Math_abs (vz pos - inject_Z value * totalSize)) tolerance
  else false.

(** [RubiksCube.getCubiesOnFace(axis, value)].  The result is an array of
    references to cubie objects; a reference is the index of the cubie in
    [this.cubies]. *)
Definition getCubiesOnFace (axis : string) (value : Z) (cubies : list Cubie)
    : list nat :=
  map fst (filter (fun ic => onFace axis value (snd ic))
                  (combine (seq 0 (List.length cubies)) cubies)).

(** The body of [faceCubies.forEach] at the end of an animation. *)
Definition commitCubie (axis : string) (d : Z) (cubie : Cubie) : Cubie :=
  let pos := applyRotation axis d (position cubie) in
  let pos := mkVector3
    (inject_Z (Math_round (vx pos / totalSize)) * totalSize)%Q
    (inject_Z (Math_round (vy pos / totalSize)) * totalSize)%Q
    (inject_Z (Math_round (vz pos / totalSize)) * totalSize)%Q in
  {| position := pos;
     quaternion := premultiply axis d (quaternion cubie);
     materials := materials cubie;
     logicalPos := logicalPos cubie |}.

(** Mutation of the object behind a reference. *)
Fixpoint updateAt {A : Type} (i : nat) (f : A -> A) (l : list A) : list A :=
  match l, i with
  | [], _ => []
  | a :: l', O => f a :: l'
  | a :: l', S i' => a :: updateAt i' f l'
  end.

Definition commitFace (axis : string) (d : Z) (faceCubies : list nat)
    (cubies : list Cubie) : list Cubie :=
  fold_left (fun cs i => updateAt i (commitCubie axis d) cs) faceCubies cubies.

(** ** Moves *)

Record Move : Type := mkMove { axis : string; layer : Z; direction : Z }.

(** The table [MOVES], in the order of its keys. *)
Definition MOVES : list (string * Move) :=
  [ ("R",  mkMove "x" 1 (-1));
    ("R'", mkMove "x" 1 1);
    ("L",  mkMove "x" (-1) 1);
    ("L'", mkMove "x" (-1) (-1));
    ("U",  mkMove "y" 1 (-1));
    ("U'", mkMove "y" 1 1);
    ("D",  mkMove "y" (-1) 1);
    ("D'", mkMove "y" (-1) (-1));
    ("F",  mkMove "z" 1 (-1));
    ("F'", mkMove "z" 1 1);
    ("B",  mkMove "z" (-1) 1);
    ("B'", mkMove "z" (-1) (-1)) ]%string.

(** [MOVES[moveName]]; [None] is [undefined].  Only the keys of the table
    itself are looked up: a name that every object inherits
    ([constructor], [toString], ...) is not a move name of the model. *)
Fixpoint lookupMove (table : list (string * Move)) (moveName : string)
    : option Move :=
  match table with
  | [] => None
  | (k, m) :: rest =>
      if String.eqb k moveName then Some m else lookupMove rest moveName
  end.

(** [m.includes("'")] *)
Fixpoint includesPrime (m : string) : bool :=
  match m with
  | EmptyString => false
  | String c rest => Ascii.eqb c "'"%char || includesPrime rest
  end.

(** [Object.keys(MOVES).filter(m => !m.includes("'"))] *)
Definition moveNames : list string :=
  filter (fun m => negb (includesPrime m)) (map fst MOVES).

(** ** The engine state *)

(** The functions handed to [rotateFace] as [callback]: the closure
    [() => { index++; doNextMove(); }] of [scramble], the one of [solve]
    (each is created when [index] has the value recorded here, and runs
    once, before any other change of [index]), or a function of the caller,
    known by an identifier, that does not call back into the engine. *)
Inductive Callback : Type :=
| ScrambleNext (scrambleMoves : list string) (index : nat) (onComplete : option nat)
| SolveNext (solveMoves : list Move) (index : nat) (onComplete : option nat)
| External (id : nat).

(** An entry [{ axis, layer, direction, record, callback }] of the queue. *)
Record Request : Type := mkRequest {
  r_axis : string;
  r_layer : Z;
  r_direction : Z;
  r_record : bool;
  r_callback : option Callback
}.

(** The closure [animate] waiting for its next animation frame. *)
Record Animation : Type := mkAnimation {
  a_request : Request;
  a_faceCubies : list nat;
  a_startTime : Z
}.

(** What an observer sees: a layer turn taking effect on the grid, or a
    call of one of the caller's functions with its argument. *)
Inductive Observation : Type :=
| Committed (m : Move)
| Called (id : nat) (arg : option bool).

Record RubiksCube : Type := mkRubiksCube {
  cubies : list Cubie;
  moveHistory : list Move;
  isAnimating : bool;
  animationQueue : list Request;
  pendingFrame : option Animation;
  trace : list Observation
}.

(** [new RubiksCube(cubeGroup)] *)
Definition newRubiksCube : RubiksCube :=
  mkRubiksCube [] [] false [] None [].

Definition set_cubies (v : list Cubie) (st : RubiksCube) : RubiksCube :=
  mkRubiksCube v (moveHistory st) (isAnimating st) (animationQueue st)
               (pendingFrame st) (trace st).
Definition set_moveHistory (v : list Move) (st : RubiksCube) : RubiksCube :=
  mkRubiksCube (cubies st) v (isAnimating st) (animationQueue st)
               (pendingFrame st) (trace st).
Definition set_isAnimating (v : bool) (st : RubiksCube) : RubiksCube :=
  mkRubiksCube (cubies st) (moveHistory st) v (animationQueue st)
               (pendingFrame st) (trace st).
Definition set_animationQueue (v : list Request) (st : RubiksCube) : RubiksCube :=
  mkRubiksCube (cubies st) (moveHistory st) (isAnimating st) v
               (pendingFrame st) (trace st).
Definition set_pendingFrame (v : option Animation) (st : RubiksCube) : RubiksCube :=
  mkRubiksCube (cubies st) (moveHistory st) (isAnimating st) (animationQueue st)
               v (trace st).
Definition observe (o : Observation) (st : RubiksCube) : RubiksCube :=
  mkRubiksCube (cubies st) (moveHistory st) (isAnimating st) (animationQueue st)
               (pendingFrame st) (trace st ++ [o]).

(** [if (f) f(arg)] for a function of the caller. *)
Definition callIfGiven (f : option nat) (arg : option bool) (st : RubiksCube)
    : RubiksCube :=
  match f with
  | Some id => observe (Called id arg) st
  | None => st
  end.

(** [RubiksCube.initCube()] *)
Definition initCube (st : RubiksCube) : RubiksCube :=
  set_animationQueue [] (set_moveHistory [] (set_cubies solvedCubies st)).

(** [RubiksCube.rotateFace(axis, layer, direction, record, callback)] at
    time [now] (the value of [Date.now()]).  When idle, the call ends with
    the first run of [animate], whose [elapsed] is 0: it can only ask for
    the next animation frame. *)
Definition rotateFace (now : Z) (axis : string) (layer direction : Z)
    (record : bool) (callback : option Callback) (st : RubiksCube)
    : RubiksCube :=
  if isAnimating st then
    set_animationQueue
      (animationQueue st ++ [mkRequest axis layer direction record callback]) st
  else
    let st := set_isAnimating true st in
    let faceCubies := getCubiesOnFace axis layer (cubies st) in
    set_pendingFrame
      (Some (mkAnimation (mkRequest axis layer direction record callback)
                         faceCubies now)) st.

(** [RubiksCube.executeMove(moveName, record, callback)] *)
Definition executeMove (now : Z) (moveName : string) (record : bool)
    (callback : option Callback) (st : RubiksCube) : RubiksCube :=
  match lookupMove MOVES moveName with
  | Some move => rotateFace now (axis move) (layer move) (direction move)
                            record callback st
  | None => st
  end.

(** [doNextMove] of [scramble], entered with the given value of [index]. *)
Definition scrambleDoNextMove (now : Z) (scrambleMoves : list string)
    (index : nat) (onComplete : option nat) (st : RubiksCube) : RubiksCube :=
  match nth_error scrambleMoves index with
  | Some move =>
      executeMove now move true
        (Some (ScrambleNext scrambleMoves index onComplete)) st
  | None => callIfGiven onComplete None st
  end.

(** [doNextMove] of [solve]. *)
Definition solveDoNextMove (now : Z) (solveMoves : list Move)
    (index : nat) (onComplete : option nat) (st : RubiksCube) : RubiksCube :=
  match nth_error solveMoves index with
  | Some move =>
      rotateFace now (axis move) (layer move) (- direction move) false
        (Some (SolveNext solveMoves index onComplete)) st
  | None => callIfGiven onComplete (Some false) st
  end.

(** [if (callback) callback()] *)
Definition runCallback (now : Z) (callback : option Callback)
    (st : RubiksCube) : RubiksCube :=
  match callback with
  | None => st
  | Some (ScrambleNext scrambleMoves index onComplete) =>
      scrambleDoNextMove now scrambleMoves (S index) onComplete st
  | Some (SolveNext solveMoves index onComplete) =>
      solveDoNextMove now solveMoves (S index) onComplete st
  | Some (External id) => observe (Called id None) st
  end.

Definition duration : Z := 200.

(** The [else] branch of [animate]: the turn takes effect. *)
Definition commitAnimation (now : Z) (a : Animation) (st : RubiksCube)
    : RubiksCube :=
  let r := a_request a in
  let st := set_pendingFrame None st in
  let st := set_cubies
    (commitFace (r_axis r) (r_direction r) (a_faceCubies a) (cubies st)) st in
  let st := observe (Committed (mkMove (r_axis r) (r_layer r) (r_direction r))) st in
  let st :=
    if r_record r then
      set_moveHistory
        (moveHistory st ++ [mkMove (r_axis r) (r_layer r) (r_direction r)]) st
    else st in
  let st := set_isAnimating false st in
  let st := runCallback now (r_callback r) st in
  match animationQueue st with
  | next :: rest =>
      let st := set_animationQueue rest st in
      rotateFace now (r_axis next) (r_layer next) (r_direction next)
                 (r_record next) (r_callback next) st
  | [] => st
  end.

Definition Qmin1 (q : Q) : Q := if Qle_bool q 1 then q else 1%Q.

(** One run of [animate] from an animation frame at time [now]. *)
Definition animate (now : Z) (st : RubiksCube) : RubiksCube :=
  match pendingFrame st with
  | None => st
  | Some a =>
      let elapsed := now - a_startTime a in
      let progress := Qmin1 (inject_Z elapsed / inject_Z duration) in
      if Qltb progress 1 then st
      else commitAnimation now a st
  end.

(** ** Scramble, solve, reset *)

(** [names[i]] for a number [i]; out of range it is [undefined], which
    names no move. *)
Definition arrayGet (names : list string) (i : Z) : string :=
  if i <? 0 then "undefined"%string
  else nth (Z.to_nat i) names "undefined"%string.

(** The [i]-th round of the loop of [scramble].  [random k] is the result of
    the [k]-th call of [Math.random()]. *)
Definition scrambleMove (random : nat -> Q) (i : nat) : string :=
  let randomMove :=
    arrayGet moveNames
      (Qfloor (random (2 * i)%nat * inject_Z (Z.of_nat (List.length moveNames)))) in
  if Qltb (1 # 2) (random (2 * i + 1)%nat)
  then (randomMove ++ "'")%string
  else randomMove.

(** [this.isAnimating || this.animationQueue.length > 0] *)
Definition busy (st : RubiksCube) : bool :=
  isAnimating st || Nat.ltb 0 (List.length (animationQueue st)).

(** [RubiksCube.scramble(onComplete)] *)
Definition scramble (now : Z) (random : nat -> Q) (onComplete : option nat)
    (st : RubiksCube) : RubiksCube :=
  if busy st then st
  else
    let scrambleMoves := map (scrambleMove random) (seq 0 20) in
    scrambleDoNextMove now scrambleMoves 0 onComplete st.

(** [RubiksCube.solve(onComplete)] *)
Definition solve (now : Z) (onComplete : option nat) (st : RubiksCube)
    : RubiksCube :=
  if busy st then st
  else if Nat.eqb (List.length (moveHistory st)) 0 then
    callIfGiven onComplete (Some true) st
  else
    let solveMoves := rev (moveHistory st) in
    let st := set_moveHistory [] st in
    solveDoNextMove now solveMoves 0 onComplete st.

(** [RubiksCube.reset()] *)
Definition reset (st : RubiksCube) : RubiksCube :=
  if busy st then st else initCube st.

(** [RubiksCube.recordMove(axis, layer, direction)] *)
Definition recordMove (axis : string) (layer direction : Z) (st : RubiksCube)
    : RubiksCube :=
  set_moveHistory (moveHistory st ++ [mkMove axis layer direction]) st.

(** ** Runs of the engine *)

(** What can happen to the engine: a call of one of its methods, or the
    browser running the pending animation frame. *)
Inductive Event : Type :=
| CallRotateFace (axis : string) (layer direction : Z) (record : bool)
                 (callback : option Callback)
| CallExecuteMove (moveName : string) (record : bool) (callback : option Callback)
| CallScramble (random : nat -> Q) (onComplete : option nat)
| CallSolve (onComplete : option nat)
| CallReset
| CallRecordMove (axis : string) (layer direction : Z)
| AnimationFrame.

Definition step (now : Z) (e : Event) (st : RubiksCube) : RubiksCube :=
  match e with
  | CallRotateFace a l d r cb => rotateFace now a l d r cb st
  | CallExecuteMove m r cb => executeMove now m r cb st
  | CallScramble random oc => scramble now random oc st
  | CallSolve oc => solve now oc st
  | CallReset => reset st
  | CallRecordMove a l d => recordMove a l d st
  | AnimationFrame => animate now st
  end.

(** The engine as the page sets it up: constructed, then [initCube()]. *)
Definition initialCube : RubiksCube := initCube newRubiksCube.

Inductive reachable : RubiksCube -> Prop :=
| reachable_initial : reachable initialCube
| reachable_step (now : Z) (e : Event) (st : RubiksCube) :
    reachable st -> reachable (step now e st).

(** The animation frame that ends the running animation: the first one
    whose [elapsed] is at least [duration]. *)
Definition finishAnimation (st : RubiksCube) : RubiksCube :=
  match pendingFrame st with
  | Some a => animate (a_startTime a + duration) st
  | None => st
  end.

Fixpoint finishAnimations (n : nat) (st : RubiksCube) : RubiksCube :=
  match n with
  | O => st
  | S n' => finishAnimations n' (finishAnimation st)
  end.

(** A move requested and animated to its end. *)
Definition playMove (now : Z) (record : bool) (m : Move) (st : RubiksCube)
    : RubiksCube :=
  finishAnimation (rotateFace now (axis m) (layer m) (direction m) record None st).

Definition playMoves (now : Z) (record : bool) (ms : list Move)
    (st : RubiksCube) : RubiksCube :=
  fold_left (fun s m => playMove now record m s) ms st.

(** ** The grid *)

(** The grid points of the cube, in the order of [initCube]. *)
Definition gridPoint (g : Z3) : Vector3 :=
  mkVector3 (inject_Z (zx g) * totalSize)%Q (inject_Z (zy g) * totalSize)%Q
            (inject_Z (zz g) * totalSize)%Q.

Definition gridCoordinates : list Z3 :=
  flat_map (fun x =>
    flat_map (fun y =>
      map (fun z => mkZ3 x y z) [-1; 0; 1]) [-1; 0; 1]) [-1; 0; 1].

Definition gridPoints : list Vector3 := map gridPoint gridCoordinates.

Definition coordinateZ3 (a : string) (g : Z3) : Z :=
  if String.eqb a "x" then zx g
  else if String.eqb a "y" then zy g
  else zz g.

Definition knownAxis (a : string) : bool :=
  String.eqb a "x" || String.eqb a "y" || String.eqb a "z".

Definition inRange (k : Z) : bool := (-1 <=? k) && (k <=? 1).

Definition inGrid (g : Z3) : bool :=
  inRange (zx g) && inRange (zy g) && inRange (zz g).

(** The grid coordinates of a cubie, read off its position. *)
Definition gridOf (c : Cubie) : Z3 :=
  mkZ3 (Math_round (vx (position c) / totalSize))
       (Math_round (vy (position c) / totalSize))
       (Math_round (vz (position c) / totalSize)).

(** A cubie sits on a grid point. *)
Definition onGrid (c : Cubie) : Prop := position c = gridPoint (gridOf c).

(** The turn of one layer as a function on the grid, and its iteration. *)
Definition turnLayer (m : Move) (cs : list Cubie) : list Cubie :=
  commitFace (axis m) (direction m) (getCubiesOnFace (axis m) (layer m) cs) cs.

Definition turnLayers (ms : list Move) (cs : list Cubie) : list Cubie :=
  fold_left (fun cs m => turnLayer m cs) ms cs.

Definition negateMove (m : Move) : Move :=
  mkMove (axis m) (layer m) (- direction m).

(** The turn of a layer on grid coordinates. *)
Definition turnGrid (m : Move) (g : Z3) : Z3 :=
  if knownAxis (axis m) && (coordinateZ3 (axis m) g =? layer m)
  then turnZ3 (axis m) (direction m) g
  else g.

(** A numbering of the grid points. *)
Definition gridIndex (g : Z3) : Z := 9 * (zx g + 1) + 3 * (zy g + 1) + (zz g + 1).

(** ** States of the engine *)

(** The engine at rest: no animation, nothing queued. *)
Definition idle (cs : list Cubie) (h : list Move) (tr : list Observation)
    : RubiksCube :=
  mkRubiksCube cs h false [] None tr.

(** The move that a request asks for. *)
Definition moveOf (r : Request) : Move :=
  mkMove (r_axis r) (r_layer r) (r_direction r).

(** The engine animating the request [r0] since [t], with [q] queued. *)
Definition animating (r0 : Request) (t : Z) (q : list Request)
    (cs : list Cubie) (h : list Move) (tr : list Observation) : RubiksCube :=
  mkRubiksCube cs h true q
    (Some (mkAnimation r0 (getCubiesOnFace (r_axis r0) (r_layer r0) cs) t)) tr.

(** The engine is at rest and its grid is the solved grid turned by the
    recorded history. *)
Definition replayed (st : RubiksCube) : Prop :=
  exists tr, st = idle (turnLayers (moveHistory st) solvedCubies) (moveHistory st) tr.

(** The cubies fill the grid: each grid point holds one cubie. *)
Definition fillsGrid (cs : list Cubie) : Prop :=
  Permutation (map gridOf cs) gridCoordinates /\ Forall onGrid cs.

(** An animation is pending exactly while [isAnimating], and it holds the
    cubies of its layer. *)
Definition framed (st : RubiksCube) : Prop :=
  match pendingFrame st with
  | Some a =>
      isAnimating st = true /\
      a_faceCubies a =
        getCubiesOnFace (r_axis (a_request a)) (r_layer (a_request a)) (cubies st)
  | None => isAnimating st = false
  end.

(** What holds of the engine at every moment. *)
Definition consistent (st : RubiksCube) : Prop :=
  fillsGrid (cubies st) /\ framed st /\
  (pendingFrame st = None -> animationQueue st = []).

(** The calls made from a callback or from [scramble] and [solve]. *)
Inductive chained : (RubiksCube -> RubiksCube) -> Prop :=
| chained_rotateFace now a l d r cb : chained (rotateFace now a l d r cb)
| chained_stay : chained (fun st => st)
| chained_observe o : chained (observe o).

(** ** The gesture release of the main script

    [touchState], [cubies] and [moveHistory] are globals of the script.
    Quotients of angles are exact: the double quotient of the source can
    differ from the exact one in its last place, which decides the rounding
    only when the exact quotient is that close to a half-integer. *)
Module Gesture.

(** [Math.PI] is the double 884279719003555 / 2^48. *)
Definition Math_PI : Q := 884279719003555 # 281474976710656.
Definition HALF_PI : Q := (Math_PI / 2)%Q.

(** The fields of [touchState] that the release reads and writes.
    [rotationGroup] holds references to the cubies of the dragged layer;
    [swipeLayer] is only read when [swipeAxis] is not [null], and its
    [null] is written 0. *)
Record TouchState : Type := mkTouchState {
  rotationGroup : option (list nat);
  swipeAxis : option string;
  swipeLayer : Z;
  currentRotation : Q
}.

(** A closure [animate] of [completeFaceRotation]: the variables it has
    captured.  What it reads of [touchState] it reads when it runs. *)
Record SnapAnimation : Type := mkSnapAnimation {
  s_startTime : Z;
  s_startAngle : Q;
  s_remainingAngle : Q;
  s_snapAngle : Q
}.

(** [snapFrames] are the closures [animate] that wait for the next
    animation frame, in the order of their requests. *)
Record Page : Type := mkPage {
  cubies : list Cubie;
  moveHistory : list Move;
  touchState : TouchState;
  snapFrames : list SnapAnimation
}.

(** [startFaceRotation(axis, layer, startAngle)].  A rotation group that is
    still there is taken off the scene; its cubies stay where they are. *)
Definition startFaceRotation (axis : string) (layer : Z) (startAngle : Q)
    (pg : Page) : Page :=
  let faceCubies := getCubiesOnFace axis layer (cubies pg) in
  mkPage (cubies pg) (moveHistory pg)
         (mkTouchState (Some faceCubies) (Some axis) layer startAngle)
         (snapFrames pg).

(** [updateFaceRotation(deltaAngle)] *)
Definition updateFaceRotation (deltaAngle : Q) (pg : Page) : Page :=
  let ts := touchState pg in
  match rotationGroup ts, swipeAxis ts with
  | Some g, Some a =>
      mkPage (cubies pg) (moveHistory pg)
             (mkTouchState (Some g) (Some a) (swipeLayer ts)
                           (currentRotation ts + deltaAngle)%Q)
             (snapFrames pg)
  | _, _ => pg
  end.

(** The moves pushed to [moveHistory] for a number of quarter turns; [%] of
    JavaScript is the remainder of the truncating division. *)
Definition recordedMoves (swipeAxis : string) (swipeLayer : Z)
    (quarterTurns : Z) : list Move :=
  let normalizedTurns := Z.rem (Z.rem quarterTurns 4 + 4) 4 in
  if normalizedTurns =? 1 then [mkMove swipeAxis swipeLayer 1]
  else if normalizedTurns =? 3 then [mkMove swipeAxis swipeLayer (-1)]
  else if normalizedTurns =? 2 then
    [mkMove swipeAxis swipeLayer 1; mkMove swipeAxis swipeLayer 1]
  else [].

(** [finalizeFaceRotation(finalAngle)].  The group is set to [finalAngle],
    which the callers make a multiple of [Math.PI / 2]: the cubies are
    turned by [quarterTurns] quarter turns. *)
Definition finalizeFaceRotation (finalAngle : Q) (pg : Page) : Page :=
  let ts := touchState pg in
  match rotationGroup ts, swipeAxis ts with
  | Some faceCubies, Some a =>
      let quarterTurns := Math_round (finalAngle / HALF_PI) in
      let cubies' := commitFace a quarterTurns faceCubies (cubies pg) in
      let history' :=
        (moveHistory pg ++ recordedMoves a (swipeLayer ts) quarterTurns)%list in
      mkPage cubies' history' (mkTouchState None None 0 0) (snapFrames pg)
  | _, _ => pg
  end.

(** One run of a closure [animate] of [completeFaceRotation], at time
    [now]: it writes the angle to the [touchState] of that moment, then
    asks for the next animation frame or finalizes. *)
Definition snapAnimate (now : Z) (s : SnapAnimation) (pg : Page) : Page :=
  let elapsed := now - s_startTime s in
  let progress := Qmin1 (inject_Z elapsed / inject_Z 200) in
  let eased := (1 - (1 - progress) ^ 3)%Q in
  let angle := (s_startAngle s + s_remainingAngle s * eased)%Q in
  let ts := touchState pg in
  let pg := mkPage (cubies pg) (moveHistory pg)
              (mkTouchState (rotationGroup ts) (swipeAxis ts)
                            (swipeLayer ts) angle)
              (snapFrames pg) in
  if Qltb progress 1 then
    mkPage (cubies pg) (moveHistory pg) (touchState pg) (snapFrames pg ++ [s])
  else finalizeFaceRotation (s_snapAngle s) pg.

(** An animation frame at time [now]: the waiting closures run in the
    order of their requests; what they request is for the next frame. *)
Definition animationFrame (now : Z) (pg : Page) : Page :=
  fold_left (fun p s => snapAnimate now s p) (snapFrames pg)
            (mkPage (cubies pg) (moveHistory pg) (touchState pg) []).

Definition animationFrames (times : list Z) (pg : Page) : Page :=
  fold_left (fun p now => animationFrame now p) times pg.

(** [completeFaceRotation()] at time [now]; when an animation is needed,
    the call ends with the first run of [animate], whose [elapsed] is 0. *)
Definition completeFaceRotation (now : Z) (pg : Page) : Page :=
  let ts := touchState pg in
  match rotationGroup ts, swipeAxis ts with
  | Some _, Some _ =>
      let currentAngle := currentRotation ts in
      let snapAngle :=
        (inject_Z (Math_round (currentAngle / HALF_PI)) * HALF_PI)%Q in
      let remainingAngle := (snapAngle - currentAngle)%Q in
      if Qltb (Math_abs remainingAngle) (1 # 100) then
        finalizeFaceRotation snapAngle pg
      else
        snapAnimate now
          (mkSnapAnimation now currentAngle remainingAngle snapAngle) pg
  | _, _ => pg
  end.

(** An angle given in degrees, in radians. *)
Definition degrees (n : Z) : Q := (inject_Z n * Math_PI / 180)%Q.

(** The page after [initCube()], a layer grabbed and dragged to [angle]. *)
Definition dragged (a : string) (l : Z) (angle : Q) : Page :=
  updateFaceRotation angle
    (startFaceRotation a l 0 (mkPage solvedCubies [] (mkTouchState None None 0 0) [])).

End Gesture.

(** ** Orientations as rotations *)

Definition dotZ3 (u v : Z3) : Z := zx u * zx v + zy u * zy v + zz u * zz v.

Definition crossZ3 (u v : Z3) : Z3 :=
  mkZ3 (zy u * zz v - zz u * zy v) (zz u * zx v - zx u * zz v)
       (zx u * zy v - zy u * zx v).

(** The images of the unit vectors are unit vectors, orthogonal to each
    other and right-handed: the orientation is a rotation of the cube. *)
Definition properRotation (q : Quaternion) : bool :=
  (dotZ3 (image_x q) (image_x q) =? 1) &&
  (dotZ3 (image_y q) (image_y q) =? 1) &&
  (dotZ3 (image_z q) (image_z q) =? 1) &&
  (dotZ3 (image_x q) (image_y q) =? 0) &&
  (dotZ3 (image_x q) (image_z q) =? 0) &&
  (dotZ3 (image_y q) (image_z q) =? 0) &&
  (dotZ3 (image_x q) (crossZ3 (image_y q) (image_z q)) =? 1).

(** The grid point to which an orientation carries a grid point. *)
Definition applyQuaternion (q : Quaternion) (v : Z3) : Z3 :=
  mkZ3 (zx v * zx (image_x q) + zy v * zx (image_y q) + zz v * zx (image_z q))
       (zx v * zy (image_x q) + zy v * zy (image_y q) + zz v * zy (image_z q))
       (zx v * zz (image_x q) + zy v * zz (image_y q) + zz v * zz (image_z q)).

(** A signed unit vector of the grid. *)
Definition unitZ3 (v : Z3) : Prop :=
  In v [mkZ3 1 0 0; mkZ3 (-1) 0 0; mkZ3 0 1 0; mkZ3 0 (-1) 0;
        mkZ3 0 0 1; mkZ3 0 0 (-1)].

(** The cubie that [createCubie] makes, from its home position and its
    colours. *)
Definition rebuild (home : Z3 * list Color) : Cubie :=
  mkCubie (gridPoint (fst home)) identityQuaternion (snd home) (fst home).

(** ** The middle slice under a center cubie *)

(** [RubiksCube.selectCenterSliceBySwipeDirection(clickedAxis, clickedLayer,
    deltaX, deltaY)] *)
Definition selectCenterSliceBySwipeDirection
    (clickedAxis : string) (clickedLayer : Z) (deltaX deltaY : Q) : Face :=
  let isHorizontalSwipe := Qltb (Math_abs deltaY) (Math_abs deltaX) in
  if String.eqb clickedAxis "y" then
    if isHorizontalSwipe then mkFace "x" 0 else mkFace "z" 0
  else if String.eqb clickedAxis "x" then
    if isHorizontalSwipe then mkFace "y" 0 else mkFace "z" 0
  else if String.eqb clickedAxis "z" then
    if isHorizontalSwipe then mkFace "y" 0 else mkFace "x" 0
  else mkFace clickedAxis clickedLayer.

(** Requests made one after the other, all at time [t]. *)
Definition requestAll (t : Z) (reqs : list Request) (st : RubiksCube)
    : RubiksCube :=
  fold_left (fun s r => rotateFace t (r_axis r) (r_layer r) (r_direction r)
                                   (r_record r) (r_callback r) s) reqs st.

(** ** The keyboard of the main script

    The main script maps the keys F, B, R, L, U, D to the face that the
    rotation of the whole cube ([cubeGroup]) has brought to the front, back,
    right, left, top or bottom.  Its [rotateFace], [MOVES] and [executeMove]
    are those of the engine, on the globals of the script. *)
Module Keyboard.

(** The result [{ color, move }] of [getFaceFromVector]. *)
Record FaceName : Type := mkFaceName { color : Color; move : string }.

(** [getFaceFromVector(vec)] *)
Definition getFaceFromVector (vec : Vector3) : FaceName :=
  let absX := Math_abs (vx vec) in
  let absY := Math_abs (vy vec) in
  let absZ := Math_abs (vz vec) in
  if Qle_bool absX absZ && Qle_bool absY absZ then
    mkFaceName (if Qltb 0 (vz vec) then blue else green)
               (if Qltb 0 (vz vec) then "F" else "B")
  else if Qle_bool absY absX then
    mkFaceName (if Qltb 0 (vx vec) then red else orange)
               (if Qltb 0 (vx vec) then "R" else "L")
  else
    mkFaceName (if Qltb 0 (vy vec) then white else yellow)
               (if Qltb 0 (vy vec) then "U" else "D").

(** [getCurrentFrontFace()].  [applyInverse vec] is
    [vec.applyQuaternion(getCubeInverseQuaternion())], a function of the
    rotation of the whole cube at the time of the call. *)
Definition getCurrentFrontFace (applyInverse : Vector3 -> Vector3) : Color :=
  color (getFaceFromVector (applyInverse (mkVector3 0 0 1))).

(** The object [directions] of [getCurrentFaceMapping], in the order of its
    keys. *)
Definition directions : list (string * Vector3) :=
  [ ("front", mkVector3 0 0 1);
    ("back",  mkVector3 0 0 (-1));
    ("right", mkVector3 1 0 0);
    ("left",  mkVector3 (-1) 0 0);
    ("up",    mkVector3 0 1 0);
    ("down",  mkVector3 0 (-1) 0) ]%string.

(** [getCurrentFaceMapping()] *)
Definition getCurrentFaceMapping (applyInverse : Vector3 -> Vector3)
    : list (string * string) :=
  map (fun entry =>
         (fst entry, move (getFaceFromVector (applyInverse (snd entry)))))
      directions.

Definition KEY_TO_RELATIVE : list (string * string) :=
  [ ("F", "front"); ("B", "back"); ("R", "right"); ("L", "left");
    ("U", "up"); ("D", "down") ]%string.

(** [object[key]] for an object with the given own properties; [None] is
    [undefined]. *)
Fixpoint property {A : Type} (object : list (string * A)) (key : string)
    : option A :=
  match object with
  | [] => None
  | (k, v) :: rest =>
      if String.eqb k key then Some v else property rest key
  end.

(** [getOrientedMove(key, isPrime)]; [None] is a result that is not a
    string ([null], or the [undefined] of a missing entry of the mapping).
    The handler calls it with the keys of [validMoves], none of which names
    a property that an object inherits. *)
Definition getOrientedMove (applyInverse : Vector3 -> Vector3)
    (key : string) (isPrime : bool) : option string :=
  let mapping := getCurrentFaceMapping applyInverse in
  match property KEY_TO_RELATIVE key with
  | None => None
  | Some relativeDir =>
      match property mapping relativeDir with
      | Some actualFace =>
          Some (if isPrime then (actualFace ++ "'")%string else actualFace)
      | None => if isPrime then Some "undefined'"%string else None
      end
  end.

(** [c.toUpperCase()] for a character of ASCII. *)
Definition upperChar (c : ascii) : ascii :=
  let n := nat_of_ascii c in
  if (Nat.leb 97 n && Nat.leb n 122)%bool then ascii_of_nat (n - 32) else c.

(** [s.toUpperCase()] for a string of ASCII characters. *)
Fixpoint toUpperCase (s : string) : string :=
  match s with
  | EmptyString => EmptyString
  | String c rest => String (upperChar c) (toUpperCase rest)
  end.

(** What the handler reads of a [keydown] event. *)
Record KeyEvent : Type := mkKeyEvent {
  targetTagName : string;
  e_key : string;
  shiftKey : bool
}.

Definition validMoves : list string := ["R"; "U"; "D"; "L"; "F"; "B"]%string.

(** The [keydown] handler, at time [now], the whole cube rotated as
    [applyInverse] tells.  A string is truthy unless it is empty. *)
Definition keydown (applyInverse : Vector3 -> Vector3) (now : Z)
    (e : KeyEvent) (st : RubiksCube) : RubiksCube :=
  if (String.eqb (targetTagName e) "INPUT"
      || String.eqb (targetTagName e) "TEXTAREA")%bool then st
  else
    let key := toUpperCase (e_key e) in
    if existsb (String.eqb key) validMoves then
      match getOrientedMove applyInverse key (shiftKey e) with
      | Some moveName =>
          if String.eqb moveName "" then st
          else executeMove now moveName true None st
      | None => st
      end
    else st.

(** The opposite of a vector. *)
Definition oppositeVector (u v : Vector3) : Prop :=
  (vx u == - vx v)%Q /\ (vy u == - vy v)%Q /\ (vz u == - vz v)%Q.

Definition zeroVector (v : Vector3) : Prop :=
  (vx v == 0)%Q /\ (vy v == 0)%Q /\ (vz v == 0)%Q.

(** The face that a move of the table turns, and the cubie at its center
    as [createCubie] makes it. *)
Definition faceOfMove (m : Move) : Face := mkFace (axis m) (layer m).

Definition centerCubieOf (f : Face) : Cubie :=
  createCubie (if String.eqb (f_axis f) "x" then f_layer f else 0)
              (if String.eqb (f_axis f) "y" then f_layer f else 0)
              (if String.eqb (f_axis f) "z" then f_layer f else 0).

End Keyboard.

(** ** Scramble, solve and reset of the main script

    The main script has the engine's [rotateFace] and [executeMove] on its
    globals, and its own [scramble], [solve] and [reset].  The status line
    and the buttons that they update are not part of the state. *)
Module Script.

(** [scramble()]: the history is cleared before the moves are drawn; at the
    end of the chain only the status line and the buttons change. *)
Definition scramble (now : Z) (random : nat -> Q) (st : RubiksCube)
    : RubiksCube :=
  if busy st then st
  else
    let st := set_moveHistory [] st in
    let scrambleMoves := map (scrambleMove random) (seq 0 20) in
    scrambleDoNextMove now scrambleMoves 0 None st.

(** [solve()] *)
Definition solve (st : RubiksCube) : RubiksCube :=
  if busy st then st else initCube st.

(** [reset()] *)
Definition reset (st : RubiksCube) : RubiksCube :=
  if busy st then st else initCube st.

End Script.

(** ** Scramble and solve of [script.js]

    The older script has the same [rotateFace], [executeMove] and
    [scramble] as the main script; its [solve] reverses the history. *)
Module ScriptJs.

(** [scramble()] *)
Definition scramble (now : Z) (random : nat -> Q) (st : RubiksCube)
    : RubiksCube :=
  if busy st then st
  else
    let st := set_moveHistory [] st in
    let scrambleMoves := map (scrambleMove random) (seq 0 20) in
    scrambleDoNextMove now scrambleMoves 0 None st.

(** [solve()]: with an empty history only the status line changes. *)
Definition solve (now : Z) (st : RubiksCube) : RubiksCube :=
  if busy st then st
  else if Nat.eqb (List.length (moveHistory st)) 0 then st
  else
    let solveMoves := rev (moveHistory st) in
    let st := set_moveHistory [] st in
    solveDoNextMove now solveMoves 0 None st.

End ScriptJs.

(** * Properties *)

(** ** Comparison and rounding *)

Lemma Qltb_lt (a b : Q) : Qltb a b = true <-> (a < b)%Q.
Proof.
  unfold Qltb. rewrite negb_true_iff. split.
  - intros H. apply Qnot_le_lt. intros L.
    apply Qle_bool_iff in L. congruence.
  - intros H. destruct (Qle_bool b a) eqn:E; [|reflexivity].
    apply Qle_bool_iff in E. exfalso. eapply Qlt_not_le; eauto.
Qed.

Lemma Qltb_ge (a b : Q) : Qltb a b = false <-> (b <= a)%Q.
Proof.
  unfold Qltb. rewrite negb_false_iff. apply Qle_bool_iff.
Qed.

Lemma Math_round_int (n : Z) (q : Q) : (q == inject_Z n)%Q -> Math_round q = n.
Proof.
  intros H. unfold Math_round. rewrite H.
  assert (L := Qfloor_le (inject_Z n + (1 # 2))).
  assert (U := Qlt_floor (inject_Z n + (1 # 2))).
  set (k := Qfloor (inject_Z n + (1 # 2))) in *.
  rewrite inject_Z_plus in U. change (inject_Z 1) with 1%Q in U.
  assert (inject_Z k < inject_Z (n + 1))%Q as A.
  { rewrite inject_Z_plus. change (inject_Z 1) with 1%Q. lra. }
  assert (inject_Z n < inject_Z (k + 1))%Q as B.
  { rewrite inject_Z_plus. change (inject_Z 1) with 1%Q. lra. }
  rewrite <- Zlt_Qlt in A, B. lia.
Qed.


(** ** Numbers on the grid *)

Lemma inject_Z_succ_le (g v : Z) : g < v -> (inject_Z g + 1 <= inject_Z v)%Q.
Proof.
  intros H. change 1%Q with (inject_Z 1). rewrite <- inject_Z_plus.
  rewrite <- Zle_Qle. lia.
Qed.

Lemma Qltb_comp (a b c d : Q) : (a == c)%Q -> (b == d)%Q -> Qltb a b = Qltb c d.
Proof.
  intros H1 H2. unfold Qltb. now rewrite H1, H2.
Qed.

(** Two grid coordinates are within the tolerance exactly when equal. *)
Lemma near_grid (g v : Z) :
  Qltb (Math_abs (inject_Z g * totalSize - inject_Z v * totalSize))
       (1 # 10) = (g =? v).
Proof.
  unfold Math_abs, totalSize, cubeSize, gap.
  destruct (Z.eqb_spec g v) as [->|N].
  - apply Qltb_lt. apply Qabs_Qlt_condition. split; lra.
  - apply Qltb_ge. destruct (Z.lt_total g v) as [L|[E|L]]; [|contradiction|].
    + apply inject_Z_succ_le in L.
      rewrite <- Qabs_opp. eapply Qle_trans; [|apply Qle_Qabs]. lra.
    + apply inject_Z_succ_le in L.
      eapply Qle_trans; [|apply Qle_Qabs]. lra.
Qed.

Lemma round_grid (q : Q) (n : Z) :
  (q == inject_Z n * totalSize)%Q ->
  (inject_Z (Math_round (q / totalSize)) * totalSize)%Q
  = (inject_Z n * totalSize)%Q.
Proof.
  intros H. rewrite (Math_round_int n); [reflexivity|].
  rewrite H. unfold totalSize, cubeSize, gap. field.
Qed.

(** ** Quarter turns *)

Lemma quarter_mod_cases (d : Z) :
  (d mod 4 = 0 /\ (- d) mod 4 = 0) \/ (d mod 4 = 1 /\ (- d) mod 4 = 3) \/
  (d mod 4 = 2 /\ (- d) mod 4 = 2) \/ (d mod 4 = 3 /\ (- d) mod 4 = 1).
Proof.
  Z.to_euclidean_division_equations. lia.
Qed.

Lemma quarter_cases (d : Z) :
  (cosq d = 1 /\ sinq d = 0) \/ (cosq d = 0 /\ sinq d = 1) \/
  (cosq d = -1 /\ sinq d = 0) \/ (cosq d = 0 /\ sinq d = -1).
Proof.
  unfold cosq, sinq.
  destruct (quarter_mod_cases d) as [[-> _]|[[-> _]|[[-> _]|[-> _]]]]; auto.
Qed.

Lemma quarter_opp (d : Z) : cosq (- d) = cosq d /\ sinq (- d) = - sinq d.
Proof.
  unfold cosq, sinq.
  destruct (quarter_mod_cases d) as [[-> ->]|[[-> ->]|[[-> ->]|[-> ->]]]]; auto.
Qed.

(** The axes the engine knows, and the coordinate of a grid point. *)
Lemma axis_cases (a : string) :
  a = "x"%string \/ a = "y"%string \/ a = "z"%string \/
  ((a =? "x")%string = false /\ (a =? "y")%string = false /\
   (a =? "z")%string = false).
Proof.
  destruct (String.eqb_spec a "x"); auto.
  destruct (String.eqb_spec a "y"); auto.
  destruct (String.eqb_spec a "z"); auto.
  right; right; right. auto.
Qed.

(** Case analysis on an axis, with the string tests evaluated. *)
Ltac eval_axis_tests :=
  repeat match goal with
  | |- context [String.eqb ?s ?t] =>
      let b := eval vm_compute in (String.eqb s t) in
      match b with
      | true => change (String.eqb s t) with true
      | false => change (String.eqb s t) with false
      end
  end; cbv iota.

Ltac on_axes a :=
  let Hx := fresh "Hx" in let Hy := fresh "Hy" in let Hz := fresh "Hz" in
  destruct (axis_cases a) as [->|[->|[->|(Hx & Hy & Hz)]]];
  [eval_axis_tests | eval_axis_tests | eval_axis_tests
  | rewrite ?Hx, ?Hy, ?Hz; cbv iota].

Ltac on_quarters d :=
  destruct (quarter_cases d) as [[-> ->]|[[-> ->]|[[-> ->]|[-> ->]]]].

Lemma turnZ3_inverse (a : string) (d : Z) (g : Z3) :
  turnZ3 a (- d) (turnZ3 a d g) = g.
Proof.
  destruct g as [x y z]. unfold turnZ3.
  destruct (quarter_opp d) as [-> ->].
  on_axes a; try reflexivity; on_quarters d; cbn [zx zy zz]; f_equal; lia.
Qed.

Lemma turnZ3_coordinate (a : string) (d : Z) (g : Z3) :
  coordinateZ3 a (turnZ3 a d g) = coordinateZ3 a g.
Proof.
  destruct g as [x y z]. unfold turnZ3, coordinateZ3.
  on_axes a; reflexivity.
Qed.

Lemma inRange_iff (k : Z) : inRange k = true <-> -1 <= k <= 1.
Proof.
  unfold inRange. rewrite andb_true_iff, !Z.leb_le. tauto.
Qed.

Lemma inGrid_iff (g : Z3) :
  inGrid g = true <-> -1 <= zx g <= 1 /\ -1 <= zy g <= 1 /\ -1 <= zz g <= 1.
Proof.
  unfold inGrid. rewrite !andb_true_iff, !inRange_iff. tauto.
Qed.

Lemma turnZ3_inGrid (a : string) (d : Z) (g : Z3) :
  inGrid g = true -> inGrid (turnZ3 a d g) = true.
Proof.
  rewrite !inGrid_iff. destruct g as [x y z]. unfold turnZ3.
  cbn [zx zy zz]. intros H.
  on_axes a; try exact H; on_quarters d; cbn [zx zy zz]; lia.
Qed.

(** ** One cubie on the grid *)

Lemma applyRotation_grid (a : string) (d : Z) (g : Z3) :
  let v := applyRotation a d (gridPoint g) in
  let w := gridPoint (turnZ3 a d g) in
  (vx v == vx w /\ vy v == vy w /\ vz v == vz w)%Q.
Proof.
  destruct g as [x y z]. unfold applyRotation, turnZ3, gridPoint.
  on_axes a; cbn [zx zy zz vx vy vz];
    repeat split; try reflexivity; unfold Z.sub;
    rewrite ?inject_Z_plus, ?inject_Z_opp, ?inject_Z_mult; ring.
Qed.

Lemma commitCubie_position (a : string) (d : Z) (c : Cubie) (g : Z3) :
  position c = gridPoint g ->
  position (commitCubie a d c) = gridPoint (turnZ3 a d g).
Proof.
  intros H. unfold commitCubie. cbn [position]. rewrite H.
  destruct (applyRotation_grid a d g) as (X & Y & Z').
  cbv zeta in X, Y, Z'.
  unfold gridPoint at 4.
  f_equal; apply round_grid; assumption.
Qed.

Lemma gridOf_gridPoint (c : Cubie) (g : Z3) :
  position c = gridPoint g -> gridOf c = g.
Proof.
  intros H. unfold gridOf. rewrite H. destruct g as [x y z].
  cbn [gridPoint vx vy vz zx zy zz].
  f_equal; apply Math_round_int; unfold totalSize, cubeSize, gap; field.
Qed.

Lemma onGrid_intro (c : Cubie) (g : Z3) : position c = gridPoint g -> onGrid c.
Proof.
  intros H. unfold onGrid. now rewrite (gridOf_gridPoint c g H).
Qed.

Lemma onFace_grid (a : string) (v : Z) (c : Cubie) :
  onGrid c ->
  onFace a v c = knownAxis a && (coordinateZ3 a (gridOf c) =? v).
Proof.
  unfold onGrid, onFace, knownAxis, coordinateZ3. intros ->.
  destruct (gridOf c) as [x y z]. cbn [gridPoint vx vy vz zx zy zz].
  on_axes a; cbn [orb andb]; try apply near_grid. reflexivity.
Qed.

Lemma commitCubie_onGrid (a : string) (d : Z) (c : Cubie) :
  onGrid c -> onGrid (commitCubie a d c).
Proof.
  intros H. eapply onGrid_intro. apply commitCubie_position. exact H.
Qed.

Lemma commitCubie_gridOf (a : string) (d : Z) (c : Cubie) :
  onGrid c -> gridOf (commitCubie a d c) = turnZ3 a d (gridOf c).
Proof.
  intros H. apply gridOf_gridPoint. apply commitCubie_position. exact H.
Qed.

(** A quarter turn undone by the opposite quarter turn. *)
Lemma commitCubie_inverse (a : string) (d : Z) (c : Cubie) :
  onGrid c -> commitCubie a (- d) (commitCubie a d c) = c.
Proof.
  intros H.
  assert (P : position (commitCubie a (- d) (commitCubie a d c)) = position c).
  { rewrite (commitCubie_position a (- d) _ (turnZ3 a d (gridOf c))).
    - rewrite turnZ3_inverse. symmetry. exact H.
    - apply commitCubie_position. exact H. }
  destruct c as [p q m lp].
  unfold commitCubie in *. cbn [position quaternion materials logicalPos] in *.
  rewrite P. f_equal.
  destruct q as [qx qy qz]. unfold premultiply. cbn [image_x image_y image_z].
  now rewrite !turnZ3_inverse.
Qed.

(** ** A layer of cubies *)

Lemma updateAt_app {A : Type} (f : A -> A) (pre : list A) (c : A) (rest : list A) :
  updateAt (List.length pre) f (pre ++ c :: rest) = pre ++ f c :: rest.
Proof.
  induction pre as [|p pre IH]; cbn; [reflexivity|]. now rewrite IH.
Qed.

Lemma commit_indices {A : Type} (p : A -> bool) (f : A -> A) (cs pre : list A) :
  fold_left (fun l i => updateAt i f l)
    (map fst (filter (fun ic => p (snd ic))
                     (combine (seq (List.length pre) (List.length cs)) cs)))
    (pre ++ cs)
  = pre ++ map (fun c => if p c then f c else c) cs.
Proof.
  revert pre. induction cs as [|c cs IH]; intros pre; [reflexivity|].
  cbn [List.length seq combine filter snd map].
  destruct (p c) eqn:E.
  - cbn [map fst fold_left]. rewrite updateAt_app.
    specialize (IH (pre ++ [f c])).
    rewrite length_app, Nat.add_1_r, <- !app_assoc in IH. exact IH.
  - specialize (IH (pre ++ [c])).
    rewrite length_app, Nat.add_1_r, <- !app_assoc in IH. exact IH.
Qed.

(** Turning a layer changes the cubies of the layer and no other. *)
Lemma turnLayer_map (m : Move) (cs : list Cubie) :
  turnLayer m cs =
  map (fun c => if onFace (axis m) (layer m) c
                then commitCubie (axis m) (direction m) c else c) cs.
Proof.
  unfold turnLayer, commitFace, getCubiesOnFace.
  exact (commit_indices (onFace (axis m) (layer m))
                        (commitCubie (axis m) (direction m)) cs []).
Qed.

Lemma turnLayer_onGrid (m : Move) (cs : list Cubie) :
  Forall onGrid cs -> Forall onGrid (turnLayer m cs).
Proof.
  rewrite turnLayer_map. intros H. apply Forall_map.
  eapply Forall_impl; [|exact H]. intros c Hc. cbv beta.
  destruct (onFace _ _ c); [apply commitCubie_onGrid|]; exact Hc.
Qed.

Lemma onFace_commitCubie (a : string) (l d : Z) (c : Cubie) :
  onGrid c -> onFace a l c = true -> onFace a l (commitCubie a d c) = true.
Proof.
  intros G H. rewrite onFace_grid in * by auto using commitCubie_onGrid.
  rewrite commitCubie_gridOf by exact G. now rewrite turnZ3_coordinate.
Qed.

(** The move inverse law on the grid. *)
Lemma turnLayer_inverse (m : Move) (cs : list Cubie) :
  Forall onGrid cs -> turnLayer (negateMove m) (turnLayer m cs) = cs.
Proof.
  intros H. rewrite !turnLayer_map, map_map.
  destruct m as [a l d]. cbn [negateMove axis layer direction].
  rewrite <- (map_id cs) at 2. apply map_ext_in. intros c Hc.
  rewrite Forall_forall in H. specialize (H c Hc).
  destruct (onFace a l c) eqn:E.
  - rewrite (onFace_commitCubie a l d c H E). now apply commitCubie_inverse.
  - now rewrite E.
Qed.

Lemma turnLayers_app (ms ms' : list Move) (cs : list Cubie) :
  turnLayers (ms ++ ms') cs = turnLayers ms' (turnLayers ms cs).
Proof. unfold turnLayers. apply fold_left_app. Qed.

Lemma turnLayers_onGrid (ms : list Move) (cs : list Cubie) :
  Forall onGrid cs -> Forall onGrid (turnLayers ms cs).
Proof.
  revert cs. induction ms as [|m ms IH]; intros cs H; [exact H|].
  cbn. apply IH. now apply turnLayer_onGrid.
Qed.

(** History reversal on the grid. *)
Lemma turnLayers_inverse (ms : list Move) (cs : list Cubie) :
  Forall onGrid cs ->
  turnLayers (map negateMove (rev ms)) (turnLayers ms cs) = cs.
Proof.
  intros H. induction ms as [|m ms IH] using rev_ind; [reflexivity|].
  rewrite rev_unit, turnLayers_app. cbn [map turnLayers fold_left].
  rewrite turnLayer_inverse by now apply turnLayers_onGrid.
  exact IH.
Qed.

Lemma solvedCubies_onGrid : Forall onGrid solvedCubies.
Proof.
  unfold solvedCubies. cbn [flat_map map app].
  repeat constructor; (eapply onGrid_intro; reflexivity).
Qed.

(** ** Animation frames *)

Lemma progress_early (elapsed : Z) :
  elapsed < duration ->
  Qltb (Qmin1 (inject_Z elapsed / inject_Z duration)) 1 = true.
Proof.
  intros H. apply Qltb_lt.
  assert (L : (inject_Z elapsed / inject_Z duration < 1)%Q).
  { apply Qlt_shift_div_r; [reflexivity|]. rewrite Qmult_1_l.
    rewrite <- Zlt_Qlt. exact H. }
  unfold Qmin1. destruct (Qle_bool _ 1) eqn:E; [exact L|].
  exfalso. apply Qlt_le_weak, Qle_bool_iff in L. congruence.
Qed.

Lemma progress_done (elapsed : Z) :
  duration <= elapsed ->
  Qltb (Qmin1 (inject_Z elapsed / inject_Z duration)) 1 = false.
Proof.
  intros H. apply Qltb_ge.
  unfold Qmin1. destruct (Qle_bool _ 1) eqn:E; [|apply Qle_refl].
  apply Qle_shift_div_l; [reflexivity|]. rewrite Qmult_1_l.
  rewrite <- Zle_Qle. exact H.
Qed.

(** A frame before the end of the animation changes nothing; a frame at or
    after [duration] makes the turn take effect. *)
Lemma animate_early (now : Z) (st : RubiksCube) (a : Animation) :
  pendingFrame st = Some a -> now - a_startTime a < duration ->
  animate now st = st.
Proof.
  intros P H. unfold animate. rewrite P. cbv zeta.
  now rewrite progress_early.
Qed.

Lemma animate_done (now : Z) (st : RubiksCube) (a : Animation) :
  pendingFrame st = Some a -> duration <= now - a_startTime a ->
  animate now st = commitAnimation now a st.
Proof.
  intros P H. unfold animate. rewrite P. cbv zeta.
  now rewrite progress_done.
Qed.

Lemma finishAnimation_commit (st : RubiksCube) (a : Animation) :
  pendingFrame st = Some a ->
  finishAnimation st = commitAnimation (a_startTime a + duration) a st.
Proof.
  intros P. unfold finishAnimation. rewrite P.
  apply animate_done; [exact P|lia].
Qed.

Lemma finishAnimations_rest (n : nat) (st : RubiksCube) :
  pendingFrame st = None -> finishAnimations n st = st.
Proof.
  intros P. induction n as [|n IH]; [reflexivity|].
  cbn. unfold finishAnimation. rewrite P. exact IH.
Qed.

Lemma callIfGiven_pendingFrame (f : option nat) (arg : option bool) (st : RubiksCube) :
  pendingFrame (callIfGiven f arg st) = pendingFrame st.
Proof. destruct f; reflexivity. Qed.

Lemma skipn_nth_error {A : Type} (l : list A) (k : nat) (x : A) :
  nth_error l k = Some x -> skipn k l = x :: skipn (S k) l.
Proof.
  revert k. induction l as [|y l IH]; intros [|k] H; try discriminate.
  - now inversion H.
  - cbn in *. now apply IH.
Qed.

Lemma skipn_nth_error_None {A : Type} (l : list A) (k : nat) :
  nth_error l k = None -> skipn k l = [].
Proof.
  intros H. apply skipn_all2. now apply nth_error_None.
Qed.

(** ** The chain of [solve] *)

Section SolveChain.

Variable sm : list Move.        (* the reversed history *)
Variable oc : option nat.       (* [onComplete] *)
Variable h : list Move.         (* the live history during the chain *)

(** One frame: the pending solving move is committed, not recorded, and
    [doNextMove] is entered with the next index. *)
Lemma solve_step (t : Z) (k : nat) (cs : list Cubie) (tr : list Observation)
    (m : Move) :
  nth_error sm k = Some m ->
  finishAnimation (solveDoNextMove t sm k oc (idle cs h tr)) =
  solveDoNextMove (t + duration) sm (S k) oc
    (idle (turnLayer (negateMove m) cs) h (tr ++ [Committed (negateMove m)])).
Proof.
  intros H. unfold solveDoNextMove at 1. rewrite H.
  unfold rotateFace, idle. cbn [isAnimating].
  erewrite finishAnimation_commit by reflexivity.
  unfold commitAnimation.
  cbn -[solveDoNextMove turnLayer getCubiesOnFace commitFace].
  unfold solveDoNextMove, rotateFace, callIfGiven, idle.
  destruct (nth_error sm (S k)); [reflexivity|].
  destruct oc; reflexivity.
Qed.

Lemma solve_done (t : Z) (k : nat) (cs : list Cubie) (tr : list Observation) :
  nth_error sm k = None ->
  solveDoNextMove t sm k oc (idle cs h tr) =
  callIfGiven oc (Some false)
    (idle (turnLayers (map negateMove (skipn k sm)) cs) h
          (tr ++ map Committed (map negateMove (skipn k sm)))).
Proof.
  intros E. unfold solveDoNextMove. rewrite E.
  rewrite (skipn_nth_error_None _ _ E). cbn. now rewrite app_nil_r.
Qed.

(** Enough frames: the rest of the reversed history is committed in order
    and [onComplete(false)] is called. *)
Lemma solve_run (n : nat) :
  forall (k : nat) (t : Z) (cs : list Cubie) (tr : list Observation),
  (List.length sm <= k + n)%nat ->
  finishAnimations n (solveDoNextMove t sm k oc (idle cs h tr)) =
  callIfGiven oc (Some false)
    (idle (turnLayers (map negateMove (skipn k sm)) cs) h
          (tr ++ map Committed (map negateMove (skipn k sm)))).
Proof.
  induction n as [|n IH]; intros k t cs tr L.
  - apply solve_done, nth_error_None. lia.
  - destruct (nth_error sm k) as [m|] eqn:E.
    + cbn [finishAnimations]. rewrite (solve_step _ _ _ _ m E).
      rewrite IH by lia. rewrite (skipn_nth_error _ _ _ E).
      cbn [map turnLayers fold_left]. now rewrite <- app_assoc.
    + rewrite finishAnimations_rest.
      * now apply solve_done.
      * unfold solveDoNextMove. rewrite E.
        now rewrite callIfGiven_pendingFrame.
Qed.

(** Whatever the number of frames, the chain of [solve] never records. *)
Lemma solve_chain_history (n : nat) :
  forall (k : nat) (t : Z) (cs : list Cubie) (tr : list Observation),
  let st := finishAnimations n (solveDoNextMove t sm k oc (idle cs h tr)) in
  moveHistory st = h /\
  (forall a, pendingFrame st = Some a -> r_record (a_request a) = false).
Proof.
  induction n as [|n IH]; intros k t cs tr.
  - cbn [finishAnimations]. unfold solveDoNextMove.
    destruct (nth_error sm k) as [m|].
    + split; [reflexivity|]. intros a A. cbn in A. now inversion A.
    + destruct oc; split; try reflexivity; intros a A; discriminate A.
  - destruct (nth_error sm k) as [m|] eqn:E.
    + cbn [finishAnimations]. rewrite (solve_step _ _ _ _ m E).
      apply IH.
    + cbv zeta. rewrite finishAnimations_rest;
        unfold solveDoNextMove; rewrite E.
      * destruct oc; split; try reflexivity; intros a A; discriminate A.
      * now rewrite callIfGiven_pendingFrame.
Qed.

End SolveChain.

(** ** The chain of [scramble] *)

Lemma replayed_idle (cs : list Cubie) (h : list Move) (tr : list Observation) :
  cs = turnLayers h solvedCubies -> replayed (idle cs h tr).
Proof. intros ->. exists tr. reflexivity. Qed.

Lemma replayed_callIfGiven (f : option nat) (arg : option bool) (st : RubiksCube) :
  replayed st -> replayed (callIfGiven f arg st).
Proof.
  intros [tr E]. destruct f as [id|]; [|exists tr; exact E].
  exists (tr ++ [Called id arg]). rewrite E at 1. reflexivity.
Qed.

Section ScrambleChain.

Variable names : list string.   (* [scrambleMoves] *)
Variable oc : option nat.       (* [onComplete] *)

(** One frame: the pending scramble move is committed and recorded, and
    [doNextMove] is entered with the next index. *)
Lemma scramble_step (t : Z) (k : nat) (cs : list Cubie) (h : list Move)
    (tr : list Observation) (name : string) (m : Move) :
  nth_error names k = Some name -> lookupMove MOVES name = Some m ->
  finishAnimation (scrambleDoNextMove t names k oc (idle cs h tr)) =
  scrambleDoNextMove (t + duration) names (S k) oc
    (idle (turnLayer m cs) (h ++ [m]) (tr ++ [Committed m])).
Proof.
  intros H L. unfold scrambleDoNextMove at 1. rewrite H.
  unfold executeMove. rewrite L.
  unfold rotateFace, idle. cbn [isAnimating].
  erewrite finishAnimation_commit by reflexivity.
  unfold commitAnimation. destruct m as [a l d].
  cbn -[scrambleDoNextMove turnLayer getCubiesOnFace commitFace].
  unfold scrambleDoNextMove, executeMove, rotateFace, callIfGiven, idle.
  destruct (nth_error names (S k)) as [name'|].
  - destruct (lookupMove MOVES name'); reflexivity.
  - destruct oc; reflexivity.
Qed.

(** Enough frames: the engine is at rest, its grid the solved grid turned
    by the history. *)
Lemma scramble_run (n : nat) :
  forall (k : nat) (t : Z) (cs : list Cubie) (h : list Move)
         (tr : list Observation),
  cs = turnLayers h solvedCubies ->
  (List.length names <= k + n)%nat ->
  replayed (finishAnimations n (scrambleDoNextMove t names k oc (idle cs h tr))).
Proof.
  induction n as [|n IH]; intros k t cs h tr C L.
  - assert (E : nth_error names k = None) by (apply nth_error_None; lia).
    cbn [finishAnimations]. unfold scrambleDoNextMove. rewrite E.
    now apply replayed_callIfGiven, replayed_idle.
  - destruct (nth_error names k) as [name|] eqn:E.
    + destruct (lookupMove MOVES name) as [m|] eqn:F.
      * cbn [finishAnimations]. rewrite (scramble_step _ _ _ _ _ name m E F).
        apply IH; [|lia]. subst cs. now rewrite turnLayers_app.
      * unfold scrambleDoNextMove, executeMove. rewrite E, F.
        rewrite finishAnimations_rest by reflexivity.
        now apply replayed_idle.
    + unfold scrambleDoNextMove. rewrite E.
      rewrite finishAnimations_rest by apply callIfGiven_pendingFrame.
      now apply replayed_callIfGiven, replayed_idle.
Qed.

(** A frame records at most one move. *)
Lemma scramble_history_bound (n : nat) :
  forall (k : nat) (t : Z) (cs : list Cubie) (h : list Move)
         (tr : list Observation),
  (List.length (moveHistory
     (finishAnimations n (scrambleDoNextMove t names k oc (idle cs h tr))))
   <= List.length h + n)%nat.
Proof.
  induction n as [|n IH]; intros k t cs h tr.
  - cbn [finishAnimations]. unfold scrambleDoNextMove, executeMove.
    destruct (nth_error names k) as [name|].
    + destruct (lookupMove MOVES name); cbn; lia.
    + destruct oc; cbn; lia.
  - destruct (nth_error names k) as [name|] eqn:E.
    + destruct (lookupMove MOVES name) as [m|] eqn:F.
      * cbn [finishAnimations]. rewrite (scramble_step _ _ _ _ _ name m E F).
        eapply Nat.le_trans; [apply IH|]. rewrite length_app. cbn. lia.
      * unfold scrambleDoNextMove, executeMove. rewrite E, F.
        rewrite finishAnimations_rest by reflexivity. cbn. lia.
    + unfold scrambleDoNextMove. rewrite E.
      rewrite finishAnimations_rest by apply callIfGiven_pendingFrame.
      destruct oc; cbn; lia.
Qed.

(** When every name is a move of the table, every one is played. *)
Hypothesis names_valid :
  Forall (fun name => exists m, lookupMove MOVES name = Some m) names.

Lemma scramble_run_all (n : nat) :
  forall (k : nat) (t : Z) (cs : list Cubie) (h : list Move)
         (tr : list Observation),
  (List.length names <= k + n)%nat -> (k <= List.length names)%nat ->
  List.length (moveHistory
    (finishAnimations n (scrambleDoNextMove t names k oc (idle cs h tr))))
  = (List.length h + (List.length names - k))%nat.
Proof.
  induction n as [|n IH]; intros k t cs h tr L K.
  - assert (E : nth_error names k = None) by (apply nth_error_None; lia).
    cbn [finishAnimations]. unfold scrambleDoNextMove. rewrite E.
    destruct oc; cbn; lia.
  - destruct (nth_error names k) as [name|] eqn:E.
    + assert (V := names_valid). rewrite Forall_forall in V.
      destruct (V name (nth_error_In _ _ E)) as [m F].
      assert (k < List.length names)%nat by (apply nth_error_Some; congruence).
      cbn [finishAnimations]. rewrite (scramble_step _ _ _ _ _ name m E F).
      rewrite IH by lia. rewrite length_app. cbn. lia.
    + assert (List.length names <= k)%nat by now apply nth_error_None.
      unfold scrambleDoNextMove. rewrite E.
      rewrite finishAnimations_rest by apply callIfGiven_pendingFrame.
      destruct oc; cbn; lia.
Qed.

End ScrambleChain.

(** ** Moves played one after the other *)

Lemma playMove_idle (t : Z) (r : bool) (m : Move)
    (cs : list Cubie) (h : list Move) (tr : list Observation) :
  playMove t r m (idle cs h tr) =
  idle (turnLayer m cs) (h ++ (if r then [m] else [])) (tr ++ [Committed m]).
Proof.
  unfold playMove, rotateFace, idle. cbn [isAnimating].
  erewrite finishAnimation_commit by reflexivity.
  unfold commitAnimation. destruct m as [a l d].
  destruct r; cbn -[turnLayer getCubiesOnFace commitFace];
    rewrite ?app_nil_r; reflexivity.
Qed.

Lemma playMoves_idle (t : Z) (ms : list Move) :
  forall (cs : list Cubie) (h : list Move) (tr : list Observation),
  playMoves t true ms (idle cs h tr) =
  idle (turnLayers ms cs) (h ++ ms) (tr ++ map Committed ms).
Proof.
  unfold playMoves, turnLayers.
  induction ms as [|m ms IH]; intros cs h tr.
  - cbn. now rewrite !app_nil_r.
  - cbn [fold_left]. rewrite playMove_idle, IH.
    cbn [map]. now rewrite <- !app_assoc.
Qed.

(** ** Solving a replayed cube *)

Lemma solve_idle (t : Z) (oc : option nat) (n : nat)
    (cs : list Cubie) (h : list Move) (tr : list Observation) :
  (List.length h <= n)%nat ->
  finishAnimations n (solve t oc (idle cs h tr)) =
  callIfGiven oc (Some (Nat.eqb (List.length h) 0))
    (idle (turnLayers (map negateMove (rev h)) cs) []
          (tr ++ map Committed (map negateMove (rev h)))).
Proof.
  intros L. unfold solve. cbn [busy idle isAnimating animationQueue moveHistory
                               List.length Nat.ltb Nat.leb orb].
  destruct h as [|m h].
  - cbn [List.length Nat.eqb rev map turnLayers fold_left].
    rewrite app_nil_r.
    apply finishAnimations_rest, callIfGiven_pendingFrame.
  - cbn [List.length Nat.eqb].
    change (set_moveHistory [] (idle cs (m :: h) tr)) with (idle cs [] tr).
    rewrite solve_run.
    + reflexivity.
    + rewrite length_rev. cbn [List.length]. cbn [List.length] in L. lia.
Qed.

Lemma callIfGiven_fields (f : option nat) (arg : option bool) (st : RubiksCube) :
  cubies (callIfGiven f arg st) = cubies st /\
  moveHistory (callIfGiven f arg st) = moveHistory st /\
  isAnimating (callIfGiven f arg st) = isAnimating st /\
  animationQueue (callIfGiven f arg st) = animationQueue st.
Proof. destruct f; repeat split; reflexivity. Qed.

Lemma solve_replayed (t : Z) (oc : option nat) (n : nat) (st : RubiksCube) :
  replayed st -> (List.length (moveHistory st) <= n)%nat ->
  let st' := finishAnimations n (solve t oc st) in
  cubies st' = solvedCubies /\ moveHistory st' = [] /\
  isAnimating st' = false /\ animationQueue st' = [] /\
  pendingFrame st' = None.
Proof.
  intros [tr E] L. cbv zeta. rewrite E. rewrite solve_idle by exact L.
  destruct (callIfGiven_fields oc (Some (Nat.eqb (List.length (moveHistory st)) 0))
    (idle (turnLayers (map negateMove (rev (moveHistory st)))
             (turnLayers (moveHistory st) solvedCubies)) []
          (tr ++ map Committed (map negateMove (rev (moveHistory st))))))
    as (C & H & A & Q).
  rewrite C, H, A, Q, callIfGiven_pendingFrame. cbn.
  repeat split; try reflexivity.
  apply turnLayers_inverse, solvedCubies_onGrid.
Qed.

Lemma scramble_replayed (t : Z) (random : nat -> Q) (oc : option nat)
    (st : RubiksCube) :
  replayed st -> replayed (finishAnimations 20 (scramble t random oc st)).
Proof.
  intros [tr E]. rewrite E. unfold scramble.
  cbn [busy idle isAnimating animationQueue List.length Nat.ltb Nat.leb orb].
  fold (idle (turnLayers (moveHistory st) solvedCubies) (moveHistory st) tr).
  apply scramble_run; [reflexivity|].
  rewrite length_map, length_seq. lia.
Qed.


(** ** The names drawn by [scramble] *)

Lemma scrambleMove_valid (random : nat -> Q) (i : nat) :
  (forall k, (0 <= random k < 1)%Q) ->
  exists m, lookupMove MOVES (scrambleMove random i) = Some m.
Proof.
  intros R. unfold scrambleMove.
  set (q := (random (2 * i)%nat * inject_Z (Z.of_nat (List.length moveNames)))%Q).
  assert (B : 0 <= Qfloor q < 6).
  { destruct (R (2 * i)%nat) as [L U]. subst q.
    change (inject_Z (Z.of_nat (List.length moveNames))) with 6%Q.
    split.
    - change 0 with (Qfloor 0). apply Qfloor_resp_le. lra.
    - rewrite Zlt_Qlt. eapply Qle_lt_trans; [apply Qfloor_le|].
      change (inject_Z 6) with 6%Q. lra. }
  unfold arrayGet. destruct (Z.ltb_spec (Qfloor q) 0) as [N|_]; [lia|].
  assert (C : (Z.to_nat (Qfloor q) < 6)%nat) by lia.
  destruct (Z.to_nat (Qfloor q)) as [|[|[|[|[|[|j]]]]]]; try lia;
    destruct (Qltb (1 # 2) (random (2 * i + 1)%nat)); eexists; reflexivity.
Qed.

(** ** Scramble, solve and the history *)

Lemma initialCube_idle : initialCube = idle solvedCubies [] [].
Proof. reflexivity. Qed.

(** C1.  Moves recorded from the solved cube are undone by [solve]: it
    commits the history in reverse order with every direction negated, and
    every cubie is back in its solved place and orientation; so is the cube
    after [scramble] then [solve], whatever [Math.random()] returned (and
    with results in [0, 1) the scramble does make its 20 moves). *)
Theorem solve_reverses_history :
  (forall (ms : list Move) (t t' : Z) (oc : option nat),
     let st := playMoves t true ms initialCube in
     let st' := finishAnimations (List.length ms) (solve t' oc st) in
     moveHistory st = ms /\
     trace st' = trace st ++ map Committed (map negateMove (rev ms)) ++
                 match oc with
                 | Some id => [Called id (Some (Nat.eqb (List.length ms) 0))]
                 | None => []
                 end /\
     cubies st' = solvedCubies /\ isAnimating st' = false)
  /\
  (forall (random : nat -> Q) (t t' : Z) (oc oc' : option nat),
     let st := finishAnimations 20 (scramble t random oc initialCube) in
     let st' := finishAnimations 20 (solve t' oc' st) in
     ((forall k, (0 <= random k < 1)%Q) ->
      List.length (moveHistory st) = 20%nat) /\
     isAnimating st = false /\
     cubies st' = solvedCubies /\ isAnimating st' = false).
Proof.
  split.
  - intros ms t t' oc. cbv zeta.
    rewrite initialCube_idle, playMoves_idle.
    rewrite solve_idle by (cbn; lia).
    cbn [app moveHistory idle trace]. split; [reflexivity|].
    destruct (callIfGiven_fields oc (Some (Nat.eqb (List.length ms) 0))
      (idle (turnLayers (map negateMove (rev ms)) (turnLayers ms solvedCubies))
            [] (map Committed ms ++ map Committed (map negateMove (rev ms)))))
      as (C & _ & A & _).
    rewrite C, A. cbn [cubies isAnimating idle].
    split; [|split; [apply turnLayers_inverse, solvedCubies_onGrid|reflexivity]].
    destruct oc; cbn; now rewrite <- ?app_assoc, ?app_nil_r.
  - intros random t t' oc oc'. cbv zeta.
    assert (R : replayed (finishAnimations 20 (scramble t random oc initialCube))).
    { apply scramble_replayed. rewrite initialCube_idle. now apply replayed_idle. }
    split; [|split].
    + intros V. unfold scramble. rewrite initialCube_idle.
      cbn [busy idle isAnimating animationQueue List.length Nat.ltb Nat.leb orb].
      fold (idle solvedCubies [] []).
      rewrite scramble_run_all.
      * now rewrite length_map, length_seq.
      * apply Forall_forall. intros name I. apply in_map_iff in I.
        destruct I as (i & <- & _). now apply scrambleMove_valid.
      * rewrite length_map, length_seq. lia.
      * lia.
    + destruct R as [tr ->]. reflexivity.
    + assert (B : (List.length (moveHistory
        (finishAnimations 20 (scramble t random oc initialCube))) <= 20)%nat).
      { unfold scramble. rewrite initialCube_idle.
        cbn [busy idle isAnimating animationQueue List.length Nat.ltb Nat.leb orb].
        fold (idle solvedCubies [] []).
        eapply Nat.le_trans; [apply scramble_history_bound|]. cbn. lia. }
      destruct (solve_replayed t' oc' 20 _ R B) as (C & _ & A & _).
      split; assumption.
Qed.

Lemma solve_reverses_history_witness :
  let random := fun _ : nat => (1 # 4)%Q in
  let st := finishAnimations 20 (scramble 0 random None initialCube) in
  (forall k, (0 <= random k < 1)%Q) /\
  List.length (moveHistory st) = 20%nat /\
  cubies (finishAnimations 20 (solve 5000 None st)) = solvedCubies.
Proof.
  cbv zeta.
  assert (V : forall k : nat, (0 <= (fun _ : nat => (1 # 4)%Q) k < 1)%Q)
    by (intros k; split; [discriminate|reflexivity]).
  split; [exact V|].
  destruct (proj2 solve_reverses_history (fun _ : nat => (1 # 4)%Q) 0 5000 None None)
    as (L & _ & C & _).
  split; [exact (L V)|exact C].
Defined.

(** ** References to the cubies of a face *)

Lemma indexed_filter_length {A : Type} (p : A -> bool) (cs : list A) (k : nat) :
  List.length (map fst (filter (fun ic => p (snd ic))
                          (combine (seq k (List.length cs)) cs)))
  = List.length (filter p cs).
Proof.
  revert k. induction cs as [|c cs IH]; intros k; [reflexivity|].
  cbn [List.length seq combine filter snd]. destruct (p c); cbn; now rewrite IH.
Qed.

Lemma indexed_filter_In {A : Type} (p : A -> bool) (cs : list A) (k i : nat) :
  In i (map fst (filter (fun ic => p (snd ic))
                        (combine (seq k (List.length cs)) cs)))
  <-> (k <= i)%nat /\ exists c, nth_error cs (i - k) = Some c /\ p c = true.
Proof.
  revert k. induction cs as [|c cs IH]; intros k.
  - cbn. split; [tauto|]. intros (_ & c & H & _).
    destruct (i - k)%nat; discriminate.
  - cbn [List.length seq combine filter snd].
    assert (T : In i (map fst (filter (fun ic => p (snd ic))
                   (combine (seq (S k) (List.length cs)) cs)))
                <-> (k < i)%nat /\ exists c', nth_error (c :: cs) (i - k) = Some c'
                                             /\ p c' = true).
    { rewrite IH. split.
      - intros (L & c' & N & P). split; [lia|]. exists c'. split; [|exact P].
        replace (i - k)%nat with (S (i - S k)) by lia. exact N.
      - intros (L & c' & N & P). split; [lia|]. exists c'. split; [|exact P].
        replace (i - k)%nat with (S (i - S k)) in N by lia. exact N. }
    destruct (p c) eqn:E.
    + cbn [map fst In]. rewrite T. split.
      * intros [ <- | (L & H) ].
        -- split; [lia|]. exists c. now rewrite Nat.sub_diag.
        -- split; [lia|exact H].
      * intros (L & c' & N & P).
        destruct (Nat.eq_dec k i) as [->|D]; [now left|right].
        split; [lia|]. now exists c'.
    + rewrite T. split.
      * intros (L & H). split; [lia|exact H].
      * intros (L & c' & N & P). split; [|now exists c'].
        destruct (Nat.eq_dec k i) as [->|D]; [|lia].
        rewrite Nat.sub_diag in N. cbn in N. congruence.
Qed.

Lemma indexed_filter_NoDup {A : Type} (p : A -> bool) (cs : list A) (k : nat) :
  NoDup (map fst (filter (fun ic => p (snd ic))
                         (combine (seq k (List.length cs)) cs))).
Proof.
  revert k. induction cs as [|c cs IH]; intros k; [constructor|].
  cbn [List.length seq combine filter snd]. destruct (p c); [|apply IH].
  cbn [map fst]. constructor; [|apply IH].
  rewrite indexed_filter_In. lia.
Qed.

Lemma getCubiesOnFace_In (a : string) (l : Z) (cs : list Cubie) (i : nat) :
  In i (getCubiesOnFace a l cs) <->
  exists c, nth_error cs i = Some c /\ onFace a l c = true.
Proof.
  unfold getCubiesOnFace. rewrite indexed_filter_In, Nat.sub_0_r.
  split; [tauto|]. intros H. split; [lia|exact H].
Qed.

Lemma Permutation_filter_length {A : Type} (p : A -> bool) (l l' : list A) :
  Permutation l l' -> List.length (filter p l) = List.length (filter p l').
Proof.
  induction 1 as [|x l l' _ IH|x y l|l l' l'' _ IH1 _ IH2]; cbn.
  - reflexivity.
  - destruct (p x); cbn; now rewrite IH.
  - destruct (p x), (p y); reflexivity.
  - now rewrite IH1.
Qed.

(** ** The grid *)

Lemma gridIndex_injective (g g' : Z3) :
  inGrid g = true -> inGrid g' = true -> gridIndex g = gridIndex g' -> g = g'.
Proof.
  rewrite !inGrid_iff. destruct g as [x y z], g' as [x' y' z'].
  unfold gridIndex. cbn [zx zy zz]. intros H H' E.
  f_equal; lia.
Qed.

Lemma gridCoordinates_inGrid (g : Z3) : In g gridCoordinates <-> inGrid g = true.
Proof.
  split.
  - unfold gridCoordinates. cbn [flat_map map app In].
    intros H. repeat (destruct H as [ <- | H ]; [reflexivity|]). destruct H.
  - rewrite inGrid_iff. destruct g as [x y z]. cbn [zx zy zz].
    intros (X & Y & Z').
    assert (x = -1 \/ x = 0 \/ x = 1) as [ -> | [ -> | -> ] ] by lia;
    assert (y = -1 \/ y = 0 \/ y = 1) as [ -> | [ -> | -> ] ] by lia;
    assert (z = -1 \/ z = 0 \/ z = 1) as [ -> | [ -> | -> ] ] by lia;
    unfold gridCoordinates; cbn [flat_map map app In]; tauto.
Qed.

Lemma gridCoordinates_NoDup : NoDup gridCoordinates.
Proof.
  apply (NoDup_map_inv gridIndex).
  change (map gridIndex gridCoordinates) with (map Z.of_nat (seq 0 27)).
  apply Injective_map_NoDup; [intros x y; apply Nat2Z.inj|apply seq_NoDup].
Qed.

Lemma gridPoints_NoDup : NoDup gridPoints.
Proof.
  apply (NoDup_map_inv (fun v => gridOf (mkCubie v identityQuaternion [] (mkZ3 0 0 0)))).
  unfold gridPoints. rewrite map_map.
  rewrite (map_ext_in _ (fun g => g)), map_id; [apply gridCoordinates_NoDup|].
  intros g _. now apply gridOf_gridPoint.
Qed.

Lemma turnGrid_coordinate (m : Move) (g : Z3) :
  coordinateZ3 (axis m) (turnGrid m g) = coordinateZ3 (axis m) g.
Proof.
  unfold turnGrid. destruct (_ && _); [apply turnZ3_coordinate|reflexivity].
Qed.

Lemma turnGrid_injective (m : Move) (g g' : Z3) :
  turnGrid m g = turnGrid m g' -> g = g'.
Proof.
  intros E.
  assert (C := f_equal (coordinateZ3 (axis m)) E).
  rewrite !turnGrid_coordinate in C.
  unfold turnGrid in E. rewrite C in E.
  destruct (_ && _); [|exact E].
  rewrite <- (turnZ3_inverse (axis m) (direction m) g),
          <- (turnZ3_inverse (axis m) (direction m) g').
  now rewrite E.
Qed.

Lemma turnGrid_inGrid (m : Move) (g : Z3) :
  inGrid g = true -> inGrid (turnGrid m g) = true.
Proof.
  intros H. unfold turnGrid. destruct (_ && _); [now apply turnZ3_inGrid|exact H].
Qed.

Lemma turnGrid_permutation (m : Move) :
  Permutation (map (turnGrid m) gridCoordinates) gridCoordinates.
Proof.
  apply Permutation_map_same_l.
  - apply Injective_map_NoDup; [|apply gridCoordinates_NoDup].
    intros g g'. apply turnGrid_injective.
  - intros g H. apply in_map_iff in H. destruct H as (g0 & <- & H).
    apply gridCoordinates_inGrid, turnGrid_inGrid, gridCoordinates_inGrid, H.
Qed.

Lemma turnLayer_gridOf (m : Move) (cs : list Cubie) :
  Forall onGrid cs ->
  map gridOf (turnLayer m cs) = map (turnGrid m) (map gridOf cs).
Proof.
  intros H. rewrite turnLayer_map, !map_map. apply map_ext_in.
  intros c Hc. rewrite Forall_forall in H. specialize (H c Hc).
  unfold turnGrid. rewrite <- onFace_grid by exact H.
  destruct (onFace _ _ c); [now apply commitCubie_gridOf|reflexivity].
Qed.

Lemma turnLayer_fills_grid (m : Move) (cs : list Cubie) :
  Forall onGrid cs ->
  Permutation (map gridOf cs) gridCoordinates ->
  Permutation (map gridOf (turnLayer m cs)) gridCoordinates.
Proof.
  intros G P. rewrite turnLayer_gridOf by exact G.
  eapply Permutation_trans; [|apply (turnGrid_permutation m)].
  now apply Permutation_map.
Qed.

Lemma solvedCubies_fill_grid : map gridOf solvedCubies = gridCoordinates.
Proof.
  unfold solvedCubies, gridCoordinates. cbn [flat_map map app].
  repeat (f_equal; [now apply gridOf_gridPoint|]). reflexivity.
Qed.

(** ** The invariant of the engine *)

Lemma rotateFace_cubies (now : Z) (a : string) (l d : Z) (r : bool)
    (cb : option Callback) (st : RubiksCube) :
  cubies (rotateFace now a l d r cb st) = cubies st.
Proof. unfold rotateFace. destruct (isAnimating st); reflexivity. Qed.

Lemma rotateFace_framed (now : Z) (a : string) (l d : Z) (r : bool)
    (cb : option Callback) (st : RubiksCube) :
  framed st ->
  framed (rotateFace now a l d r cb st) /\
  pendingFrame (rotateFace now a l d r cb st) <> None.
Proof.
  unfold framed, rotateFace. destruct st as [cs h ia q pf tr]. cbn.
  destruct ia; cbn.
  - destruct pf; [intros H; split; [exact H|discriminate]|discriminate].
  - intros _. split; [split; reflexivity|discriminate].
Qed.

Lemma rotateFace_queue (now : Z) (a : string) (l d : Z) (r : bool)
    (cb : option Callback) (st : RubiksCube) :
  isAnimating st = false ->
  animationQueue (rotateFace now a l d r cb st) = animationQueue st.
Proof. unfold rotateFace. now intros ->. Qed.

Lemma chained_facts (f : RubiksCube -> RubiksCube) (st : RubiksCube) :
  chained f -> framed st ->
  cubies (f st) = cubies st /\ framed (f st) /\
  (isAnimating st = false -> animationQueue (f st) = animationQueue st).
Proof.
  intros [now a l d r cb| |o] F.
  - split; [apply rotateFace_cubies|]. split; [now apply rotateFace_framed|].
    apply rotateFace_queue.
  - auto.
  - destruct st; auto.
Qed.

Lemma chained_callIfGiven (f : option nat) (arg : option bool) :
  chained (callIfGiven f arg).
Proof. destruct f; constructor. Qed.

Lemma chained_executeMove (now : Z) (name : string) (r : bool)
    (cb : option Callback) : chained (executeMove now name r cb).
Proof. unfold executeMove. destruct (lookupMove MOVES name); constructor. Qed.

Lemma chained_scrambleDoNextMove (now : Z) (names : list string) (k : nat)
    (oc : option nat) : chained (scrambleDoNextMove now names k oc).
Proof.
  unfold scrambleDoNextMove. destruct (nth_error names k).
  - apply chained_executeMove.
  - apply chained_callIfGiven.
Qed.

Lemma chained_solveDoNextMove (now : Z) (sm : list Move) (k : nat)
    (oc : option nat) : chained (solveDoNextMove now sm k oc).
Proof.
  unfold solveDoNextMove. destruct (nth_error sm k).
  - constructor.
  - apply chained_callIfGiven.
Qed.

Create HintDb engine.
#[local] Hint Constructors chained : engine.
#[local] Hint Resolve chained_callIfGiven chained_executeMove
  chained_scrambleDoNextMove chained_solveDoNextMove : engine.

Lemma chained_runCallback (now : Z) (cb : option Callback) :
  chained (runCallback now cb).
Proof.
  destruct cb as [[names k oc|sm k oc|id]|].
  - exact (chained_scrambleDoNextMove now names (S k) oc).
  - exact (chained_solveDoNextMove now sm (S k) oc).
  - exact (chained_observe (Called id None)).
  - exact chained_stay.
Qed.

#[local] Hint Resolve chained_runCallback : engine.

Lemma chained_consistent (f : RubiksCube -> RubiksCube) (st : RubiksCube) :
  chained f -> consistent st -> isAnimating st = false -> consistent (f st).
Proof.
  intros C (G & F & Q) I.
  destruct (chained_facts f st C F) as (Ec & Ff & Eq).
  split; [now rewrite Ec|]. split; [exact Ff|].
  intros _. rewrite Eq by exact I. apply Q.
  unfold framed in F. destruct (pendingFrame st) as [a|]; [|reflexivity].
  destruct F. congruence.
Qed.

Lemma rotateFace_consistent (now : Z) (a : string) (l d : Z) (r : bool)
    (cb : option Callback) (st : RubiksCube) :
  consistent st -> consistent (rotateFace now a l d r cb st).
Proof.
  intros (G & F & Q). split; [now rewrite rotateFace_cubies|].
  destruct (rotateFace_framed now a l d r cb st F) as (F' & N).
  split; [exact F'|]. intros E. contradiction.
Qed.

Lemma commitAnimation_consistent (now : Z) (a : Animation) (st : RubiksCube) :
  consistent st -> pendingFrame st = Some a ->
  consistent (commitAnimation now a st).
Proof.
  intros ((P & G) & F & _) E. unfold framed in F. rewrite E in F.
  destruct F as (_ & Fc).
  destruct a as [[a l d r cb] fc t0]. cbn [a_request a_faceCubies r_axis r_layer] in Fc.
  subst fc. destruct st as [cs h ia q pf tr]. cbn [cubies] in *.
  unfold commitAnimation. cbn [a_request a_faceCubies r_axis r_layer r_direction
                               r_record r_callback].
  fold (turnLayer (mkMove a l d) cs).
  set (st1 := set_isAnimating false _).
  assert (G1 : fillsGrid (cubies st1)).
  { assert (cubies st1 = turnLayer (mkMove a l d) cs) as ->
      by (subst st1; destruct r; reflexivity).
    split; [now apply turnLayer_fills_grid|now apply turnLayer_onGrid]. }
  assert (F1 : framed st1) by (subst st1; destruct r; reflexivity).
  assert (Ch : chained (runCallback now cb)) by auto with engine.
  destruct (chained_facts _ st1 Ch F1) as (Ec & F2 & _).
  set (st2 := runCallback now cb st1) in *.
  destruct (animationQueue st2) as [|next rest] eqn:Q2.
  - split; [now rewrite Ec|]. split; [exact F2|]. auto.
  - assert (F3 : framed (set_animationQueue rest st2)).
    { unfold framed in *. destruct st2; exact F2. }
    split; [|split].
    + rewrite rotateFace_cubies. destruct st2; cbn in *. now rewrite Ec.
    + now apply rotateFace_framed.
    + intros N. exfalso. revert N. now apply rotateFace_framed.
Qed.

Lemma busy_false (st : RubiksCube) :
  busy st = false -> isAnimating st = false /\ animationQueue st = [].
Proof.
  unfold busy. rewrite orb_false_iff. intros (I & Q). split; [exact I|].
  destruct (animationQueue st); [reflexivity|discriminate].
Qed.

Lemma solvedCubies_fillsGrid : fillsGrid solvedCubies.
Proof.
  split; [rewrite solvedCubies_fill_grid; apply Permutation_refl
         |apply solvedCubies_onGrid].
Qed.

Lemma step_consistent (now : Z) (e : Event) (st : RubiksCube) :
  consistent st -> consistent (step now e st).
Proof.
  intros C. destruct e as [a l d r cb|name r cb|random oc|oc| |a l d|]; cbn [step].
  - now apply rotateFace_consistent.
  - unfold executeMove. destruct (lookupMove MOVES name); [|exact C].
    now apply rotateFace_consistent.
  - unfold scramble. destruct (busy st) eqn:B; [exact C|].
    apply chained_consistent; [auto with engine|exact C|apply (busy_false st B)].
  - unfold solve. destruct (busy st) eqn:B; [exact C|].
    destruct (busy_false st B) as (I & Q).
    destruct (Nat.eqb _ 0).
    + apply chained_consistent; [auto with engine|exact C|exact I].
    + apply chained_consistent; [auto with engine| |destruct st; exact I].
      destruct st; exact C.
  - unfold reset. destruct (busy st) eqn:B; [exact C|].
    destruct (busy_false st B) as (I & Q). destruct C as (_ & F & _).
    destruct st as [cs h ia q pf tr]. unfold framed in F. cbn in *. subst ia.
    destruct pf as [a|]; [destruct F; discriminate|].
    split; [apply solvedCubies_fillsGrid|]. split; reflexivity.
  - destruct st; exact C.
  - unfold animate. destruct (pendingFrame st) as [a|] eqn:E; [|exact C].
    cbv zeta. destruct (Qltb _ 1); [exact C|].
    now apply commitAnimation_consistent.
Qed.

Lemma reachable_consistent (st : RubiksCube) : reachable st -> consistent st.
Proof.
  induction 1 as [|now e st _ IH].
  - split; [apply solvedCubies_fillsGrid|]. split; [reflexivity|reflexivity].
  - now apply step_consistent.
Qed.

Lemma filter_onFace_length (a : string) (l : Z) (cs : list Cubie) :
  Forall onGrid cs ->
  List.length (filter (onFace a l) cs) =
  List.length (filter (fun g => knownAxis a && (coordinateZ3 a g =? l))
                      (map gridOf cs)).
Proof.
  induction 1 as [|c cs G _ IH]; [reflexivity|].
  cbn [filter map]. rewrite <- onFace_grid by exact G.
  destruct (onFace a l c); cbn [List.length]; now rewrite IH.
Qed.

Lemma onFace_tolerance (a : string) (l : Z) (c : Cubie) :
  In a ["x"; "y"; "z"]%string ->
  onFace a l c = true <->
  (Qabs (coordinate a (position c) - inject_Z l * totalSize)
   < CUBIE_POSITION_TOLERANCE)%Q.
Proof.
  intros A. unfold onFace, coordinate, CUBIE_POSITION_TOLERANCE, Math_abs.
  destruct A as [ <- | [ <- | [ <- | [] ] ] ]; eval_axis_tests; apply Qltb_lt.
Qed.

Lemma onGrid_coordinate (a : string) (c : Cubie) :
  onGrid c ->
  coordinate a (position c) = (inject_Z (coordinateZ3 a (gridOf c)) * totalSize)%Q.
Proof.
  unfold onGrid, coordinate, coordinateZ3. intros ->.
  destruct (gridOf c) as [x y z].
  destruct (a =? "x")%string; [reflexivity|].
  destruct (a =? "y")%string; reflexivity.
Qed.

(** C2.  At every moment of every run from the initialized cube, so after
    any sequence of completed moves, the positions of the 27 cubies are the
    27 distinct grid points, each taken once; and the cubies returned by
    [getCubiesOnFace(axis, layer)] are 9, without repetition: those whose
    coordinate along the axis is within the tolerance of the layer (it then
    is the layer's coordinate). *)
Theorem grid_invariant (st : RubiksCube) :
  reachable st ->
  Permutation (map position (cubies st)) gridPoints /\
  NoDup gridPoints /\ List.length gridPoints = 27%nat /\
  forall (a : string) (l : Z),
    In a ["x"; "y"; "z"]%string -> In l [-1; 0; 1] ->
    let face := getCubiesOnFace a l (cubies st) in
    List.length face = 9%nat /\ NoDup face /\
    (forall i, In i face <->
       exists c, nth_error (cubies st) i = Some c /\
         (Qabs (coordinate a (position c) - inject_Z l * totalSize)
          < CUBIE_POSITION_TOLERANCE)%Q) /\
    (forall i c, In i face -> nth_error (cubies st) i = Some c ->
       coordinate a (position c) = (inject_Z l * totalSize)%Q).
Proof.
  intros R. destruct (reachable_consistent st R) as ((P & G) & _).
  split; [|split; [apply gridPoints_NoDup|split; [reflexivity|]]].
  - unfold gridPoints.
    rewrite (map_ext_in position (fun c => gridPoint (gridOf c))).
    + rewrite <- map_map. now apply Permutation_map.
    + intros c Hc. rewrite Forall_forall in G. exact (G c Hc).
  - intros a l A L. cbv zeta. split; [|split; [|split]].
    + unfold getCubiesOnFace. rewrite indexed_filter_length.
      rewrite filter_onFace_length by exact G.
      rewrite (Permutation_filter_length _ _ _ P).
      destruct A as [ <- | [ <- | [ <- | [] ] ] ];
        destruct L as [ <- | [ <- | [ <- | [] ] ] ]; reflexivity.
    + apply indexed_filter_NoDup.
    + intros i. rewrite getCubiesOnFace_In.
      split; intros (c & N & H); exists c; (split; [exact N|]);
        now apply (onFace_tolerance a l c A).
    + intros i c I N. apply getCubiesOnFace_In in I.
      destruct I as (c' & N' & F). assert (c' = c) as -> by congruence.
      assert (Gc : onGrid c).
      { rewrite Forall_forall in G. apply G. eapply nth_error_In, N. }
      rewrite onGrid_coordinate by exact Gc.
      rewrite onFace_grid in F by exact Gc.
      apply andb_true_iff in F. destruct F as (_ & F).
      apply Z.eqb_eq in F. now rewrite F.
Qed.

Lemma grid_invariant_witness :
  reachable (step 300 AnimationFrame
               (step 0 (CallExecuteMove "R" true None) initialCube)) /\
  List.length (getCubiesOnFace "y" 1
    (cubies (step 300 AnimationFrame
               (step 0 (CallExecuteMove "R" true None) initialCube)))) = 9%nat.
Proof.
  assert (R : reachable (step 300 AnimationFrame
               (step 0 (CallExecuteMove "R" true None) initialCube)))
    by (do 2 apply reachable_step; apply reachable_initial).
  split; [exact R|].
  refine (proj1 (proj2 (proj2 (proj2 (grid_invariant _ R))) "y"%string 1 _ _));
    cbn; auto.
Defined.

Lemma consistent_idle (st : RubiksCube) :
  consistent st -> isAnimating st = false ->
  st = idle (cubies st) (moveHistory st) (trace st).
Proof.
  intros (_ & F & Q) I. unfold framed in F.
  destruct st as [cs h ia q pf tr]. cbn in *. subst ia.
  destruct pf as [a|]; [destruct F; discriminate|].
  now rewrite Q.
Qed.

(** C3.  From a reachable state at rest, a move played to its end and then
    the same move with the direction negated leave every cubie with the
    position and orientation it had; and in [MOVES] each letter and its
    primed form have the same axis and layer and opposite directions. *)
Theorem move_inverse_law :
  (forall (st : RubiksCube), reachable st -> isAnimating st = false ->
     forall (t t' : Z) (r r' : bool) (a : string) (l d : Z),
       let st1 := playMove t r (mkMove a l d) st in
       let st2 := playMove t' r' (mkMove a l (- d)) st1 in
       isAnimating st1 = false /\ isAnimating st2 = false /\
       cubies st2 = cubies st) /\
  (forall (X : string), In X moveNames ->
     exists a l d,
       lookupMove MOVES X = Some (mkMove a l d) /\
       lookupMove MOVES (X ++ "'") = Some (mkMove a l (- d)) /\
       (d = 1 \/ d = -1)).
Proof.
  split.
  - intros st R I t t' r r' a l d. cbv zeta.
    assert (C := reachable_consistent st R).
    rewrite (consistent_idle st C I). rewrite !playMove_idle.
    cbn [isAnimating cubies idle]. repeat split.
    apply (turnLayer_inverse (mkMove a l d)). apply C.
  - intros X H. cbn in H.
    repeat (destruct H as [ <- | H ];
            [do 3 eexists; repeat split; try reflexivity; auto|]).
    destruct H.
Qed.

Lemma move_inverse_law_witness :
  reachable initialCube /\ isAnimating initialCube = false /\
  cubies (playMove 300 true (mkMove "x" 1 (- -1))
            (playMove 0 true (mkMove "x" 1 (-1)) initialCube))
  = cubies initialCube /\
  In "R"%string moveNames /\
  lookupMove MOVES "R'" = Some (mkMove "x" 1 1).
Proof.
  split; [apply reachable_initial|]. split; [reflexivity|]. split.
  - apply (proj1 move_inverse_law initialCube reachable_initial eq_refl
                 0 300 true true "x"%string 1 (-1)).
  - split; [cbn; auto|].
    destruct (proj2 move_inverse_law "R"%string) as (a & l & d & H1 & H2 & _).
    + cbn; auto.
    + cbn in H1. injection H1 as <- <- <-. exact H2.
Defined.

(** ** Requests made while the engine is busy *)

(** C6.  While a rotation is animating or the queue is not empty,
    [scramble], [solve] and [reset] return without any effect: the whole
    state of the engine, its grid, history and queue among it, is as it
    was. *)
Theorem busy_calls_ignored (st : RubiksCube) :
  isAnimating st = true \/ animationQueue st <> [] ->
  forall (t : Z) (random : nat -> Q) (oc : option nat),
    scramble t random oc st = st /\ solve t oc st = st /\ reset st = st.
Proof.
  intros H t random oc.
  assert (B : busy st = true).
  { unfold busy. destruct H as [->|H]; [reflexivity|].
    destruct (animationQueue st); [contradiction|]. apply orb_true_r. }
  unfold scramble, solve, reset. now rewrite B.
Qed.

Lemma busy_calls_ignored_witness :
  let st := rotateFace 0 "x" 1 (-1) true None initialCube in
  (isAnimating st = true \/ animationQueue st <> []) /\
  scramble 50 (fun _ => 1 # 4) None st = st /\ solve 50 None st = st /\
  reset st = st.
Proof.
  cbv zeta. split; [left; reflexivity|].
  apply (busy_calls_ignored (rotateFace 0 "x" 1 (-1) true None initialCube)).
  left. reflexivity.
Defined.

(** ** The outcomes of [solve] *)

Lemma finishAnimation_reachable (st : RubiksCube) :
  reachable st -> reachable (finishAnimation st).
Proof.
  intros R. unfold finishAnimation. destruct (pendingFrame st) as [a|]; [|exact R].
  exact (reachable_step _ AnimationFrame st R).
Qed.

Lemma playMove_reachable (t : Z) (r : bool) (m : Move) (st : RubiksCube) :
  reachable st -> reachable (playMove t r m st).
Proof.
  intros R. apply finishAnimation_reachable.
  exact (reachable_step t (CallRotateFace (axis m) (layer m) (direction m) r None)
                        st R).
Qed.

(** C7.  With an empty history, [solve] only calls [onComplete(true)]: no
    rotation starts.  With a history, every move of the reversal runs with
    [record = false] and the history, cleared at the call, is empty at every
    frame; when the last move has been committed [onComplete(false)] is
    called. *)
Theorem solve_outcomes (st : RubiksCube) :
  reachable st -> busy st = false ->
  forall (t : Z) (id : nat),
  (moveHistory st = [] ->
     solve t (Some id) st = observe (Called id (Some true)) st /\
     solve t None st = st) /\
  (moveHistory st <> [] ->
     forall (oc : option nat),
     let st1 := solve t oc st in
     moveHistory st1 = [] /\ isAnimating st1 = true /\
     (forall n, let st' := finishAnimations n st1 in
        moveHistory st' = [] /\
        forall a, pendingFrame st' = Some a -> r_record (a_request a) = false) /\
     (forall n, (List.length (moveHistory st) <= n)%nat ->
        let st' := finishAnimations n st1 in
        isAnimating st' = false /\ moveHistory st' = [] /\
        trace st' =
          trace st ++ map Committed (map negateMove (rev (moveHistory st))) ++
          match oc with Some f => [Called f (Some false)] | None => [] end)).
Proof.
  intros R B t id.
  destruct (busy_false st B) as (I & _).
  assert (E := consistent_idle st (reachable_consistent st R) I).
  split.
  - intros H. unfold solve. rewrite B, H. split; reflexivity.
  - intros H oc. cbv zeta.
    destruct (moveHistory st) as [|m h] eqn:Hm; [contradiction|].
    assert (S : solve t oc st =
                solveDoNextMove t (rev (m :: h)) 0 oc
                  (idle (cubies st) [] (trace st))).
    { unfold solve. rewrite B, Hm. cbn [List.length Nat.eqb].
      f_equal. destruct st as [cs h0 ia q pf tr]. unfold idle in E. cbn in *.
      now inversion E. }
    split; [|split; [|split]].
    + rewrite S. unfold solveDoNextMove.
      destruct (nth_error (rev (m :: h)) 0) as [m'|] eqn:N; [reflexivity|].
      apply nth_error_None in N. rewrite length_rev in N. cbn in N. lia.
    + rewrite S. unfold solveDoNextMove.
      destruct (nth_error (rev (m :: h)) 0) as [m'|] eqn:N; [reflexivity|].
      apply nth_error_None in N. rewrite length_rev in N. cbn in N. lia.
    + intros n. rewrite S. apply solve_chain_history.
    + intros n L. cbv zeta. rewrite S.
      rewrite solve_run by (rewrite length_rev; exact L).
      cbn [skipn]. destruct oc; cbn [callIfGiven observe idle isAnimating
                                      moveHistory trace];
        rewrite <- ?app_assoc, ?app_nil_r; auto.
Qed.

Lemma solve_outcomes_witness :
  let st := playMove 0 true (mkMove "x" 1 (-1)) initialCube in
  reachable initialCube /\ busy initialCube = false /\
  moveHistory initialCube = [] /\ moveHistory st <> [] /\
  solve 5 (Some 7%nat) initialCube = observe (Called 7%nat (Some true)) initialCube /\
  moveHistory (solve 300 (Some 7%nat) st) = [].
Proof.
  cbv zeta. split; [apply reachable_initial|]. split; [reflexivity|].
  split; [reflexivity|]. split; [discriminate|]. split.
  - refine (proj1 (proj1 (solve_outcomes initialCube reachable_initial eq_refl
                            5 7%nat) eq_refl)).
  - assert (R : reachable (playMove 0 true (mkMove "x" 1 (-1)) initialCube))
      by apply playMove_reachable, reachable_initial.
    refine (proj1 (proj2 (solve_outcomes _ R eq_refl 300 7%nat) _ (Some 7%nat))).
    discriminate.
Defined.

(** ** Corner neighbor selection *)

Lemma find_first {A : Type} (p : A -> bool) (l : list A) (x : A) :
  find p l = Some x ->
  exists pre post, l = pre ++ x :: post /\ p x = true /\
                   Forall (fun y => p y = false) pre.
Proof.
  induction l as [|y l IH]; [discriminate|]. cbn.
  destruct (p y) eqn:E.
  - intros H. inversion H; subst. exists [], l. auto.
  - intros H. destruct (IH H) as (pre & post & -> & P & F).
    exists (y :: pre), post. auto.
Qed.

Lemma find_nothing {A : Type} (p : A -> bool) (l : list A) :
  find p l = None -> Forall (fun y => p y = false) l.
Proof.
  induction l as [|y l IH]; [constructor|]. cbn.
  destruct (p y) eqn:E; [discriminate|]. auto.
Qed.

(** C8.  [selectCornerNeighborBySwipeDirection] is a function of its
    arguments.  Of a list that is not empty it returns a member: when
    |deltaX| > |deltaY| the first face whose axis is y, otherwise the first
    face whose axis is not y, and the first face of the list when there is
    no face of the wanted kind.  Of an empty or missing list it returns
    null. *)
Theorem corner_neighbor_selection :
  (forall (dx dy : Q),
     selectCornerNeighborBySwipeDirection None dx dy = None /\
     selectCornerNeighborBySwipeDirection (Some []) dx dy = None) /\
  (forall (faces : list Face) (dx dy : Q), faces <> [] ->
     exists f,
       selectCornerNeighborBySwipeDirection (Some faces) dx dy = Some f /\
       In f faces /\
       ((Qabs dy < Qabs dx)%Q ->
          (exists pre post, faces = pre ++ f :: post /\ f_axis f = "y"%string /\
                            Forall (fun g => f_axis g <> "y"%string) pre) \/
          (Forall (fun g => f_axis g <> "y"%string) faces /\
           hd_error faces = Some f)) /\
       (~ (Qabs dy < Qabs dx)%Q ->
          (exists pre post, faces = pre ++ f :: post /\ f_axis f <> "y"%string /\
                            Forall (fun g => f_axis g = "y"%string) pre) \/
          (Forall (fun g => f_axis g = "y"%string) faces /\
           hd_error faces = Some f))).
Proof.
  split; [intros dx dy; split; reflexivity|].
  intros faces dx dy N. destruct faces as [|first rest]; [contradiction|].
  unfold selectCornerNeighborBySwipeDirection, Math_abs.
  destruct (Qltb (Qabs dy) (Qabs dx)) eqn:S.
  - apply Qltb_lt in S.
    destruct (find _ (first :: rest)) as [y|] eqn:F.
    + destruct (find_first _ _ _ F) as (pre & post & E & P & A).
      exists y. split; [reflexivity|]. split; [rewrite E; apply in_elt|].
      split; [|intros C; contradiction].
      intros _. left. exists pre, post. split; [exact E|].
      split; [now apply String.eqb_eq|].
      eapply Forall_impl; [|exact A]. intros g. apply String.eqb_neq.
    + apply find_nothing in F.
      exists first. split; [reflexivity|]. split; [now left|].
      split; [|intros C; contradiction].
      intros _. right. split; [|reflexivity].
      eapply Forall_impl; [|exact F]. intros g. apply String.eqb_neq.
  - apply Qltb_ge in S.
    assert (NS : ~ (Qabs dy < Qabs dx)%Q) by now apply Qle_not_lt.
    destruct (find _ (first :: rest)) as [s|] eqn:F.
    + destruct (find_first _ _ _ F) as (pre & post & E & P & A).
      exists s. split; [reflexivity|]. split; [rewrite E; apply in_elt|].
      split; [intros C; contradiction|].
      intros _. left. exists pre, post. split; [exact E|].
      split; [now apply String.eqb_neq, negb_true_iff|].
      eapply Forall_impl; [|exact A]. intros g G.
      now apply String.eqb_eq, negb_false_iff.
    + apply find_nothing in F.
      exists first. split; [reflexivity|]. split; [now left|].
      split; [intros C; contradiction|].
      intros _. right. split; [|reflexivity].
      eapply Forall_impl; [|exact F]. intros g G.
      now apply String.eqb_eq, negb_false_iff.
Qed.

Lemma corner_neighbor_selection_witness :
  [mkFace "x" 1; mkFace "y" 1] <> [] /\
  exists f, selectCornerNeighborBySwipeDirection
              (Some [mkFace "x" 1; mkFace "y" 1]) 30%Q 4%Q = Some f /\
            In f [mkFace "x" 1; mkFace "y" 1].
Proof.
  split; [discriminate|].
  destruct (proj2 corner_neighbor_selection [mkFace "x" 1; mkFace "y" 1] 30%Q 4%Q)
    as (f & S & I & _); [discriminate|].
  exists f. split; assumption.
Defined.

(** ** Classification of a cubie *)

Lemma touchesFaceb_iff (pos : Vector3) (f : Face) :
  touchesFaceb pos f = true <-> touchesFace pos f.
Proof. apply Qltb_lt. Qed.

Lemma test_upper (q : Q) :
  Qltb (Math_abs (q - totalSize)) CUBIE_POSITION_TOLERANCE =
  Qltb (Qabs (q - inject_Z 1 * totalSize)) CUBIE_POSITION_TOLERANCE.
Proof.
  apply Qltb_comp; [|reflexivity]. unfold Math_abs. apply Qabs_wd.
  change (inject_Z 1) with 1%Q. ring.
Qed.

Lemma test_lower (q : Q) :
  Qltb (Math_abs (q + totalSize)) CUBIE_POSITION_TOLERANCE =
  Qltb (Qabs (q - inject_Z (-1) * totalSize)) CUBIE_POSITION_TOLERANCE.
Proof.
  apply Qltb_comp; [|reflexivity]. unfold Math_abs. apply Qabs_wd.
  change (inject_Z (-1)) with (-1 # 1)%Q. ring.
Qed.

(** The faces collected by the six tests of the source are the outer faces
    that the position touches, in the order y, x, z. *)
Lemma outerFacesOf_filter (pos : Vector3) :
  outerFacesOf pos = filter (touchesFaceb pos) sixOuterFaces.
Proof.
  unfold outerFacesOf.
  rewrite (test_upper (vy pos)), (test_upper (vx pos)), (test_upper (vz pos)).
  rewrite (test_lower (vy pos)), (test_lower (vx pos)), (test_lower (vz pos)).
  unfold sixOuterFaces, touchesFaceb. cbn [filter f_axis f_layer].
  unfold coordinate. eval_axis_tests.
  destruct (Qltb (Qabs (vy pos - inject_Z 1 * totalSize)) _),
           (Qltb (Qabs (vy pos - inject_Z (-1) * totalSize)) _),
           (Qltb (Qabs (vx pos - inject_Z 1 * totalSize)) _),
           (Qltb (Qabs (vx pos - inject_Z (-1) * totalSize)) _),
           (Qltb (Qabs (vz pos - inject_Z 1 * totalSize)) _),
           (Qltb (Qabs (vz pos - inject_Z (-1) * totalSize)) _); reflexivity.
Qed.

(** No position touches two opposite faces. *)
Lemma touches_exclusive (pos : Vector3) (a : string) :
  touchesFaceb pos (mkFace a 1) = true ->
  touchesFaceb pos (mkFace a (-1)) = false.
Proof.
  intros H. apply touchesFaceb_iff in H. apply Qltb_ge.
  unfold touchesFace in H. cbn [f_axis f_layer] in *.
  apply Qabs_Qlt_condition in H.
  eapply Qle_trans; [|apply Qle_Qabs].
  change (inject_Z 1) with 1%Q in H. change (inject_Z (-1)) with (-1 # 1)%Q.
  unfold CUBIE_POSITION_TOLERANCE, totalSize, cubeSize, gap in *. lra.
Qed.

Lemma Face_eqb_eq (f : Face) (a : string) (l : Z) :
  Face_eqb f a l = true <-> f = mkFace a l.
Proof.
  destruct f as [fa fl]. unfold Face_eqb. cbn [f_axis f_layer].
  rewrite andb_true_iff, String.eqb_eq, Z.eqb_eq.
  split; [intros (-> & ->); reflexivity|intros H; inversion H; auto].
Qed.

Lemma classification_counts (a : string) (l : Z) (pos : Vector3) :
  In (mkFace a l) sixOuterFaces -> touchesFace pos (mkFace a l) ->
  let r := getCubieTypeAndNeighbors a l pos in
  (touchCount pos = 1%nat /\ fst r = center /\ List.length (snd r) = 0%nat) \/
  (touchCount pos = 2%nat /\ fst r = edge /\ List.length (snd r) = 1%nat) \/
  (touchCount pos = 3%nat /\ fst r = corner /\ List.length (snd r) = 2%nat).
Proof.
  intros I T. apply touchesFaceb_iff in T.
  assert (Ey := touches_exclusive pos "y").
  assert (Ex := touches_exclusive pos "x").
  assert (Ez := touches_exclusive pos "z").
  unfold getCubieTypeAndNeighbors, touchCount. rewrite outerFacesOf_filter.
  unfold sixOuterFaces in *. cbn [filter].
  destruct (touchesFaceb pos (mkFace "y" 1)) eqn:Y1;
    [assert (Y2 := Ey eq_refl); rewrite Y2
    |destruct (touchesFaceb pos (mkFace "y" (-1))) eqn:Y2];
  (destruct (touchesFaceb pos (mkFace "x" 1)) eqn:X1;
    [assert (X2 := Ex eq_refl); rewrite X2
    |destruct (touchesFaceb pos (mkFace "x" (-1))) eqn:X2]);
  (destruct (touchesFaceb pos (mkFace "z" 1)) eqn:Z1;
    [assert (Z2 := Ez eq_refl); rewrite Z2
    |destruct (touchesFaceb pos (mkFace "z" (-1))) eqn:Z2]);
  clear Ex Ey Ez;
  repeat (destruct I as [I|I];
          [injection I as <- <-; try congruence; vm_compute; tauto|]);
  destruct I.
Qed.

(** C9.  For a position on the clicked outer face, the type returned is the
    one given by the number of outer faces the position touches (1 center,
    2 edge, 3 corner), and the neighbor faces are the outer faces the
    position touches other than the clicked one, each once: none for a
    center, 1 for an edge, 2 for a corner. *)
Theorem cubie_classification (a : string) (l : Z) (pos : Vector3) :
  In (mkFace a l) sixOuterFaces -> touchesFace pos (mkFace a l) ->
  let r := getCubieTypeAndNeighbors a l pos in
  ((touchCount pos = 1%nat /\ fst r = center /\ List.length (snd r) = 0%nat) \/
   (touchCount pos = 2%nat /\ fst r = edge /\ List.length (snd r) = 1%nat) \/
   (touchCount pos = 3%nat /\ fst r = corner /\ List.length (snd r) = 2%nat)) /\
  NoDup (snd r) /\
  (forall f, In f (snd r) <->
             In f sixOuterFaces /\ touchesFace pos f /\ f <> mkFace a l).
Proof.
  intros I T. cbv zeta. split; [now apply classification_counts|].
  unfold getCubieTypeAndNeighbors. cbn [snd]. rewrite outerFacesOf_filter.
  split.
  - do 2 apply NoDup_filter.
    unfold sixOuterFaces. repeat constructor; cbn; intuition discriminate.
  - intros f. rewrite !filter_In, negb_true_iff, touchesFaceb_iff.
    rewrite <- (Face_eqb_eq f a l).
    destruct (Face_eqb f a l); intuition congruence.
Qed.

Lemma cubie_classification_witness :
  In (mkFace "z" 1) sixOuterFaces /\
  touchesFace (gridPoint (mkZ3 1 0 1)) (mkFace "z" 1) /\
  touchCount (gridPoint (mkZ3 1 0 1)) = 2%nat /\
  fst (getCubieTypeAndNeighbors "z" 1 (gridPoint (mkZ3 1 0 1))) = edge /\
  List.length (snd (getCubieTypeAndNeighbors "z" 1 (gridPoint (mkZ3 1 0 1)))) = 1%nat.
Proof.
  assert (I : In (mkFace "z" 1) sixOuterFaces) by (cbn; tauto).
  assert (T : touchesFace (gridPoint (mkZ3 1 0 1)) (mkFace "z" 1))
    by (apply touchesFaceb_iff; reflexivity).
  split; [exact I|]. split; [exact T|].
  destruct (proj1 (cubie_classification "z" 1 (gridPoint (mkZ3 1 0 1)) I T))
    as [(C & _)|[H|(C & _)]]; [discriminate C|exact H|discriminate C].
Defined.

(** C10.  A position that touches none of the six outer faces, such as the
    origin where the hidden middle cubie sits, is classified [corner] with
    no neighbor face, whatever the clicked axis and layer. *)
Theorem interior_position_is_corner (a : string) (l : Z) (pos : Vector3) :
  (forall f, In f sixOuterFaces -> ~ touchesFace pos f) ->
  getCubieTypeAndNeighbors a l pos = (corner, []).
Proof.
  intros H. unfold getCubieTypeAndNeighbors.
  assert (E : outerFacesOf pos = []).
  { rewrite outerFacesOf_filter.
    destruct (filter (touchesFaceb pos) sixOuterFaces) as [|f fs] eqn:F;
      [reflexivity|].
    assert (I : In f (filter (touchesFaceb pos) sixOuterFaces))
      by (rewrite F; now left).
    apply filter_In in I. destruct I as (I & T).
    apply touchesFaceb_iff in T. now destruct (H f I). }
  rewrite E. reflexivity.
Qed.

Lemma interior_position_is_corner_witness :
  (forall f, In f sixOuterFaces -> ~ touchesFace (mkVector3 0 0 0) f) /\
  getCubieTypeAndNeighbors "x" 1 (mkVector3 0 0 0) = (corner, []).
Proof.
  assert (H : forall f, In f sixOuterFaces -> ~ touchesFace (mkVector3 0 0 0) f).
  { intros f I T. apply touchesFaceb_iff in T. cbn in I.
    repeat (destruct I as [ <- | I ]; [discriminate T|]). destruct I. }
  split; [exact H|]. exact (interior_position_is_corner "x" 1 _ H).
Defined.

(** ** The order of queued moves *)

(** A request made while a rotation is animating is appended to the queue
    as it is. *)
Lemma rotateFace_enqueues (now : Z) (a : string) (l d : Z) (r : bool)
    (cb : option Callback) (st : RubiksCube) :
  isAnimating st = true ->
  rotateFace now a l d r cb st =
  set_animationQueue (animationQueue st ++ [mkRequest a l d r cb]) st.
Proof. unfold rotateFace. now intros ->. Qed.

(** The end of an animation whose request has no callback: the next
    request of the queue, if any, starts. *)
Lemma plain_commit (r0 : Request) (t : Z) (q : list Request)
    (cs : list Cubie) (h : list Move) (tr : list Observation) :
  r_callback r0 = None ->
  finishAnimation (animating r0 t q cs h tr) =
  let cs' := turnLayer (moveOf r0) cs in
  let h' := h ++ (if r_record r0 then [moveOf r0] else []) in
  let tr' := tr ++ [Committed (moveOf r0)] in
  match q with
  | [] => idle cs' h' tr'
  | r1 :: rest => animating r1 (t + duration) rest cs' h' tr'
  end.
Proof.
  destruct r0 as [a l d r cb]. cbn [r_callback]. intros ->.
  unfold animating at 1. erewrite finishAnimation_commit by reflexivity.
  unfold commitAnimation, moveOf.
  cbn [a_request a_faceCubies a_startTime r_axis r_layer r_direction r_record
       r_callback].
  destruct r, q as [|[a1 l1 d1 r1 cb1] rest];
    cbn -[turnLayer getCubiesOnFace commitFace]; rewrite ?app_nil_r; reflexivity.
Qed.

(** Requests without callback are served first in, first out. *)
Lemma plain_queue_run (q : list Request) :
  Forall (fun r => r_callback r = None) q ->
  forall (r0 : Request) (t : Z) (cs : list Cubie) (h : list Move)
         (tr : list Observation),
  r_callback r0 = None ->
  finishAnimations (S (List.length q)) (animating r0 t q cs h tr) =
  idle (turnLayers (map moveOf (r0 :: q)) cs)
       (h ++ map moveOf (filter r_record (r0 :: q)))
       (tr ++ map Committed (map moveOf (r0 :: q))).
Proof.
  induction 1 as [|r1 q P1 _ IH]; intros r0 t cs h tr P0.
  - cbn [List.length finishAnimations]. rewrite plain_commit by exact P0.
    cbn [map filter turnLayers fold_left].
    destruct (r_record r0); reflexivity.
  - change (finishAnimations (S (List.length (r1 :: q))) (animating r0 t (r1 :: q) cs h tr))
      with (finishAnimations (S (List.length q))
              (finishAnimation (animating r0 t (r1 :: q) cs h tr))).
    rewrite plain_commit by exact P0. cbv zeta.
    rewrite IH by exact P1.
    cbn [map filter turnLayers fold_left].
    destruct (r_record r0), (r_record r1); cbn [map app];
      now rewrite <- ?app_assoc, ?app_nil_r.
Qed.

(** The end of a solving move that is not the last one, with a request
    waiting: the callback starts the next solving move first, and the
    request taken from the head of the queue goes back to its tail. *)
Lemma solve_commit_requeues (sm : list Move) (k : nat) (oc : option nat)
    (a : string) (l d : Z) (t : Z) (next : Request) (rest : list Request)
    (cs : list Cubie) (h : list Move) (tr : list Observation) (m' : Move) :
  nth_error sm (S k) = Some m' ->
  let cs' := turnLayer (mkMove a l d) cs in
  finishAnimation
    (animating (mkRequest a l d false (Some (SolveNext sm k oc))) t
               (next :: rest) cs h tr) =
  animating (mkRequest (axis m') (layer m') (- direction m') false
                       (Some (SolveNext sm (S k) oc)))
            (t + duration) (rest ++ [next]) cs' h
            (tr ++ [Committed (mkMove a l d)]).
Proof.
  intros E. cbv zeta. unfold animating at 1.
  erewrite finishAnimation_commit by reflexivity.
  unfold commitAnimation.
  cbn [a_request a_faceCubies a_startTime r_axis r_layer r_direction r_record
       r_callback runCallback].
  unfold solveDoNextMove. rewrite E.
  destruct next as [a1 l1 d1 r1 cb1]. reflexivity.
Qed.

(** C4 at a failing input.  The cube has the history R, U and [solve] is
    called; while its first move [m0] is animating, F, B and L are requested
    in that order.  The three are enqueued as requested.  At the commit of
    [m0] its callback starts the second solving move before the queue is
    looked at, so F, shifted off the queue while that move animates, is
    pushed again, now behind B and L: the commits are [m0], the second
    solving move, B, L and then F. *)
Theorem queue_order_after_callback :
  let R := mkMove "x" 1 (-1) in
  let U := mkMove "y" 1 (-1) in
  let F := mkRequest "z" 1 (-1) true None in
  let B := mkRequest "z" (-1) 1 true None in
  let L := mkRequest "x" (-1) 1 true None in
  let st := playMoves 0 true [R; U] initialCube in
  let solving := solve 500 (Some 7%nat) st in
  let requested :=
    executeMove 530 "L" true None
      (executeMove 520 "B" true None
         (executeMove 510 "F" true None solving)) in
  isAnimating solving = true /\
  animationQueue requested = [F; B; L] /\
  trace (finishAnimations 5 requested) =
    trace st ++
    [ Committed (negateMove U); Committed (negateMove R);
      Called 7%nat (Some false);
      Committed (moveOf B); Committed (moveOf L); Committed (moveOf F) ] /\
  moveHistory (finishAnimations 5 requested) = [moveOf B; moveOf L; moveOf F] /\
  isAnimating (finishAnimations 5 requested) = false.
Proof.
  cbv zeta. repeat split; vm_compute; reflexivity.
Qed.

(** ** The release of a gesture *)

Module GestureFacts.
Import Gesture.

(** The normalisation of the source is the remainder modulo 4. *)
Lemma normalizedTurns_mod (k : Z) : Z.rem (Z.rem k 4 + 4) 4 = k mod 4.
Proof. Z.to_euclidean_division_equations. lia. Qed.

Lemma recordedMoves_mod (a : string) (l k : Z) :
  recordedMoves a l k =
  match k mod 4 with
  | 1 => [mkMove a l 1]
  | 3 => [mkMove a l (-1)]
  | 2 => [mkMove a l 1; mkMove a l 1]
  | _ => []
  end.
Proof.
  unfold recordedMoves. rewrite normalizedTurns_mod.
  assert (B : 0 <= k mod 4 < 4) by (apply Z.mod_pos_bound; lia).
  assert (k mod 4 = 0 \/ k mod 4 = 1 \/ k mod 4 = 2 \/ k mod 4 = 3)
    as [ -> | [ -> | [ -> | -> ] ] ] by lia; reflexivity.
Qed.

(** The snapped angle is a nearest multiple of a quarter turn. *)
Lemma snap_nearest (angle : Q) :
  (Qabs (inject_Z (Math_round (angle / HALF_PI)) * HALF_PI - angle)
   <= HALF_PI / 2)%Q.
Proof.
  unfold Math_round.
  set (x := (angle / HALF_PI)%Q).
  assert (E : (angle == x * HALF_PI)%Q).
  { subst x. field. intros H. discriminate H. }
  assert (L := Qfloor_le (x + (1 # 2))).
  assert (U := Qlt_floor (x + (1 # 2))).
  rewrite inject_Z_plus in U. change (inject_Z 1) with 1%Q in U.
  set (k := inject_Z (Qfloor (x + (1 # 2)))) in *.
  assert (P : (0 <= HALF_PI)%Q) by discriminate.
  setoid_replace (k * HALF_PI - angle)%Q with ((k - x) * HALF_PI)%Q
    by (rewrite E; ring).
  setoid_replace (HALF_PI / 2)%Q with ((1 # 2) * HALF_PI)%Q by field.
  apply Qabs_Qle_condition. split.
  - setoid_replace (- ((1 # 2) * HALF_PI))%Q with ((- (1 # 2)) * HALF_PI)%Q by ring.
    apply Qmult_le_compat_r; [lra|exact P].
  - apply Qmult_le_compat_r; [lra|exact P].
Qed.

Lemma round_of_snap (k : Z) : Math_round (inject_Z k * HALF_PI / HALF_PI) = k.
Proof.
  apply Math_round_int. field. intros H. discriminate H.
Qed.

Lemma finalize_snap (k : Z) (pg : Page) (g : list nat) (a : string) :
  rotationGroup (touchState pg) = Some g ->
  swipeAxis (touchState pg) = Some a ->
  finalizeFaceRotation (inject_Z k * HALF_PI) pg =
  mkPage (commitFace a k g (cubies pg))
         (moveHistory pg ++ recordedMoves a (swipeLayer (touchState pg)) k)
         (mkTouchState None None 0 0) (snapFrames pg).
Proof.
  intros G A. unfold finalizeFaceRotation. rewrite G, A, round_of_snap.
  reflexivity.
Qed.

(** A run of a closure before the end of its 200 ms only writes the angle
    and asks for the next frame; a run at 200 ms or later finalizes. *)
Lemma snapAnimate_early (now : Z) (s : SnapAnimation) (pg : Page) :
  now - s_startTime s < 200 ->
  exists cr,
    snapAnimate now s pg =
    mkPage (cubies pg) (moveHistory pg)
           (mkTouchState (rotationGroup (touchState pg)) (swipeAxis (touchState pg))
                         (swipeLayer (touchState pg)) cr)
           (snapFrames pg ++ [s]).
Proof.
  intros H. unfold snapAnimate. cbv zeta.
  assert (P := progress_early (now - s_startTime s) H).
  unfold duration in P. rewrite P.
  eexists. reflexivity.
Qed.

Lemma snapAnimate_last (now : Z) (s : SnapAnimation) (pg : Page) :
  200 <= now - s_startTime s ->
  exists cr,
    snapAnimate now s pg =
    finalizeFaceRotation (s_snapAngle s)
      (mkPage (cubies pg) (moveHistory pg)
         (mkTouchState (rotationGroup (touchState pg)) (swipeAxis (touchState pg))
                       (swipeLayer (touchState pg)) cr)
         (snapFrames pg)).
Proof.
  intros H. unfold snapAnimate. cbv zeta.
  assert (P := progress_done (now - s_startTime s) H).
  unfold duration in P. rewrite P.
  eexists. reflexivity.
Qed.

(** With no closure waiting, frames change nothing. *)
Lemma animationFrames_rest (times : list Z) (pg : Page) :
  snapFrames pg = [] -> animationFrames times pg = pg.
Proof.
  intros S. unfold animationFrames.
  induction times as [|now times IH]; [reflexivity|].
  cbn [fold_left]. unfold animationFrame at 2. rewrite S. cbn [fold_left].
  destruct pg as [cs h ts sf]. cbn [snapFrames] in S. subst sf. exact IH.
Qed.

(** One closure waiting on a grabbed layer: early frames leave all but the
    angle. *)
Lemma animationFrames_early (s : SnapAnimation) (times : list Z) :
  Forall (fun now => now - s_startTime s < 200) times ->
  forall (cs : list Cubie) (h : list Move) (g : option (list nat))
         (a : option string) (l : Z) (cr : Q),
  exists cr',
    animationFrames times (mkPage cs h (mkTouchState g a l cr) [s])
    = mkPage cs h (mkTouchState g a l cr') [s].
Proof.
  unfold animationFrames.
  induction 1 as [|now times E _ IH]; intros cs h g a l cr.
  - exists cr. reflexivity.
  - cbn [fold_left]. unfold animationFrame at 2.
    cbn [snapFrames cubies moveHistory touchState fold_left].
    destruct (snapAnimate_early now s
                (mkPage cs h (mkTouchState g a l cr) []) E) as [cr1 E1].
    rewrite E1.
    cbn [snapFrames cubies moveHistory touchState rotationGroup swipeAxis
         swipeLayer app].
    apply IH.
Qed.

(** A grabbed layer released, with no other closure waiting and nothing
    done to the page before the frame that ends the animation. *)
Lemma release_result (t : Z) (early : list Z) (final : Z) (pg : Page)
    (g : list nat) (a : string) :
  rotationGroup (touchState pg) = Some g ->
  swipeAxis (touchState pg) = Some a ->
  snapFrames pg = [] ->
  Forall (fun now => now - t < 200) early -> 200 <= final - t ->
  let k := Math_round (currentRotation (touchState pg) / HALF_PI) in
  animationFrame final (animationFrames early (completeFaceRotation t pg)) =
  mkPage (commitFace a k g (cubies pg))
         (moveHistory pg ++ recordedMoves a (swipeLayer (touchState pg)) k)
         (mkTouchState None None 0 0) [].
Proof.
  intros G A S E F. cbv zeta. unfold completeFaceRotation.
  rewrite G, A. cbv zeta.
  destruct (Qltb _ (1 # 100)).
  - rewrite (finalize_snap _ pg g a G A), S.
    rewrite animationFrames_rest by reflexivity. reflexivity.
  - match goal with
    | |- context [snapAnimate t ?s pg] =>
        assert (E0 : t - s_startTime s < 200)
          by (cbn [s_startTime]; lia);
        destruct (snapAnimate_early t s pg E0) as [cr E1]; rewrite E1;
        destruct (animationFrames_early s early E (cubies pg) (moveHistory pg)
                    (rotationGroup (touchState pg)) (swipeAxis (touchState pg))
                    (swipeLayer (touchState pg)) cr) as [cr' E2];
        rewrite S; cbn [app]; rewrite E2;
        unfold animationFrame;
        cbn [snapFrames cubies moveHistory touchState fold_left];
        match goal with
        | |- snapAnimate final s ?p = _ =>
            destruct (snapAnimate_last final s p F) as [cr'' E3]; rewrite E3
        end
    end.
    cbn [s_snapAngle cubies moveHistory touchState rotationGroup swipeAxis
         swipeLayer snapFrames].
    rewrite (finalize_snap _ _ g a); [reflexivity|exact G|exact A].
Qed.

End GestureFacts.

(** C5 at a failing input.  The layer (y, 1) of the solved cube is dragged
    to 50 degrees and released at time 0: the nearest quarter turn is one
    turn, and an animation of 200 ms towards it starts.  Left alone, it ends
    with that layer turned and the move (y, 1, +1) recorded, as it does for
    the other angles of the claim.  But [touchend], after
    [completeFaceRotation()], goes on with [startFaceRotation] when a touch
    that remains is on another layer, here (x, 1): the closure of the
    animation reads [touchState] when it runs, so its last frame finalizes
    the layer grabbed since.  The layer (x, 1), dragged by nothing, is
    turned and (x, 1, +1) is recorded; the layer (y, 1) is not turned and
    no move is recorded for it. *)
Theorem snap_finalizes_layer_grabbed_since :
  let alone n :=
    Gesture.animationFrames [16; 116; 200]
      (Gesture.completeFaceRotation 0
         (Gesture.dragged "y" 1 (Gesture.degrees n))) in
  let released :=
    Gesture.completeFaceRotation 0 (Gesture.dragged "y" 1 (Gesture.degrees 50)) in
  let grabbed := Gesture.startFaceRotation "x" 1 0 released in
  let ended := Gesture.animationFrames [16; 116; 200] grabbed in
  Gesture.moveHistory (alone 40) = [] /\
  Gesture.moveHistory (alone 50) = [mkMove "y" 1 1] /\
  Gesture.cubies (alone 50) = turnLayer (mkMove "y" 1 1) solvedCubies /\
  Gesture.moveHistory (alone 185) = [mkMove "y" 1 1; mkMove "y" 1 1] /\
  Gesture.moveHistory (alone (-100)) = [mkMove "y" 1 (-1)] /\
  List.length (Gesture.snapFrames released) = 1%nat /\
  Gesture.cubies grabbed = solvedCubies /\
  Gesture.moveHistory ended = [mkMove "x" 1 1] /\
  Gesture.cubies ended = turnLayer (mkMove "x" 1 1) solvedCubies /\
  Gesture.cubies ended <> turnLayer (mkMove "y" 1 1) solvedCubies /\
  Gesture.rotationGroup (Gesture.touchState ended) = None /\
  Gesture.snapFrames ended = [].
Proof.
  cbv beta zeta.
  assert (A : forall n,
    Gesture.animationFrames [16; 116; 200]
      (Gesture.completeFaceRotation 0
         (Gesture.dragged "y" 1 (Gesture.degrees n))) =
    Gesture.mkPage
      (turnLayer (mkMove "y" 1
                    (Math_round ((0 + Gesture.degrees n) / Gesture.HALF_PI)))
                 solvedCubies)
      (Gesture.recordedMoves "y" 1
         (Math_round ((0 + Gesture.degrees n) / Gesture.HALF_PI)))
      (Gesture.mkTouchState None None 0 0) []).
  { intros n.
    change (Gesture.animationFrames [16; 116; 200] ?p)
      with (Gesture.animationFrame 200 (Gesture.animationFrames [16; 116] p)).
    rewrite (GestureFacts.release_result 0 [16; 116] 200 _
               (getCubiesOnFace "y" 1 solvedCubies) "y"%string);
      [reflexivity|reflexivity|reflexivity|reflexivity| |lia].
    repeat constructor. }
  rewrite !A.
  cbn [Gesture.moveHistory Gesture.cubies].
  assert (E : Gesture.animationFrames [16; 116; 200]
                (Gesture.startFaceRotation "x" 1 0
                   (Gesture.completeFaceRotation 0
                      (Gesture.dragged "y" 1 (Gesture.degrees 50))))
              = Gesture.mkPage (turnLayer (mkMove "x" 1 1) solvedCubies)
                  [mkMove "x" 1 1] (Gesture.mkTouchState None None 0 0) [])
    by (vm_compute; reflexivity).
  rewrite E. cbn [Gesture.moveHistory Gesture.cubies Gesture.touchState
                  Gesture.rotationGroup Gesture.snapFrames].
  repeat split; try (vm_compute; reflexivity).
  intros H. apply (f_equal (map gridOf)) in H. vm_compute in H. discriminate H.
Qed.

(** * Further properties of the engine *)

(** ** The algebra of layer turns *)

Lemma quarter_add (d1 d2 : Z) :
  cosq (d1 + d2) = cosq d1 * cosq d2 - sinq d1 * sinq d2 /\
  sinq (d1 + d2) = sinq d1 * cosq d2 + cosq d1 * sinq d2.
Proof.
  unfold cosq, sinq. rewrite (Z.add_mod d1 d2 4) by lia.
  destruct (quarter_mod_cases d1) as [[-> _]|[[-> _]|[[-> _]|[-> _]]]];
    destruct (quarter_mod_cases d2) as [[-> _]|[[-> _]|[[-> _]|[-> _]]]];
    split; reflexivity.
Qed.

Lemma turnZ3_add (a : string) (d1 d2 : Z) (g : Z3) :
  turnZ3 a d2 (turnZ3 a d1 g) = turnZ3 a (d1 + d2) g.
Proof.
  destruct g as [x y z]. unfold turnZ3.
  destruct (quarter_add d1 d2) as [-> ->].
  on_axes a; cbn [zx zy zz]; try reflexivity; f_equal; ring.
Qed.

Lemma turnZ3_zero (a : string) (g : Z3) : turnZ3 a 0 g = g.
Proof.
  destruct g as [x y z]. unfold turnZ3.
  change (cosq 0) with 1. change (sinq 0) with 0.
  on_axes a; cbn [zx zy zz]; try reflexivity; f_equal; ring.
Qed.

Lemma quarter_mod (d d' : Z) :
  d mod 4 = d' mod 4 -> cosq d = cosq d' /\ sinq d = sinq d'.
Proof. unfold cosq, sinq. now intros ->. Qed.

Lemma commitCubie_mod (a : string) (d d' : Z) (c : Cubie) :
  d mod 4 = d' mod 4 -> commitCubie a d c = commitCubie a d' c.
Proof.
  intros H. destruct (quarter_mod d d' H) as [C S].
  unfold commitCubie, applyRotation, premultiply, turnZ3.
  now rewrite C, S.
Qed.

Lemma commitCubie_add (a : string) (d1 d2 : Z) (c : Cubie) :
  onGrid c -> commitCubie a d2 (commitCubie a d1 c) = commitCubie a (d1 + d2) c.
Proof.
  intros H.
  assert (P : position (commitCubie a d2 (commitCubie a d1 c))
              = position (commitCubie a (d1 + d2) c)).
  { rewrite (commitCubie_position a d2 _ (turnZ3 a d1 (gridOf c)))
      by (apply commitCubie_position; exact H).
    rewrite (commitCubie_position a (d1 + d2) c (gridOf c)) by exact H.
    now rewrite turnZ3_add. }
  destruct c as [p q m lp].
  unfold commitCubie in *. cbn [position quaternion materials logicalPos] in *.
  rewrite P. f_equal.
  destruct q as [qx qy qz]. unfold premultiply. cbn [image_x image_y image_z].
  now rewrite !turnZ3_add.
Qed.

Lemma commitCubie_zero (a : string) (c : Cubie) :
  onGrid c -> commitCubie a 0 c = c.
Proof.
  intros H.
  assert (P : position (commitCubie a 0 c) = position c).
  { rewrite (commitCubie_position a 0 c (gridOf c)) by exact H.
    rewrite turnZ3_zero. symmetry. exact H. }
  destruct c as [p q m lp].
  unfold commitCubie in *. cbn [position quaternion materials logicalPos] in *.
  rewrite P. f_equal.
  destruct q as [qx qy qz]. unfold premultiply. cbn [image_x image_y image_z].
  now rewrite !turnZ3_zero.
Qed.

(** Two turns of one layer are one turn by the sum of the directions. *)
Lemma turnLayer_add (a : string) (l d1 d2 : Z) (cs : list Cubie) :
  Forall onGrid cs ->
  turnLayer (mkMove a l d2) (turnLayer (mkMove a l d1) cs)
  = turnLayer (mkMove a l (d1 + d2)) cs.
Proof.
  intros H. rewrite !turnLayer_map, map_map.
  cbn [axis layer direction]. apply map_ext_in. intros c Hc.
  rewrite Forall_forall in H. specialize (H c Hc).
  destruct (onFace a l c) eqn:E.
  - rewrite (onFace_commitCubie a l d1 c H E). now apply commitCubie_add.
  - now rewrite E.
Qed.

Lemma turnLayer_mod (a : string) (l d d' : Z) (cs : list Cubie) :
  d mod 4 = d' mod 4 ->
  turnLayer (mkMove a l d) cs = turnLayer (mkMove a l d') cs.
Proof.
  intros H. rewrite !turnLayer_map. cbn [axis layer direction].
  apply map_ext. intros c. now rewrite (commitCubie_mod a d d' c H).
Qed.

Lemma turnLayer_zero (a : string) (l : Z) (cs : list Cubie) :
  Forall onGrid cs -> turnLayer (mkMove a l 0) cs = cs.
Proof.
  intros H. rewrite turnLayer_map. cbn [axis layer direction].
  rewrite <- (map_id cs) at 2. apply map_ext_in. intros c Hc.
  rewrite Forall_forall in H.
  destruct (onFace a l c); [apply commitCubie_zero, H, Hc|reflexivity].
Qed.

(** Turns about one axis commute, whatever their layers. *)
Lemma turnLayer_commute (a : string) (l1 l2 d1 d2 : Z) (cs : list Cubie) :
  Forall onGrid cs ->
  turnLayer (mkMove a l1 d1) (turnLayer (mkMove a l2 d2) cs)
  = turnLayer (mkMove a l2 d2) (turnLayer (mkMove a l1 d1) cs).
Proof.
  intros H. destruct (Z.eq_dec l1 l2) as [->|N].
  - rewrite !turnLayer_add by exact H. now rewrite Z.add_comm.
  - rewrite !turnLayer_map, !map_map. cbn [axis layer direction].
    apply map_ext_in. intros c Hc.
    rewrite Forall_forall in H. specialize (H c Hc).
    assert (K : forall l d, onFace a l (commitCubie a d c) = onFace a l c).
    { intros l d. rewrite !onFace_grid by auto using commitCubie_onGrid.
      now rewrite commitCubie_gridOf, turnZ3_coordinate. }
    destruct (onFace a l1 c) eqn:E1, (onFace a l2 c) eqn:E2;
      rewrite ?K, ?E1, ?E2; try reflexivity.
    exfalso. rewrite onFace_grid in E1, E2 by exact H.
    apply andb_true_iff in E1, E2. destruct E1 as (_ & E1), E2 as (_ & E2).
    apply Z.eqb_eq in E1, E2. congruence.
Qed.

Lemma reachable_idle (st : RubiksCube) :
  reachable st -> isAnimating st = false ->
  st = idle (cubies st) (moveHistory st) (trace st) /\ Forall onGrid (cubies st).
Proof.
  intros R I. assert (C := reachable_consistent st R).
  split; [now apply consistent_idle|apply C].
Qed.

Lemma playMoves_cubies_idle (t : Z) (r : bool) (ms : list Move) :
  forall (cs : list Cubie) (h : list Move) (tr : list Observation),
  cubies (playMoves t r ms (idle cs h tr)) = turnLayers ms cs.
Proof.
  unfold playMoves, turnLayers.
  induction ms as [|m ms IH]; intros cs h tr; [reflexivity|].
  cbn [fold_left]. rewrite playMove_idle. apply IH.
Qed.

(** The grid after moves played from a reachable state at rest. *)
Lemma playMoves_cubies (st : RubiksCube) (t : Z) (r : bool) (ms : list Move) :
  reachable st -> isAnimating st = false ->
  cubies (playMoves t r ms st) = turnLayers ms (cubies st).
Proof.
  intros R I. destruct (reachable_idle st R I) as (E & _).
  rewrite E at 1. apply playMoves_cubies_idle.
Qed.

Lemma playMove_cubies (st : RubiksCube) (t : Z) (r : bool) (m : Move) :
  reachable st -> isAnimating st = false ->
  cubies (playMove t r m st) = turnLayer m (cubies st).
Proof.
  intros R I. exact (playMoves_cubies st t r [m] R I).
Qed.

(** X1.  Quarter turns of one layer cycle: from a reachable state at rest
    and for a direction 1 or -1, a move played four times restores every
    cubie, played three times it leaves the cubies as the move in the other
    direction does, and played twice as two moves in the other direction
    do (the half turn). *)
Theorem quarter_turns_cycle (st : RubiksCube) :
  reachable st -> isAnimating st = false ->
  forall (t : Z) (r : bool) (a : string) (l d : Z),
  d = 1 \/ d = -1 ->
  cubies (playMoves t r [mkMove a l d; mkMove a l d;
                         mkMove a l d; mkMove a l d] st) = cubies st /\
  cubies (playMoves t r [mkMove a l d; mkMove a l d; mkMove a l d] st)
  = cubies (playMove t r (mkMove a l (- d)) st) /\
  cubies (playMoves t r [mkMove a l d; mkMove a l d] st)
  = cubies (playMoves t r [mkMove a l (- d); mkMove a l (- d)] st).
Proof.
  intros R I t r a l d D. destruct (reachable_idle st R I) as (_ & G).
  rewrite !playMoves_cubies, playMove_cubies by assumption.
  cbn [turnLayers fold_left].
  assert (G1 : Forall onGrid (turnLayer (mkMove a l d) (cubies st)))
    by now apply turnLayer_onGrid.
  assert (G2 : Forall onGrid
                 (turnLayer (mkMove a l d) (turnLayer (mkMove a l d) (cubies st))))
    by now apply turnLayer_onGrid.
  split; [|split].
  - rewrite (turnLayer_add a l d d _ G2), (turnLayer_add a l d (d + d) _ G1),
            (turnLayer_add a l d (d + (d + d)) _ G).
    rewrite (turnLayer_mod a l (d + (d + (d + d))) 0)
      by (destruct D as [ -> | -> ]; reflexivity).
    now apply turnLayer_zero.
  - rewrite (turnLayer_add a l d d _ G1), (turnLayer_add a l d (d + d) _ G).
    apply turnLayer_mod. destruct D as [ -> | -> ]; reflexivity.
  - rewrite !turnLayer_add by exact G.
    apply turnLayer_mod. destruct D as [ -> | -> ]; reflexivity.
Qed.

Lemma quarter_turns_cycle_witness :
  reachable initialCube /\ isAnimating initialCube = false /\
  (-1 = 1 \/ -1 = -1) /\
  cubies (playMoves 0 true [mkMove "x" 1 (-1); mkMove "x" 1 (-1);
                            mkMove "x" 1 (-1); mkMove "x" 1 (-1)] initialCube)
  = cubies initialCube.
Proof.
  split; [apply reachable_initial|]. split; [reflexivity|].
  split; [right; reflexivity|].
  exact (proj1 (quarter_turns_cycle initialCube reachable_initial
                  eq_refl 0 true "x"%string 1 (-1) (or_intror eq_refl))).
Defined.

(** X2.  Moves about one axis commute: from a reachable state at rest, two
    moves with the same axis, on the same or on different layers, leave the
    same cubies in either order (R and L', U and D, ...). *)
Theorem parallel_moves_commute (st : RubiksCube) :
  reachable st -> isAnimating st = false ->
  forall (t : Z) (r : bool) (a : string) (l1 l2 d1 d2 : Z),
  cubies (playMoves t r [mkMove a l1 d1; mkMove a l2 d2] st)
  = cubies (playMoves t r [mkMove a l2 d2; mkMove a l1 d1] st).
Proof.
  intros R I t r a l1 l2 d1 d2. destruct (reachable_idle st R I) as (_ & G).
  rewrite !playMoves_cubies by assumption. cbn [turnLayers fold_left].
  symmetry. now apply turnLayer_commute.
Qed.

Lemma parallel_moves_commute_witness :
  reachable initialCube /\ isAnimating initialCube = false /\
  cubies (playMoves 0 true [mkMove "x" 1 (-1); mkMove "x" (-1) 1] initialCube)
  = cubies (playMoves 0 true [mkMove "x" (-1) 1; mkMove "x" 1 (-1)] initialCube).
Proof.
  split; [apply reachable_initial|]. split; [reflexivity|].
  exact (parallel_moves_commute initialCube reachable_initial eq_refl
           0 true "x"%string 1 (-1) (-1) 1).
Defined.

(** ** What a run can do to the grid *)

Lemma commitAnimation_cubies (now : Z) (a : Animation) (st : RubiksCube) :
  framed st -> pendingFrame st = Some a ->
  cubies (commitAnimation now a st) = turnLayer (moveOf (a_request a)) (cubies st).
Proof.
  intros F E. unfold framed in F. rewrite E in F. destruct F as (_ & Fc).
  destruct a as [[a l d r cb] fc t0].
  cbn [a_request a_faceCubies r_axis r_layer] in Fc. subst fc.
  destruct st as [cs h ia q pf tr]. cbn [cubies] in *.
  unfold commitAnimation, moveOf.
  cbn [a_request a_faceCubies r_axis r_layer r_direction r_record r_callback].
  fold (turnLayer (mkMove a l d) cs).
  set (st1 := set_isAnimating false _).
  assert (C1 : cubies st1 = turnLayer (mkMove a l d) cs)
    by (subst st1; destruct r; reflexivity).
  assert (F1 : framed st1) by (subst st1; destruct r; reflexivity).
  assert (Ch : chained (runCallback now cb)) by auto with engine.
  destruct (chained_facts _ st1 Ch F1) as (Ec & _ & _).
  set (st2 := runCallback now cb st1) in *.
  destruct (animationQueue st2) as [|next rest].
  - now rewrite Ec.
  - rewrite rotateFace_cubies. destruct st2; cbn in *. now rewrite Ec.
Qed.

(** One step leaves the grid, resets it, or turns one layer. *)
Lemma step_cubies (now : Z) (e : Event) (st : RubiksCube) :
  consistent st ->
  cubies (step now e st) = cubies st \/
  cubies (step now e st) = solvedCubies \/
  exists m, cubies (step now e st) = turnLayer m (cubies st).
Proof.
  intros (_ & F & _).
  destruct e as [a l d r cb|name r cb|random oc|oc| |a l d|]; cbn [step].
  - left. apply rotateFace_cubies.
  - left. unfold executeMove. destruct (lookupMove MOVES name); [|reflexivity].
    apply rotateFace_cubies.
  - left. unfold scramble. destruct (busy st); [reflexivity|].
    apply chained_facts; auto with engine.
  - left. unfold solve. destruct (busy st); [reflexivity|].
    destruct (Nat.eqb _ 0).
    + apply chained_facts; auto with engine.
    + assert (F' : framed (set_moveHistory [] st)) by (destruct st; exact F).
      destruct (chained_facts _ _ (chained_solveDoNextMove now
                  (rev (moveHistory st)) 0 oc) F') as (Ec & _).
      rewrite Ec. destruct st; reflexivity.
  - unfold reset. destruct (busy st); [left; reflexivity|].
    right. left. destruct st; reflexivity.
  - left. destruct st; reflexivity.
  - unfold animate. destruct (pendingFrame st) as [a|] eqn:E; [|left; reflexivity].
    cbv zeta. destruct (Qltb _ 1); [left; reflexivity|].
    right. right. exists (moveOf (a_request a)).
    now apply commitAnimation_cubies.
Qed.

Lemma grid_generated (st : RubiksCube) :
  reachable st -> exists ms, cubies st = turnLayers ms solvedCubies.
Proof.
  induction 1 as [|now e st R [ms IH]].
  - exists []. reflexivity.
  - destruct (step_cubies now e st (reachable_consistent st R))
      as [E|[E|[m E]]].
    + exists ms. now rewrite E.
    + exists []. exact E.
    + exists (ms ++ [m]). rewrite E, IH, turnLayers_app. reflexivity.
Qed.

(** X3.  Whatever is called and whenever the frames arrive, the grid of the
    engine is the solved grid turned by some sequence of layer turns:
    nothing else ever moves a cubie. *)
Theorem reachable_grid_generated (st : RubiksCube) :
  reachable st -> exists ms, cubies st = turnLayers ms solvedCubies.
Proof. exact (grid_generated st). Qed.

Lemma reachable_grid_generated_witness :
  reachable (playMove 0 true (mkMove "y" 1 (-1)) initialCube) /\
  exists ms, cubies (playMove 0 true (mkMove "y" 1 (-1)) initialCube)
             = turnLayers ms solvedCubies.
Proof.
  assert (R : reachable (playMove 0 true (mkMove "y" 1 (-1)) initialCube))
    by apply playMove_reachable, reachable_initial.
  split; [exact R|]. exact (reachable_grid_generated _ R).
Defined.

(** Induction on the layer turns that made a grid. *)
Lemma generated_grid_ind (P : list Cubie -> Prop) :
  P solvedCubies ->
  (forall m cs, Forall onGrid cs -> P cs -> P (turnLayer m cs)) ->
  forall ms, P (turnLayers ms solvedCubies).
Proof.
  intros H0 HS ms. induction ms as [|m ms IH] using rev_ind; [exact H0|].
  rewrite turnLayers_app. cbn [turnLayers fold_left].
  apply HS; [|exact IH]. apply turnLayers_onGrid, solvedCubies_onGrid.
Qed.

(** ** What a layer turn keeps of a cubie *)

Lemma turnLayer_fields (m : Move) (cs : list Cubie) :
  map logicalPos (turnLayer m cs) = map logicalPos cs /\
  map materials (turnLayer m cs) = map materials cs.
Proof.
  rewrite turnLayer_map, !map_map.
  split; apply map_ext; intros c; destruct (onFace _ _ c); reflexivity.
Qed.

Lemma generated_fields (ms : list Move) :
  map logicalPos (turnLayers ms solvedCubies) = map logicalPos solvedCubies /\
  map materials (turnLayers ms solvedCubies) = map materials solvedCubies.
Proof.
  apply (generated_grid_ind (fun cs =>
    map logicalPos cs = map logicalPos solvedCubies /\
    map materials cs = map materials solvedCubies)); [split; reflexivity|].
  intros m cs _ (L & M). destruct (turnLayer_fields m cs) as (-> & ->).
  now split.
Qed.

(** X4.  In every reachable state there are 27 cubies, in the order of
    their creation, each with the home position and the face colours that
    [createCubie] gave it: turns move a cubie, they never repaint it. *)
Theorem cubies_keep_identity (st : RubiksCube) :
  reachable st ->
  List.length (cubies st) = 27%nat /\
  map logicalPos (cubies st) = map logicalPos solvedCubies /\
  map materials (cubies st) = map materials solvedCubies.
Proof.
  intros R. destruct (grid_generated st R) as [ms ->].
  assert (K := generated_fields ms).
  split; [|exact K].
  rewrite <- (length_map logicalPos), (proj1 K). reflexivity.
Qed.

Lemma cubies_keep_identity_witness :
  reachable (playMove 0 true (mkMove "y" 1 (-1)) initialCube) /\
  List.length (cubies (playMove 0 true (mkMove "y" 1 (-1)) initialCube)) = 27%nat.
Proof.
  assert (R : reachable (playMove 0 true (mkMove "y" 1 (-1)) initialCube))
    by apply playMove_reachable, reachable_initial.
  split; [exact R|]. exact (proj1 (cubies_keep_identity _ R)).
Defined.

(** ** Orientations *)

Lemma turnZ3_dot (a : string) (d : Z) (u v : Z3) :
  dotZ3 (turnZ3 a d u) (turnZ3 a d v) = dotZ3 u v.
Proof.
  destruct u as [x y z], v as [x' y' z']. unfold turnZ3, dotZ3.
  on_axes a; try reflexivity; on_quarters d; cbn [zx zy zz]; ring.
Qed.

Lemma turnZ3_cross (a : string) (d : Z) (u v : Z3) :
  crossZ3 (turnZ3 a d u) (turnZ3 a d v) = turnZ3 a d (crossZ3 u v).
Proof.
  destruct u as [x y z], v as [x' y' z']. unfold turnZ3, crossZ3.
  on_axes a; try reflexivity; on_quarters d; cbn [zx zy zz]; f_equal; ring.
Qed.

Lemma premultiply_properRotation (a : string) (d : Z) (q : Quaternion) :
  properRotation (premultiply a d q) = properRotation q.
Proof.
  destruct q as [qx qy qz]. unfold properRotation, premultiply.
  cbn [image_x image_y image_z].
  now rewrite turnZ3_cross, !turnZ3_dot.
Qed.

Lemma turnZ3_linear (a : string) (d : Z) (q : Quaternion) (v : Z3) :
  turnZ3 a d (applyQuaternion q v) = applyQuaternion (premultiply a d q) v.
Proof.
  destruct q as [[x1 y1 z1] [x2 y2 z2] [x3 y3 z3]], v as [x y z].
  unfold applyQuaternion, premultiply, turnZ3. cbn [image_x image_y image_z zx zy zz].
  on_axes a; cbn [zx zy zz]; try reflexivity; f_equal; ring.
Qed.

Lemma unit_of_norm (v : Z3) : dotZ3 v v = 1 -> unitZ3 v.
Proof.
  destruct v as [x y z]. unfold dotZ3, unitZ3. cbn [zx zy zz In]. intros H.
  assert (-1 <= x <= 1 /\ -1 <= y <= 1 /\ -1 <= z <= 1) as (X & Y & Z') by nia.
  assert (x = -1 \/ x = 0 \/ x = 1) as [ -> | [ -> | -> ] ] by lia;
  assert (y = -1 \/ y = 0 \/ y = 1) as [ -> | [ -> | -> ] ] by lia;
  assert (z = -1 \/ z = 0 \/ z = 1) as [ -> | [ -> | -> ] ] by lia;
  try discriminate H; tauto.
Qed.

Lemma generated_orientation (ms : list Move) :
  Forall (fun c =>
            properRotation (quaternion c) = true /\
            gridOf c = applyQuaternion (quaternion c) (logicalPos c))
         (turnLayers ms solvedCubies).
Proof.
  apply (generated_grid_ind (fun cs => Forall (fun c =>
      properRotation (quaternion c) = true /\
      gridOf c = applyQuaternion (quaternion c) (logicalPos c)) cs)).
  - unfold solvedCubies. cbn [flat_map map app].
    repeat constructor; now apply gridOf_gridPoint.
  - intros m cs G H. rewrite turnLayer_map. apply Forall_map.
    rewrite Forall_forall in *. intros c Hc. destruct (H c Hc) as (P & Q).
    destruct (onFace _ _ c); [|now split].
    split.
    + cbn [commitCubie quaternion]. now rewrite premultiply_properRotation.
    + rewrite commitCubie_gridOf by exact (G c Hc). rewrite Q.
      apply turnZ3_linear.
Qed.

(** X5.  In every reachable state the orientation of each cubie is a
    rotation of the cube: the images of the three unit vectors are signed
    unit vectors, orthogonal to each other and right-handed; and the cubie
    sits at the grid point to which this rotation carries its home
    position. *)
Theorem orientation_invariant (st : RubiksCube) :
  reachable st ->
  Forall (fun c =>
            properRotation (quaternion c) = true /\
            unitZ3 (image_x (quaternion c)) /\
            unitZ3 (image_y (quaternion c)) /\
            unitZ3 (image_z (quaternion c)) /\
            position c = gridPoint (applyQuaternion (quaternion c) (logicalPos c)))
         (cubies st).
Proof.
  intros R. destruct (grid_generated st R) as [ms ->].
  assert (K := generated_orientation ms).
  assert (G := turnLayers_onGrid ms solvedCubies solvedCubies_onGrid).
  rewrite Forall_forall in *. intros c Hc. destruct (K c Hc) as (P & Q).
  split; [exact P|].
  unfold properRotation in P. rewrite !andb_true_iff, !Z.eqb_eq in P.
  destruct P as ((((((X & Y) & Z') & _) & _) & _) & _).
  repeat split; try now apply unit_of_norm.
  rewrite <- Q. exact (G c Hc).
Qed.

Lemma orientation_invariant_witness :
  reachable (playMove 0 true (mkMove "y" 1 (-1)) initialCube) /\
  Forall (fun c => properRotation (quaternion c) = true)
         (cubies (playMove 0 true (mkMove "y" 1 (-1)) initialCube)).
Proof.
  assert (R : reachable (playMove 0 true (mkMove "y" 1 (-1)) initialCube))
    by apply playMove_reachable, reachable_initial.
  split; [exact R|].
  eapply Forall_impl; [|exact (orientation_invariant _ R)].
  intros c H. exact (proj1 H).
Defined.

(** ** The solved cube *)

Lemma applyQuaternion_identity (v : Z3) : applyQuaternion identityQuaternion v = v.
Proof.
  destruct v as [x y z]. unfold applyQuaternion, identityQuaternion.
  cbn [image_x image_y image_z zx zy zz]. f_equal; ring.
Qed.

Lemma rebuild_cubies (cs : list Cubie) :
  Forall (fun c => quaternion c = identityQuaternion /\
                   position c = gridPoint (logicalPos c)) cs ->
  cs = map rebuild (combine (map logicalPos cs) (map materials cs)).
Proof.
  induction 1 as [|c cs (Q & P) _ IH]; [reflexivity|].
  cbn [map combine]. rewrite <- IH. f_equal.
  destruct c as [p q m lp]. unfold rebuild. cbn in *. now subst.
Qed.

(** X6.  A reachable cube in which every cubie has its initial orientation
    is the solved cube: every cubie is then at its home position too. *)
Theorem upright_cube_is_solved (st : RubiksCube) :
  reachable st ->
  Forall (fun c => quaternion c = identityQuaternion) (cubies st) ->
  cubies st = solvedCubies.
Proof.
  intros R U. destruct (grid_generated st R) as [ms E]. rewrite E in *.
  destruct (generated_fields ms) as (L & M).
  assert (K := generated_orientation ms).
  assert (G := turnLayers_onGrid ms solvedCubies solvedCubies_onGrid).
  rewrite (rebuild_cubies (turnLayers ms solvedCubies)).
  - rewrite L, M. reflexivity.
  - rewrite Forall_forall in *. intros c Hc.
    split; [exact (U c Hc)|].
    destruct (K c Hc) as (_ & Q). rewrite (U c Hc), applyQuaternion_identity in Q.
    rewrite <- Q. exact (G c Hc).
Qed.

Lemma upright_cube_is_solved_witness :
  let st := playMoves 0 true [mkMove "z" 1 1; mkMove "z" 1 (-1)] initialCube in
  reachable st /\
  Forall (fun c => quaternion c = identityQuaternion) (cubies st) /\
  cubies st = solvedCubies.
Proof.
  cbv zeta.
  assert (R : reachable (playMoves 0 true [mkMove "z" 1 1; mkMove "z" 1 (-1)]
                           initialCube))
    by (unfold playMoves; cbn [fold_left];
        do 2 apply playMove_reachable; apply reachable_initial).
  assert (U : Forall (fun c => quaternion c = identityQuaternion)
                (cubies (playMoves 0 true [mkMove "z" 1 1; mkMove "z" 1 (-1)]
                           initialCube)))
    by (vm_compute; repeat constructor).
  split; [exact R|]. split; [exact U|].
  exact (upright_cube_is_solved _ R U).
Defined.

(** ** The engine between two frames *)

(** X7.  In every reachable state the engine is either at rest, and then
    nothing waits in the queue and no frame is pending, or animating, and
    then exactly one animation frame is pending, for a request whose cubies
    are those of its layer in the present grid.  No request is ever left
    waiting with nothing to start it. *)
Theorem engine_rest_or_animating (st : RubiksCube) :
  reachable st ->
  (isAnimating st = false ->
     animationQueue st = [] /\ pendingFrame st = None /\ busy st = false) /\
  (isAnimating st = true ->
     exists a, pendingFrame st = Some a /\
       a_faceCubies a =
         getCubiesOnFace (r_axis (a_request a)) (r_layer (a_request a))
                         (cubies st)).
Proof.
  intros R. destruct (reachable_consistent st R) as (_ & F & Q).
  unfold framed in F. destruct (pendingFrame st) as [a|] eqn:E.
  - destruct F as (I & Fc). split; [congruence|].
    intros _. exists a. now split.
  - split; [|congruence]. intros I.
    specialize (Q eq_refl). unfold busy. rewrite I, Q. auto.
Qed.

Lemma engine_rest_or_animating_witness :
  let st := executeMove 20 "U" true None
              (executeMove 0 "R" true None initialCube) in
  reachable st /\ isAnimating st = true /\
  exists a, pendingFrame st = Some a.
Proof.
  cbv zeta.
  assert (R : reachable (executeMove 20 "U" true None
                           (executeMove 0 "R" true None initialCube))).
  { apply (reachable_step 20 (CallExecuteMove "U" true None)).
    apply (reachable_step 0 (CallExecuteMove "R" true None)).
    apply reachable_initial. }
  split; [exact R|]. split; [reflexivity|].
  destruct (proj2 (engine_rest_or_animating _ R) eq_refl) as (a & P & _).
  exists a. exact P.
Defined.

(** ** The faces of the grid *)

Lemma reachable_cubie_inGrid (st : RubiksCube) (c : Cubie) :
  reachable st -> In c (cubies st) ->
  onGrid c /\ In (gridOf c) gridCoordinates.
Proof.
  intros R I. destruct (reachable_consistent st R) as ((P & G) & _).
  rewrite Forall_forall in G. split; [now apply G|].
  eapply Permutation_in; [exact P|]. now apply in_map.
Qed.

(** X8.  The layers of one axis split the cubies of a reachable state: a
    cubie is returned by [getCubiesOnFace(axis, layer)] for exactly one
    layer, which is -1, 0 or 1; for any other layer, and for an axis other
    than x, y, z, the result is empty. *)
Theorem faces_partition_grid (st : RubiksCube) :
  reachable st ->
  (forall (a : string) (l : Z),
     knownAxis a = false -> getCubiesOnFace a l (cubies st) = []) /\
  (forall (a : string) (l : Z),
     l < -1 \/ 1 < l -> getCubiesOnFace a l (cubies st) = []) /\
  (forall (a : string) (i : nat) (c : Cubie),
     knownAxis a = true -> nth_error (cubies st) i = Some c ->
     -1 <= coordinateZ3 a (gridOf c) <= 1 /\
     forall l, In i (getCubiesOnFace a l (cubies st))
               <-> l = coordinateZ3 a (gridOf c)).
Proof.
  intros R.
  assert (E : forall a l, (forall c, In c (cubies st) -> onFace a l c = false) ->
                          getCubiesOnFace a l (cubies st) = []).
  { intros a l H.
    destruct (getCubiesOnFace a l (cubies st)) as [|i rest] eqn:F; [reflexivity|].
    assert (I : In i (getCubiesOnFace a l (cubies st))) by (rewrite F; now left).
    apply getCubiesOnFace_In in I. destruct I as (c & N & O).
    rewrite (H c (nth_error_In _ _ N)) in O. discriminate. }
  assert (B : forall a c, In c (cubies st) -> -1 <= coordinateZ3 a (gridOf c) <= 1).
  { intros a c I. destruct (reachable_cubie_inGrid st c R I) as (_ & G).
    apply gridCoordinates_inGrid, inGrid_iff in G.
    unfold coordinateZ3. destruct (a =? "x")%string; [lia|].
    destruct (a =? "y")%string; lia. }
  split; [|split].
  - intros a l K. apply E. intros c I.
    rewrite onFace_grid by apply (reachable_cubie_inGrid st c R I).
    now rewrite K.
  - intros a l L. apply E. intros c I.
    rewrite onFace_grid by apply (reachable_cubie_inGrid st c R I).
    apply andb_false_iff. right. apply Z.eqb_neq.
    specialize (B a c I). lia.
  - intros a i c K N. assert (I := nth_error_In _ _ N).
    split; [now apply B|]. intros l. rewrite getCubiesOnFace_In. split.
    + intros (c' & N' & O). assert (c' = c) as -> by congruence.
      rewrite onFace_grid in O by apply (reachable_cubie_inGrid st c R I).
      rewrite K in O. symmetry. now apply Z.eqb_eq.
    + intros ->. exists c. split; [exact N|].
      rewrite onFace_grid by apply (reachable_cubie_inGrid st c R I).
      rewrite K. apply Z.eqb_refl.
Qed.

Lemma faces_partition_grid_witness :
  reachable initialCube /\
  getCubiesOnFace "w" 1 (cubies initialCube) = [] /\
  getCubiesOnFace "x" 2 (cubies initialCube) = [].
Proof.
  split; [apply reachable_initial|]. split.
  - apply (proj1 (faces_partition_grid initialCube reachable_initial)).
    reflexivity.
  - apply (proj1 (proj2 (faces_partition_grid initialCube reachable_initial))).
    right. reflexivity.
Defined.

(** ** The middle slice under a center cubie *)

Lemma knownAxis_cases (a : string) :
  knownAxis a = true -> a = "x"%string \/ a = "y"%string \/ a = "z"%string.
Proof.
  unfold knownAxis. rewrite !orb_true_iff, !String.eqb_eq. tauto.
Qed.

Lemma onFace_position (a : string) (l : Z) (c c' : Cubie) :
  position c = position c' -> onFace a l c = onFace a l c'.
Proof. unfold onFace. now intros ->. Qed.

(** X9.  For a clicked face of axis x, y or z,
    [selectCenterSliceBySwipeDirection] returns a middle slice (layer 0)
    about another of the three axes, one for a horizontal swipe and the
    other for a vertical one; in a reachable state this slice holds the
    center cubie of the clicked face.  For any other axis it returns the
    clicked face itself. *)
Theorem center_slice_selection :
  (forall (a : string) (l : Z) (dx dy : Q),
     knownAxis a = true ->
     let f := selectCenterSliceBySwipeDirection a l dx dy in
     f_layer f = 0 /\ knownAxis (f_axis f) = true /\ f_axis f <> a) /\
  (forall (a : string) (l : Z) (dx dy dx' dy' : Q),
     knownAxis a = true ->
     (Qabs dy < Qabs dx)%Q -> ~ (Qabs dy' < Qabs dx')%Q ->
     selectCenterSliceBySwipeDirection a l dx dy
     <> selectCenterSliceBySwipeDirection a l dx' dy') /\
  (forall (a : string) (l : Z) (dx dy : Q),
     knownAxis a = false ->
     selectCenterSliceBySwipeDirection a l dx dy = mkFace a l) /\
  (forall (st : RubiksCube) (c : Cubie) (a : string) (l : Z) (dx dy : Q),
     reachable st -> In c (cubies st) ->
     In (mkFace a l) sixOuterFaces -> onFace a l c = true ->
     fst (getCubieTypeAndNeighbors a l (position c)) = center ->
     let f := selectCenterSliceBySwipeDirection a l dx dy in
     onFace (f_axis f) (f_layer f) c = true).
Proof.
  split; [|split; [|split]].
  - intros a l dx dy K. unfold selectCenterSliceBySwipeDirection.
    destruct (knownAxis_cases a K) as [ -> | [ -> | -> ] ]; eval_axis_tests;
      destruct (Qltb _ _); cbn; repeat split; discriminate.
  - intros a l dx dy dx' dy' K H V.
    apply Qltb_lt in H.
    assert (V' : Qltb (Qabs dy') (Qabs dx') = false)
      by (apply Qltb_ge, Qnot_lt_le, V).
    unfold selectCenterSliceBySwipeDirection, Math_abs.
    rewrite H, V'.
    destruct (knownAxis_cases a K) as [ -> | [ -> | -> ] ]; discriminate.
  - intros a l dx dy K. unfold selectCenterSliceBySwipeDirection, knownAxis in *.
    apply orb_false_iff in K. destruct K as (K & Kz).
    apply orb_false_iff in K. destruct K as (Kx & Ky).
    now rewrite Kx, Ky, Kz.
  - intros st c a l dx dy R I F O T. cbv zeta.
    destruct (reachable_cubie_inGrid st c R I) as (G & J).
    set (c' := mkCubie (gridPoint (gridOf c)) identityQuaternion [] (mkZ3 0 0 0)).
    assert (P : position c = position c') by exact G.
    rewrite (onFace_position _ _ c c' P). rewrite (onFace_position a l c c' P) in O.
    rewrite P in T. subst c'.
    unfold selectCenterSliceBySwipeDirection.
    destruct (Qltb (Math_abs dy) (Math_abs dx));
      revert O T; generalize (gridOf c) J; clear - F; intros g J;
      unfold gridCoordinates in J; cbn [flat_map map app In] in J;
      unfold sixOuterFaces in F; cbn [In] in F;
      repeat (destruct J as [ <- | J ];
        [repeat (destruct F as [ F | F ];
           [injection F as <- <-; vm_compute; intros; congruence|]);
         destruct F|]);
      destruct J.
Qed.

Lemma center_slice_selection_witness :
  let c := createCubie 0 0 1 in
  knownAxis "z" = true /\ reachable initialCube /\ In c (cubies initialCube) /\
  In (mkFace "z" 1) sixOuterFaces /\ onFace "z" 1 c = true /\
  fst (getCubieTypeAndNeighbors "z" 1 (position c)) = center /\
  f_layer (selectCenterSliceBySwipeDirection "z" 1 10 2) = 0 /\
  onFace "y" 0 c = true.
Proof.
  cbv zeta. split; [reflexivity|]. split; [apply reachable_initial|].
  assert (I : In (createCubie 0 0 1) (cubies initialCube)) by (cbn; tauto).
  assert (F : In (mkFace "z" 1) sixOuterFaces) by (cbn; tauto).
  split; [exact I|]. split; [exact F|]. split; [reflexivity|].
  split; [reflexivity|]. split.
  - exact (proj1 (proj1 center_slice_selection "z"%string 1 10%Q 2%Q eq_refl)).
  - exact (proj2 (proj2 (proj2 center_slice_selection)) initialCube
             (createCubie 0 0 1) "z"%string 1 10%Q 2%Q
             reachable_initial I F eq_refl eq_refl).
Defined.

(** ** Requests served in the order of their arrival *)

Lemma rotateFace_idle (t : Z) (r : Request)
    (cs : list Cubie) (h : list Move) (tr : list Observation) :
  rotateFace t (r_axis r) (r_layer r) (r_direction r) (r_record r)
             (r_callback r) (idle cs h tr)
  = animating r t [] cs h tr.
Proof. destruct r. reflexivity. Qed.

Lemma requestAll_animating (t : Z) (q : list Request) :
  forall (r0 : Request) (t0 : Z) (q0 : list Request)
         (cs : list Cubie) (h : list Move) (tr : list Observation),
  requestAll t q (animating r0 t0 q0 cs h tr)
  = animating r0 t0 (q0 ++ q) cs h tr.
Proof.
  unfold requestAll.
  induction q as [|r q IH]; intros r0 t0 q0 cs h tr.
  - cbn [fold_left]. now rewrite app_nil_r.
  - cbn [fold_left]. rewrite rotateFace_enqueues by reflexivity.
    destruct r as [a l d rc cb].
    change (set_animationQueue _ (animating r0 t0 q0 cs h tr))
      with (animating r0 t0 (q0 ++ [mkRequest a l d rc cb]) cs h tr).
    rewrite IH, <- app_assoc. reflexivity.
Qed.

(** X10.  Requests without callback made to a reachable engine at rest are
    served first in, first out: the first starts at once, the others wait in
    the queue in the order of the calls, and one frame after the other ends
    one rotation; the turns take effect in the order of the calls, the moves
    asked with [record] join the history in that order, and the engine is at
    rest again. *)
Theorem plain_requests_fifo (st : RubiksCube) (t : Z) (r0 : Request)
    (q : list Request) :
  reachable st -> busy st = false ->
  Forall (fun r => r_callback r = None) (r0 :: q) ->
  let requested := requestAll t (r0 :: q) st in
  let st' := finishAnimations (S (List.length q)) requested in
  isAnimating requested = true /\ animationQueue requested = q /\
  cubies requested = cubies st /\
  trace st' = trace st ++ map Committed (map moveOf (r0 :: q)) /\
  moveHistory st' = moveHistory st ++ map moveOf (filter r_record (r0 :: q)) /\
  cubies st' = turnLayers (map moveOf (r0 :: q)) (cubies st) /\
  busy st' = false.
Proof.
  intros R B P. cbv zeta.
  apply busy_false in B. destruct B as (I & _).
  destruct (reachable_idle st R I) as (E & _).
  assert (Q : requestAll t (r0 :: q) st
              = animating r0 t q (cubies st) (moveHistory st) (trace st)).
  { rewrite E at 1. unfold requestAll. cbn [fold_left].
    rewrite rotateFace_idle. apply (requestAll_animating t q r0 t []). }
  rewrite Q. inversion P as [|? ? P0 Pq]; subst.
  rewrite (plain_queue_run q Pq r0 t _ _ _ P0).
  repeat split.
Qed.

Lemma plain_requests_fifo_witness :
  let F := mkRequest "z" 1 (-1) true None in
  let B := mkRequest "z" (-1) 1 false None in
  let L := mkRequest "x" (-1) 1 true None in
  let st' := finishAnimations 3 (requestAll 0 [F; B; L] initialCube) in
  reachable initialCube /\ busy initialCube = false /\
  Forall (fun r => r_callback r = None) [F; B; L] /\
  trace st' = [Committed (moveOf F); Committed (moveOf B); Committed (moveOf L)] /\
  moveHistory st' = [moveOf F; moveOf L].
Proof.
  cbv zeta.
  assert (P : Forall (fun r => r_callback r = None)
                [mkRequest "z" 1 (-1) true None; mkRequest "z" (-1) 1 false None;
                 mkRequest "x" (-1) 1 true None])
    by (repeat constructor).
  split; [apply reachable_initial|]. split; [reflexivity|]. split; [exact P|].
  destruct (plain_requests_fifo initialCube 0 _ _ reachable_initial eq_refl P)
    as (_ & _ & _ & T & H & _).
  split; [exact T|exact H].
Defined.

(** ** The moves of a scramble *)

Section ScrambleMoves.

Variable names : list string.   (* [scrambleMoves] *)
Variable oc : option nat.       (* [onComplete] *)

(** After [n] frames the first [n] moves have been committed and recorded,
    and [doNextMove] has been entered with the index of the next one. *)
Lemma scramble_run_prefix (n : nat) :
  forall (ms : list Move) (k : nat) (t : Z) (cs : list Cubie) (h : list Move)
         (tr : list Observation),
  Forall2 (fun name m => lookupMove MOVES name = Some m) (skipn k names) ms ->
  (n <= List.length ms)%nat ->
  finishAnimations n (scrambleDoNextMove t names k oc (idle cs h tr)) =
  scrambleDoNextMove (t + Z.of_nat n * duration) names (k + n) oc
    (idle (turnLayers (firstn n ms) cs) (h ++ firstn n ms)
          (tr ++ map Committed (firstn n ms))).
Proof.
  induction n as [|n IH]; intros ms k t cs h tr V L.
  - cbn [finishAnimations firstn map turnLayers fold_left Z.of_nat].
    now rewrite Z.mul_0_l, Z.add_0_r, Nat.add_0_r, !app_nil_r.
  - destruct ms as [|m ms]; [cbn in L; lia|].
    destruct (nth_error names k) as [name|] eqn:E.
    + rewrite (skipn_nth_error _ _ _ E) in V.
      inversion V as [|? ? ? ? N V']; subst.
      cbn [finishAnimations]. rewrite (scramble_step names oc _ _ _ _ _ name m E N).
      rewrite (IH ms) by (try exact V'; cbn in L; lia).
      cbn [firstn map turnLayers fold_left].
      replace (t + duration + Z.of_nat n * duration)
        with (t + Z.of_nat (S n) * duration) by lia.
      replace (S k + n)%nat with (k + S n)%nat by lia.
      rewrite <- !app_assoc. reflexivity.
    + rewrite (skipn_nth_error_None _ _ E) in V. inversion V.
Qed.

Lemma named_nth (ms : list Move) (k n : nat) :
  Forall2 (fun name m => lookupMove MOVES name = Some m) (skipn k names) ms ->
  match nth_error ms n with
  | Some m => exists name, nth_error names (k + n) = Some name /\
              lookupMove MOVES name = Some m
  | None => nth_error names (k + n) = None
  end.
Proof.
  rewrite <- nth_error_skipn. generalize (skipn k names). intros l V.
  revert n. induction V as [|name m l ms N V IH]; intros [|n]; cbn; eauto.
  - apply IH.
Qed.

End ScrambleMoves.

Lemma scramble_named (random : nat -> Q) :
  (forall k, (0 <= random k < 1)%Q) ->
  forall (l : list nat),
  exists ms, Forall2 (fun i m => lookupMove MOVES (scrambleMove random i) = Some m)
                     l ms.
Proof.
  intros R. induction l as [|i l [ms IH]].
  - exists []. constructor.
  - destruct (scrambleMove_valid random i R) as [m M].
    exists (m :: ms). now constructor.
Qed.

Lemma Forall2_map_l {A B C : Type} (f : A -> B) (P : B -> C -> Prop)
    (l : list A) (ms : list C) :
  Forall2 (fun i m => P (f i) m) l ms -> Forall2 P (map f l) ms.
Proof. induction 1; cbn; now constructor. Qed.

(** X11.  [scramble] on a reachable engine at rest, with the results of
    [Math.random()] in [0, 1): the 20 names drawn are moves of the table;
    one is committed and recorded per frame, the engine animating in
    between, so that the history is the one before the call followed by the
    moves committed so far; after the 20th frame the engine is at rest, the
    grid turned by the 20 moves in order, and [onComplete], if given, has
    been called once, with no argument. *)
Theorem scramble_appends_moves (st : RubiksCube) (t : Z) (random : nat -> Q)
    (oc : option nat) :
  reachable st -> busy st = false ->
  (forall k, (0 <= random k < 1)%Q) ->
  exists ms : list Move,
    Forall2 (fun i m => lookupMove MOVES (scrambleMove random i) = Some m)
            (seq 0 20) ms /\
    (forall n : nat, (n < 20)%nat ->
       let during := finishAnimations n (scramble t random oc st) in
       isAnimating during = true /\
       moveHistory during = moveHistory st ++ firstn n ms /\
       cubies during = turnLayers (firstn n ms) (cubies st)) /\
    finishAnimations 20 (scramble t random oc st) =
    callIfGiven oc None
      (idle (turnLayers ms (cubies st)) (moveHistory st ++ ms)
            (trace st ++ map Committed ms)).
Proof.
  intros R B V.
  destruct (scramble_named random V (seq 0 20)) as [ms M].
  exists ms. split; [exact M|].
  assert (Len : List.length ms = 20%nat)
    by (rewrite <- (Forall2_length M); apply length_seq).
  pose proof (Forall2_map_l (scrambleMove random)
                (fun name m => lookupMove MOVES name = Some m) _ _ M) as M'.
  set (names := map (scrambleMove random) (seq 0 20)) in *.
  assert (I := B). apply busy_false in I. destruct I as (I & _).
  destruct (reachable_idle st R I) as (E & _).
  assert (S : scramble t random oc st
              = scrambleDoNextMove t names 0 oc
                  (idle (cubies st) (moveHistory st) (trace st))).
  { unfold scramble. rewrite B. rewrite <- E. reflexivity. }
  rewrite S. split.
  - intros n L. cbv zeta.
    rewrite (scramble_run_prefix names oc n ms 0 t) by (try exact M'; lia).
    assert (N := named_nth names ms 0 n M').
    destruct (nth_error ms n) as [m|] eqn:F;
      [|apply nth_error_None in F; lia].
    destruct N as (name & N1 & N2).
    unfold scrambleDoNextMove, executeMove. rewrite N1, N2.
    repeat split.
  - replace 20%nat with (List.length ms) at 1 by exact Len.
    rewrite (scramble_run_prefix names oc _ ms 0 t) by (try exact M'; lia).
    assert (N := named_nth names ms 0 (List.length ms) M').
    rewrite (proj2 (nth_error_None ms (List.length ms)) (Nat.le_refl _)) in N.
    unfold scrambleDoNextMove. rewrite N, firstn_all. reflexivity.
Qed.

Lemma scramble_appends_moves_witness :
  let random := fun _ : nat => (1 # 4)%Q in
  reachable initialCube /\ busy initialCube = false /\
  (forall k, (0 <= random k < 1)%Q) /\
  exists ms : list Move,
    List.length ms = 20%nat /\
    moveHistory (finishAnimations 20 (scramble 0 random (Some 3%nat) initialCube))
    = ms.
Proof.
  cbv zeta.
  assert (V : forall k : nat, (0 <= (fun _ : nat => (1 # 4)%Q) k < 1)%Q)
    by (intros k; split; [discriminate|reflexivity]).
  split; [apply reachable_initial|]. split; [reflexivity|]. split; [exact V|].
  destruct (scramble_appends_moves initialCube 0 _ (Some 3%nat)
              reachable_initial eq_refl V) as (ms & M & _ & E).
  exists ms. split.
  - rewrite <- (Forall2_length M). reflexivity.
  - rewrite E. reflexivity.
Defined.

(** ** A gesture and the moves it records *)

Module GestureReplay.
Import Gesture.

(** The moves recorded for [k] quarter turns turn the layer as [k] quarter
    turns do. *)
Lemma recordedMoves_turn (a : string) (l k : Z) (cs : list Cubie) :
  Forall onGrid cs ->
  turnLayers (recordedMoves a l k) cs = turnLayer (mkMove a l k) cs.
Proof.
  intros G. rewrite GestureFacts.recordedMoves_mod.
  assert (B : 0 <= k mod 4 < 4) by (apply Z.mod_pos_bound; lia).
  assert (C : k mod 4 = 0 \/ k mod 4 = 1 \/ k mod 4 = 2 \/ k mod 4 = 3) by lia.
  destruct C as [C|[C|[C|C]]]; rewrite C; cbn [turnLayers fold_left].
  - rewrite (turnLayer_mod a l k 0) by (rewrite C; reflexivity).
    symmetry. now apply turnLayer_zero.
  - apply turnLayer_mod. rewrite C. reflexivity.
  - rewrite turnLayer_add by exact G.
    apply turnLayer_mod. rewrite C. reflexivity.
  - apply turnLayer_mod. rewrite C. reflexivity.
Qed.

(** A layer grabbed and dragged: only the accumulated angle changes. *)
Lemma dragged_page (deltas : list Q) :
  forall (g : list nat) (a : string) (l : Z) (angle : Q) (cs : list Cubie)
         (h : list Move) (s : list SnapAnimation),
  fold_left (fun p d => updateFaceRotation d p) deltas
            (mkPage cs h (mkTouchState (Some g) (Some a) l angle) s)
  = mkPage cs h
      (mkTouchState (Some g) (Some a) l (fold_left Qplus deltas angle)) s.
Proof.
  induction deltas as [|d deltas IH]; intros g a l angle cs h s; [reflexivity|].
  cbn [fold_left]. unfold updateFaceRotation at 2.
  cbn [touchState rotationGroup swipeAxis swipeLayer currentRotation cubies
       moveHistory snapFrames].
  apply IH.
Qed.

Lemma round_small (x : Q) :
  (Qabs x < 1 # 2)%Q -> Math_round x = 0.
Proof.
  intros H. apply Qabs_Qlt_condition in H. destruct H as (L & U).
  unfold Math_round.
  assert (A : (0 <= x + (1 # 2))%Q) by lra.
  assert (B : (x + (1 # 2) < 1)%Q) by lra.
  apply Qfloor_resp_le in A. change (Qfloor 0) with 0 in A.
  assert (C : Qfloor (x + (1 # 2)) < 1).
  { rewrite Zlt_Qlt. eapply Qle_lt_trans; [apply Qfloor_le|]. exact B. }
  lia.
Qed.

End GestureReplay.

(** X12.  A layer grabbed with [startFaceRotation] while no snap animation
    is waiting, dragged by any number of [updateFaceRotation] calls and
    released with [completeFaceRotation], nothing else being done to the
    page until the first animation frame at 200 ms or later after the
    release (frames before it may come): the moves that the release pushes
    to the history, played on the cubies as they were before the gesture,
    give the cubies as the release leaves them, so the reversed, negated
    moves take the cubies back; the layer is let go and no closure waits.
    When the accumulated angle is at most 0.78 rad in absolute value (a
    little less than 45 degrees), nothing is recorded and every cubie is as
    it was. *)
Theorem gesture_replays_history (pg : Gesture.Page) (a : string) (l : Z)
    (start : Q) (deltas : list Q) (t : Z) (early : list Z) (final : Z) :
  Forall onGrid (Gesture.cubies pg) -> Gesture.snapFrames pg = [] ->
  Forall (fun now => now - t < 200) early -> 200 <= final - t ->
  let angle := fold_left Qplus deltas start in
  let pg' :=
    Gesture.animationFrame final
      (Gesture.animationFrames early
         (Gesture.completeFaceRotation t
            (fold_left (fun p d => Gesture.updateFaceRotation d p) deltas
                       (Gesture.startFaceRotation a l start pg)))) in
  (exists ms : list Move,
     Gesture.moveHistory pg' = Gesture.moveHistory pg ++ ms /\
     Gesture.cubies pg' = turnLayers ms (Gesture.cubies pg) /\
     turnLayers (map negateMove (rev ms)) (Gesture.cubies pg')
       = Gesture.cubies pg) /\
  Forall onGrid (Gesture.cubies pg') /\
  Gesture.rotationGroup (Gesture.touchState pg') = None /\
  Gesture.snapFrames pg' = [] /\
  ((Qabs angle <= 78 # 100)%Q ->
     Gesture.moveHistory pg' = Gesture.moveHistory pg /\
     Gesture.cubies pg' = Gesture.cubies pg).
Proof.
  intros G S E F. cbv zeta. unfold Gesture.startFaceRotation.
  rewrite GestureReplay.dragged_page.
  match goal with
  | |- context [Gesture.completeFaceRotation t ?p] =>
      rewrite (GestureFacts.release_result t early final p
                 (getCubiesOnFace a l (Gesture.cubies pg)) a
                 eq_refl eq_refl S E F)
  end.
  cbn [Gesture.cubies Gesture.moveHistory Gesture.touchState
       Gesture.swipeLayer Gesture.currentRotation Gesture.rotationGroup
       Gesture.snapFrames].
  set (k := Math_round (fold_left Qplus deltas start / Gesture.HALF_PI)).
  change (commitFace a k (getCubiesOnFace a l (Gesture.cubies pg))
                     (Gesture.cubies pg))
    with (turnLayer (mkMove a l k) (Gesture.cubies pg)).
  rewrite <- (GestureReplay.recordedMoves_turn a l k _ G).
  split; [|split; [|split; [|split]]]; try reflexivity.
  - exists (Gesture.recordedMoves a l k).
    split; [reflexivity|]. split; [reflexivity|].
    now apply turnLayers_inverse.
  - now apply turnLayers_onGrid.
  - intros H.
    assert (Z0 : k = 0).
    { subst k. apply GestureReplay.round_small.
      assert (P : (0 < Gesture.HALF_PI)%Q) by reflexivity.
      unfold Qdiv. rewrite Qabs_Qmult.
      rewrite (Qabs_pos (/ Gesture.HALF_PI))
        by (apply Qlt_le_weak, Qinv_lt_0_compat, P).
      apply Qlt_shift_div_r; [exact P|].
      eapply Qle_lt_trans; [exact H|]. reflexivity. }
    rewrite Z0. cbn. now rewrite app_nil_r.
Qed.

Lemma gesture_replays_history_witness :
  let pg := Gesture.mkPage solvedCubies []
              (Gesture.mkTouchState None None 0 0) [] in
  let pg' :=
    Gesture.animationFrame 1217
      (Gesture.animationFrames [1016; 1033]
         (Gesture.completeFaceRotation 1000
            (fold_left (fun p d => Gesture.updateFaceRotation d p)
                       [1 # 4; 1 # 8]%Q
                       (Gesture.startFaceRotation "y" 1 0 pg)))) in
  Forall onGrid (Gesture.cubies pg) /\ Gesture.snapFrames pg = [] /\
  Forall (fun now => now - 1000 < 200) [1016; 1033] /\ 200 <= 1217 - 1000 /\
  (Qabs (fold_left Qplus [1 # 4; 1 # 8] 0) <= 78 # 100)%Q /\
  Gesture.moveHistory pg' = [] /\ Gesture.cubies pg' = solvedCubies.
Proof.
  cbv zeta.
  assert (E : Forall (fun now => now - 1000 < 200) [1016; 1033])
    by (repeat constructor).
  assert (F : 200 <= 1217 - 1000) by lia.
  assert (A : (Qabs (fold_left Qplus [1 # 4; 1 # 8] 0) <= 78 # 100)%Q)
    by (vm_compute; discriminate).
  split; [exact solvedCubies_onGrid|]. split; [reflexivity|].
  split; [exact E|]. split; [exact F|]. split; [exact A|].
  exact (proj2 (proj2 (proj2 (proj2 (gesture_replays_history
           (Gesture.mkPage solvedCubies [] (Gesture.mkTouchState None None 0 0) [])
           "y"%string 1 0%Q [1 # 4; 1 # 8]%Q 1000 [1016; 1033] 1217
           solvedCubies_onGrid eq_refl E F)))) A).
Defined.

(** ** The face a vector points to *)

Module KeyboardFacts.
Import Keyboard.

Lemma Qabs_sign (q : Q) :
  (0 <= q /\ Qabs q == q)%Q \/ (q < 0 /\ Qabs q == - q)%Q.
Proof.
  destruct (Qlt_le_dec q 0) as [N|P]; [right|left]; split; auto.
  - apply Qabs_neg. now apply Qlt_le_weak.
  - now apply Qabs_pos.
Qed.

Lemma Qle_bool_false (a b : Q) : Qle_bool a b = false -> (b < a)%Q.
Proof.
  intros H. apply Qltb_lt. unfold Qltb. now rewrite H.
Qed.

(** The three branches of [getFaceFromVector]. *)
Lemma getFaceFromVector_cases (vec : Vector3) :
  ((Qabs (vx vec) <= Qabs (vz vec))%Q /\ (Qabs (vy vec) <= Qabs (vz vec))%Q /\
   getFaceFromVector vec =
     mkFaceName (if Qltb 0 (vz vec) then blue else green)
                (if Qltb 0 (vz vec) then "F" else "B")) \/
  ((Qabs (vz vec) < Qabs (vx vec))%Q /\ (Qabs (vy vec) <= Qabs (vx vec))%Q /\
   getFaceFromVector vec =
     mkFaceName (if Qltb 0 (vx vec) then red else orange)
                (if Qltb 0 (vx vec) then "R" else "L")) \/
  ((Qabs (vz vec) < Qabs (vy vec))%Q /\ (Qabs (vx vec) < Qabs (vy vec))%Q /\
   getFaceFromVector vec =
     mkFaceName (if Qltb 0 (vy vec) then white else yellow)
                (if Qltb 0 (vy vec) then "U" else "D")).
Proof.
  unfold getFaceFromVector, Math_abs. cbv zeta.
  destruct (Qle_bool (Qabs (vx vec)) (Qabs (vz vec))) eqn:XZ;
  destruct (Qle_bool (Qabs (vy vec)) (Qabs (vz vec))) eqn:YZ;
  destruct (Qle_bool (Qabs (vy vec)) (Qabs (vx vec))) eqn:YX;
  cbn [andb];
  rewrite ?Qle_bool_iff in *;
  repeat match goal with
         | H : Qle_bool _ _ = false |- _ => apply Qle_bool_false in H
         end;
  first [ left; repeat split; assumption
        | right; left; repeat split; first [assumption | lra]
        | right; right; repeat split; first [assumption | lra] ].
Qed.

Lemma positive_cases (q : Q) :
  (Qltb 0 q = true /\ (0 < q)%Q) \/ (Qltb 0 q = false /\ (q <= 0)%Q).
Proof.
  destruct (Qltb 0 q) eqn:E; [left|right]; split; trivial.
  - now apply Qltb_lt.
  - now apply Qltb_ge.
Qed.

(** The face named is the one of the greatest coordinate, on the side of
    its sign, and the colour is the one of that face. *)
Lemma getFaceFromVector_face (vec : Vector3) :
  exists m : Move,
    lookupMove MOVES (move (getFaceFromVector vec)) = Some m /\
    In (faceOfMove m) sixOuterFaces /\
    (forall a, (Qabs (coordinate a vec) <= Qabs (coordinate (axis m) vec))%Q) /\
    (~ zeroVector vec ->
     (0 < inject_Z (layer m) * coordinate (axis m) vec)%Q) /\
    In (color (getFaceFromVector vec))
       (materials (centerCubieOf (faceOfMove m))) /\
    color (getFaceFromVector vec) <> black.
Proof.
  destruct (Qabs_sign (vx vec)) as [(Sx & Ax)|(Sx & Ax)];
  destruct (Qabs_sign (vy vec)) as [(Sy & Ay)|(Sy & Ay)];
  destruct (Qabs_sign (vz vec)) as [(Sz & Az)|(Sz & Az)];
  destruct (getFaceFromVector_cases vec) as [(D1 & D2 & ->)|[(D1 & D2 & ->)|(D1 & D2 & ->)]];
  match goal with
  | |- context [Qltb 0 ?q] => destruct (positive_cases q) as [(-> & P)|(-> & P)]
  end;
  (eexists; split; [reflexivity|]; split; [cbn; tauto|]; split; [|split; [|split]];
   [ intros a; unfold coordinate; cbn [axis String.eqb Ascii.eqb Bool.eqb];
     destruct (String.eqb a "x"); [|destruct (String.eqb a "y")]; lra
   | intros NZ; cbn [axis layer coordinate String.eqb Ascii.eqb Bool.eqb];
     change (inject_Z 1) with 1%Q; change (inject_Z (-1)) with (-1 # 1)%Q;
     first [ lra | exfalso; apply NZ; repeat split; lra ]
   | cbn; tauto
   | discriminate ]).
Qed.

(** Opposite vectors point to opposite faces. *)
Lemma getFaceFromVector_opposite (u vec : Vector3) (m : Move) :
  oppositeVector u vec -> ~ zeroVector vec ->
  lookupMove MOVES (move (getFaceFromVector vec)) = Some m ->
  exists m' : Move,
    lookupMove MOVES (move (getFaceFromVector u)) = Some m' /\
    axis m' = axis m /\ layer m' = - layer m.
Proof.
  intros (Ox & Oy & Oz) NZ.
  assert (Ex : (Qabs (vx u) == Qabs (vx vec))%Q) by (rewrite Ox; apply Qabs_opp).
  assert (Ey : (Qabs (vy u) == Qabs (vy vec))%Q) by (rewrite Oy; apply Qabs_opp).
  assert (Ez : (Qabs (vz u) == Qabs (vz vec))%Q) by (rewrite Oz; apply Qabs_opp).
  assert (NZ' : (vx vec == 0 -> vy vec == 0 -> vz vec == 0 -> False)%Q)
    by (intros; apply NZ; repeat split; assumption).
  clear NZ.
  destruct (Qabs_sign (vx vec)) as [(Sx & Ax)|(Sx & Ax)];
  destruct (Qabs_sign (vy vec)) as [(Sy & Ay)|(Sy & Ay)];
  destruct (Qabs_sign (vz vec)) as [(Sz & Az)|(Sz & Az)];
  destruct (getFaceFromVector_cases vec) as [(D1 & D2 & ->)|[(D1 & D2 & ->)|(D1 & D2 & ->)]];
  destruct (getFaceFromVector_cases u) as [(U1 & U2 & ->)|[(U1 & U2 & ->)|(U1 & U2 & ->)]];
  try (exfalso; lra);
  match goal with
  | |- context [Qltb 0 (?f vec)] =>
      destruct (positive_cases (f vec)) as [(-> & P)|(-> & P)];
      destruct (positive_cases (f u)) as [(-> & P')|(-> & P')]
  end;
  cbn [move]; intros L; injection L as <-;
  first [ eexists; split; [reflexivity|]; split; reflexivity
        | exfalso; lra
        | exfalso; apply NZ'; lra ].
Qed.

Lemma move_names (vec : Vector3) :
  In (move (getFaceFromVector vec)) ["F"; "B"; "R"; "L"; "U"; "D"]%string.
Proof.
  destruct (getFaceFromVector_cases vec) as [(_ & _ & ->)|[(_ & _ & ->)|(_ & _ & ->)]];
    match goal with |- context [Qltb 0 ?q] => destruct (Qltb 0 q) end;
    cbn; tauto.
Qed.

End KeyboardFacts.

(** X13.  [getFaceFromVector] names a face of the cube by a move of the
    table [MOVES] and a colour: the face lies on the axis along which the
    vector has its greatest absolute coordinate, on the side of that
    coordinate's sign when the vector is not zero, and the colour is the one
    that [createCubie] paints on the center cubie of that face.  The
    opposite of a vector that is not zero gets the opposite face. *)
Theorem face_of_vector (vec : Vector3) :
  exists m : Move,
    lookupMove MOVES (Keyboard.move (Keyboard.getFaceFromVector vec)) = Some m /\
    In (Keyboard.faceOfMove m) sixOuterFaces /\
    (forall a, (Qabs (coordinate a vec) <= Qabs (coordinate (axis m) vec))%Q) /\
    (~ Keyboard.zeroVector vec ->
     (0 < inject_Z (layer m) * coordinate (axis m) vec)%Q) /\
    In (Keyboard.color (Keyboard.getFaceFromVector vec))
       (materials (Keyboard.centerCubieOf (Keyboard.faceOfMove m))) /\
    Keyboard.color (Keyboard.getFaceFromVector vec) <> black /\
    (forall u : Vector3,
       Keyboard.oppositeVector u vec -> ~ Keyboard.zeroVector vec ->
       exists m' : Move,
         lookupMove MOVES (Keyboard.move (Keyboard.getFaceFromVector u))
           = Some m' /\
         axis m' = axis m /\ layer m' = - layer m).
Proof.
  destruct (KeyboardFacts.getFaceFromVector_face vec)
    as (m & L & F & D & S & C & B).
  exists m. repeat (split; [assumption|]).
  intros u O NZ. exact (KeyboardFacts.getFaceFromVector_opposite u vec m O NZ L).
Qed.

Lemma face_of_vector_witness :
  let vec := mkVector3 (1 # 3) (-2 # 3) (2 # 5) in
  let u := mkVector3 (-1 # 3) (2 # 3) (-2 # 5) in
  Keyboard.oppositeVector u vec /\ ~ Keyboard.zeroVector vec /\
  Keyboard.getFaceFromVector vec = Keyboard.mkFaceName yellow "D" /\
  exists m' : Move,
    lookupMove MOVES (Keyboard.move (Keyboard.getFaceFromVector u)) = Some m' /\
    axis m' = "y"%string /\ layer m' = 1.
Proof.
  cbv zeta.
  assert (O : Keyboard.oppositeVector (mkVector3 (-1 # 3) (2 # 3) (-2 # 5))
                                      (mkVector3 (1 # 3) (-2 # 3) (2 # 5)))
    by (repeat split).
  assert (NZ : ~ Keyboard.zeroVector (mkVector3 (1 # 3) (-2 # 3) (2 # 5)))
    by (intros (H & _); discriminate H).
  split; [exact O|]. split; [exact NZ|]. split; [reflexivity|].
  destruct (face_of_vector (mkVector3 (1 # 3) (-2 # 3) (2 # 5)))
    as (m & L & _ & _ & _ & _ & _ & Opp).
  destruct (Opp _ O NZ) as (m' & L' & A & Ly).
  exists m'. split; [exact L'|].
  injection L as <-. split; [exact A|exact Ly].
Defined.

(** ** Moves from the keyboard *)

Module KeydownFacts.
Import Keyboard.

Lemma validMoves_existsb (key : string) :
  existsb (String.eqb key) validMoves = true <-> In key validMoves.
Proof.
  rewrite existsb_exists. split.
  - intros (k & I & E). apply String.eqb_eq in E. now subst.
  - intros I. exists key. split; [exact I|apply String.eqb_refl].
Qed.

(** The direction that a key stands for. *)
Lemma getOrientedMove_valid (applyInverse : Vector3 -> Vector3) (key : string) :
  In key validMoves ->
  exists v : Vector3,
    In (key, v) [ ("F", mkVector3 0 0 1); ("B", mkVector3 0 0 (-1));
                  ("R", mkVector3 1 0 0); ("L", mkVector3 (-1) 0 0);
                  ("U", mkVector3 0 1 0); ("D", mkVector3 0 (-1) 0) ]%string /\
    forall isPrime : bool,
      getOrientedMove applyInverse key isPrime =
      Some (let actualFace := move (getFaceFromVector (applyInverse v)) in
            if isPrime then (actualFace ++ "'")%string else actualFace).
Proof.
  intros I. cbn [validMoves In] in I.
  repeat (destruct I as [ <- | I ];
          [eexists; split; [cbn [In]; eauto 8|intros p; reflexivity]|]).
  destruct I.
Qed.

(** The names that the mapping yields are moves of the table, the primed
    name being the move in the other direction. *)
Lemma primed_names (f : string) :
  In f ["F"; "B"; "R"; "L"; "U"; "D"]%string ->
  exists m : Move,
    lookupMove MOVES f = Some m /\
    lookupMove MOVES (f ++ "'") = Some (negateMove m) /\
    String.eqb f "" = false /\ String.eqb (f ++ "'") "" = false.
Proof.
  intros I. cbn [In] in I.
  repeat (destruct I as [ <- | I ]; [eexists; repeat split; reflexivity|]).
  destruct I.
Qed.

Lemma keydown_effective (applyInverse : Vector3 -> Vector3) (tag k : string) :
  String.eqb tag "INPUT" = false -> String.eqb tag "TEXTAREA" = false ->
  In (toUpperCase k) validMoves ->
  exists (v : Vector3) (m : Move),
    In v (map snd directions) /\
    lookupMove MOVES (move (getFaceFromVector (applyInverse v))) = Some m /\
    forall (t : Z) (shift : bool) (st : RubiksCube),
      keydown applyInverse t (mkKeyEvent tag k shift) st =
      rotateFace t (axis m) (layer m)
                 (if shift then - direction m else direction m) true None st.
Proof.
  intros T1 T2 I.
  destruct (getOrientedMove_valid applyInverse _ I) as (v & Iv & O).
  destruct (primed_names _ (KeyboardFacts.move_names (applyInverse v)))
    as (m & L & L' & N & N').
  exists v, m. split; [|split; [exact L|]].
  - cbn [In] in Iv. cbn [directions map snd In].
    repeat (destruct Iv as [ Iv | Iv ]; [injection Iv as _ <-; tauto|]).
    destruct Iv.
  - intros t shift st. unfold keydown.
    cbn [targetTagName e_key shiftKey]. rewrite T1, T2. cbn [orb].
    rewrite (proj2 (validMoves_existsb _) I), O. cbv zeta.
    unfold executeMove. destruct shift.
    + rewrite N', L'. reflexivity.
    + rewrite N, L. reflexivity.
Qed.

Lemma keydown_ignored (applyInverse : Vector3 -> Vector3) (t : Z)
    (e : KeyEvent) (st : RubiksCube) :
  targetTagName e = "INPUT"%string \/ targetTagName e = "TEXTAREA"%string \/
  ~ In (toUpperCase (e_key e)) validMoves ->
  keydown applyInverse t e st = st.
Proof.
  unfold keydown. intros [ -> | [ -> | N ] ]; try reflexivity.
  destruct (_ || _)%bool; [reflexivity|].
  destruct (existsb _ validMoves) eqn:E; [|reflexivity].
  apply validMoves_existsb in E. contradiction.
Qed.

Lemma upperChar_idempotent (c : ascii) : upperChar (upperChar c) = upperChar c.
Proof.
  destruct c as [[] [] [] [] [] [] [] []]; reflexivity.
Qed.

Lemma toUpperCase_idempotent (s : string) :
  toUpperCase (toUpperCase s) = toUpperCase s.
Proof.
  induction s as [|c s IH]; [reflexivity|].
  cbn [toUpperCase]. now rewrite upperChar_idempotent, IH.
Qed.

Lemma finishAnimation_rest (st : RubiksCube) :
  pendingFrame st = None -> finishAnimation st = st.
Proof. unfold finishAnimation. now intros ->. Qed.

End KeydownFacts.

(** X14.  The [keydown] handler of the main script.  An event in an INPUT
    or TEXTAREA element, or with a key that is not one of the letters F, B,
    R, L, U, D in either case, changes nothing.  Any other event is a
    rotation request for a move of the table [MOVES], the one of the face
    that [getFaceFromVector] names for the key's direction, reversed when
    Shift is held, always recorded and without callback; the request is made
    whether the engine is at rest or not.  The case of the letter does not
    matter.  With the engine at rest and the cubies on the grid, a key
    followed by the same key with Shift, each animated to its end under the
    same rotation of the whole cube, leaves every cubie where it was. *)
Theorem keydown_requests_table_move (applyInverse : Vector3 -> Vector3) :
  (forall (t : Z) (e : Keyboard.KeyEvent) (st : RubiksCube),
     Keyboard.targetTagName e = "INPUT"%string \/
     Keyboard.targetTagName e = "TEXTAREA"%string \/
     ~ In (Keyboard.toUpperCase (Keyboard.e_key e)) Keyboard.validMoves ->
     Keyboard.keydown applyInverse t e st = st) /\
  (forall (tag k : string),
     tag <> "INPUT"%string -> tag <> "TEXTAREA"%string ->
     In (Keyboard.toUpperCase k) Keyboard.validMoves ->
     exists (v : Vector3) (m : Move),
       In v (map snd Keyboard.directions) /\
       lookupMove MOVES
         (Keyboard.move (Keyboard.getFaceFromVector (applyInverse v))) = Some m /\
       forall (t : Z) (shift : bool) (st : RubiksCube),
         Keyboard.keydown applyInverse t (Keyboard.mkKeyEvent tag k shift) st =
         rotateFace t (axis m) (layer m)
                    (if shift then - direction m else direction m) true None st) /\
  (forall (t : Z) (tag k : string) (shift : bool) (st : RubiksCube),
     Keyboard.keydown applyInverse t
       (Keyboard.mkKeyEvent tag (Keyboard.toUpperCase k) shift) st =
     Keyboard.keydown applyInverse t (Keyboard.mkKeyEvent tag k shift) st) /\
  (forall (t t' : Z) (tag k : string) (cs : list Cubie) (h : list Move)
          (tr : list Observation),
     Forall onGrid cs ->
     let st := idle cs h tr in
     let st1 :=
       finishAnimation
         (Keyboard.keydown applyInverse t (Keyboard.mkKeyEvent tag k false) st) in
     let st2 :=
       finishAnimation
         (Keyboard.keydown applyInverse t' (Keyboard.mkKeyEvent tag k true) st1) in
     cubies st2 = cubies st /\ busy st2 = false).
Proof.
  split; [|split; [|split]].
  - intros t e st. apply KeydownFacts.keydown_ignored.
  - intros tag k T1 T2. apply KeydownFacts.keydown_effective.
    + now apply String.eqb_neq.
    + now apply String.eqb_neq.
  - intros t tag k shift st. unfold Keyboard.keydown.
    cbn [Keyboard.targetTagName Keyboard.e_key Keyboard.shiftKey].
    now rewrite KeydownFacts.toUpperCase_idempotent.
  - intros t t' tag k cs h tr G. cbv zeta.
    set (st := idle cs h tr).
    assert (P : pendingFrame st = None) by reflexivity.
    assert (Ignored :
              Keyboard.targetTagName (Keyboard.mkKeyEvent tag k true)
                = "INPUT"%string \/
              Keyboard.targetTagName (Keyboard.mkKeyEvent tag k true)
                = "TEXTAREA"%string \/
              ~ In (Keyboard.toUpperCase
                      (Keyboard.e_key (Keyboard.mkKeyEvent tag k true)))
                   Keyboard.validMoves ->
              cubies
                (finishAnimation
                   (Keyboard.keydown applyInverse t'
                      (Keyboard.mkKeyEvent tag k true)
                      (finishAnimation
                         (Keyboard.keydown applyInverse t
                            (Keyboard.mkKeyEvent tag k false) st))))
                = cubies st /\
              busy
                (finishAnimation
                   (Keyboard.keydown applyInverse t'
                      (Keyboard.mkKeyEvent tag k true)
                      (finishAnimation
                         (Keyboard.keydown applyInverse t
                            (Keyboard.mkKeyEvent tag k false) st))))
                = false).
    { intros H.
      rewrite (KeydownFacts.keydown_ignored applyInverse t
                 (Keyboard.mkKeyEvent tag k false) st) by exact H.
      rewrite (KeydownFacts.finishAnimation_rest st P).
      rewrite (KeydownFacts.keydown_ignored applyInverse t'
                 (Keyboard.mkKeyEvent tag k true) st) by exact H.
      rewrite (KeydownFacts.finishAnimation_rest st P).
      split; reflexivity. }
    destruct (String.eqb tag "INPUT") eqn:T1;
      [apply String.eqb_eq in T1; apply Ignored; left; exact T1|].
    destruct (String.eqb tag "TEXTAREA") eqn:T2;
      [apply String.eqb_eq in T2; apply Ignored; right; left; exact T2|].
    destruct (existsb (String.eqb (Keyboard.toUpperCase k)) Keyboard.validMoves)
      eqn:V.
    + apply KeydownFacts.validMoves_existsb in V.
      destruct (KeydownFacts.keydown_effective applyInverse tag k T1 T2 V)
        as (v & m & _ & _ & K).
      rewrite !K.
      change (finishAnimation
                (rotateFace t (axis m) (layer m) (direction m) true None st))
        with (playMove t true m st).
      subst st. rewrite playMove_idle.
      change (finishAnimation (rotateFace t' (axis m) (layer m) (- direction m)
                                          true None ?s))
        with (playMove t' true (negateMove m) s).
      rewrite playMove_idle. cbn [cubies idle busy isAnimating animationQueue
                                  List.length Nat.ltb Nat.leb orb].
      split; [now apply turnLayer_inverse|reflexivity].
    + assert (N : ~ In (Keyboard.toUpperCase k) Keyboard.validMoves).
      { intros H. apply KeydownFacts.validMoves_existsb in H. congruence. }
      apply Ignored. right. right. exact N.
Qed.

Lemma keydown_requests_table_move_witness :
  let upright := fun v : Vector3 => v in
  let st2 :=
    finishAnimation
      (Keyboard.keydown upright 300 (Keyboard.mkKeyEvent "BODY" "r" true)
         (finishAnimation
            (Keyboard.keydown upright 0 (Keyboard.mkKeyEvent "BODY" "r" false)
               initialCube))) in
  Forall onGrid solvedCubies /\
  "BODY"%string <> "INPUT"%string /\ "BODY"%string <> "TEXTAREA"%string /\
  In (Keyboard.toUpperCase "r") Keyboard.validMoves /\
  cubies st2 = solvedCubies /\
  moveHistory st2 = [mkMove "x" 1 (-1); mkMove "x" 1 1].
Proof.
  cbv zeta. split; [exact solvedCubies_onGrid|].
  split; [discriminate|]. split; [discriminate|]. split; [cbn; tauto|].
  split.
  - exact (proj1 (proj2 (proj2 (proj2 (keydown_requests_table_move
             (fun v : Vector3 => v)))) 0 300 "BODY"%string "r"%string
             solvedCubies [] [] solvedCubies_onGrid)).
  - reflexivity.
Defined.

(** X15.  The mapping of the keys to the faces.  While the whole cube is
    not rotated, every key turns the face it names.  Whatever the rotation,
    the colour shown as the front face is the colour of the center cubie of
    the face that the key F turns.  When the rotation takes opposite vectors
    to opposite vectors and none but the zero vector to zero, the keys of
    opposite directions (F and B, R and L, U and D) turn opposite faces: the
    two moves have the same axis and opposite layers. *)
Theorem keys_follow_orientation (applyInverse : Vector3 -> Vector3) :
  (forall (key : string) (isPrime : bool),
     In key Keyboard.validMoves ->
     Keyboard.getOrientedMove (fun v => v) key isPrime
     = Some (if isPrime then (key ++ "'")%string else key)) /\
  (exists (name : string) (m : Move),
     Keyboard.getOrientedMove applyInverse "F" false = Some name /\
     lookupMove MOVES name = Some m /\
     In (Keyboard.getCurrentFrontFace applyInverse)
        (materials (Keyboard.centerCubieOf (Keyboard.faceOfMove m))) /\
     Keyboard.getCurrentFrontFace applyInverse <> black) /\
  ((forall u v, Keyboard.oppositeVector u v ->
                Keyboard.oppositeVector (applyInverse u) (applyInverse v)) ->
   (forall v, Keyboard.zeroVector (applyInverse v) -> Keyboard.zeroVector v) ->
   forall key key' : string,
     In (key, key') [("F", "B"); ("R", "L"); ("U", "D")]%string ->
     exists (name name' : string) (m m' : Move),
       Keyboard.getOrientedMove applyInverse key false = Some name /\
       Keyboard.getOrientedMove applyInverse key' false = Some name' /\
       lookupMove MOVES name = Some m /\ lookupMove MOVES name' = Some m' /\
       axis m' = axis m /\ layer m' = - layer m).
Proof.
  split; [|split].
  - intros key isPrime I. cbn [Keyboard.validMoves In] in I.
    repeat (destruct I as [ <- | I ]; [destruct isPrime; reflexivity|]).
    destruct I.
  - destruct (KeyboardFacts.getFaceFromVector_face (applyInverse (mkVector3 0 0 1)))
      as (m & L & _ & _ & _ & C & B).
    exists (Keyboard.move (Keyboard.getFaceFromVector
                             (applyInverse (mkVector3 0 0 1)))), m.
    split; [reflexivity|]. split; [exact L|]. split; [exact C|exact B].
  - intros Odd Inj key key' I.
    assert (P : forall u v : Vector3,
              Keyboard.oppositeVector u v -> ~ Keyboard.zeroVector v ->
              exists m m' : Move,
                lookupMove MOVES (Keyboard.move (Keyboard.getFaceFromVector
                                                   (applyInverse v))) = Some m /\
                lookupMove MOVES (Keyboard.move (Keyboard.getFaceFromVector
                                                   (applyInverse u))) = Some m' /\
                axis m' = axis m /\ layer m' = - layer m).
    { intros u v O NZ.
      destruct (KeyboardFacts.getFaceFromVector_face (applyInverse v))
        as (m & L & _).
      assert (NZ' : ~ Keyboard.zeroVector (applyInverse v))
        by (intros Z0; apply NZ, Inj, Z0).
      destruct (KeyboardFacts.getFaceFromVector_opposite
                  (applyInverse u) (applyInverse v) m (Odd u v O) NZ' L)
        as (m' & L' & A & Ly).
      exists m, m'. repeat split; assumption. }
    cbn [In] in I.
    destruct I as [ I | [ I | [ I | [] ] ] ]; injection I as <- <-.
    + destruct (P (mkVector3 0 0 (-1)) (mkVector3 0 0 1)) as (m & m' & L & L' & A).
      * repeat split.
      * intros (_ & _ & H). discriminate H.
      * do 2 eexists. exists m, m'.
        split; [reflexivity|]. split; [reflexivity|]. split; [exact L|].
        split; [exact L'|exact A].
    + destruct (P (mkVector3 (-1) 0 0) (mkVector3 1 0 0)) as (m & m' & L & L' & A).
      * repeat split.
      * intros (H & _). discriminate H.
      * do 2 eexists. exists m, m'.
        split; [reflexivity|]. split; [reflexivity|]. split; [exact L|].
        split; [exact L'|exact A].
    + destruct (P (mkVector3 0 (-1) 0) (mkVector3 0 1 0)) as (m & m' & L & L' & A).
      * repeat split.
      * intros (_ & H & _). discriminate H.
      * do 2 eexists. exists m, m'.
        split; [reflexivity|]. split; [reflexivity|]. split; [exact L|].
        split; [exact L'|exact A].
Qed.

Lemma keys_follow_orientation_witness :
  let quarter := fun v : Vector3 => mkVector3 (vz v) (vy v) (- vx v)%Q in
  (forall u v, Keyboard.oppositeVector u v ->
               Keyboard.oppositeVector (quarter u) (quarter v)) /\
  (forall v, Keyboard.zeroVector (quarter v) -> Keyboard.zeroVector v) /\
  In ("F", "B")%string [("F", "B"); ("R", "L"); ("U", "D")]%string /\
  Keyboard.getOrientedMove quarter "F" false = Some "R"%string /\
  Keyboard.getOrientedMove quarter "B" false = Some "L"%string /\
  exists (m m' : Move),
    lookupMove MOVES "R" = Some m /\ lookupMove MOVES "L" = Some m' /\
    axis m' = axis m /\ layer m' = - layer m.
Proof.
  cbv zeta.
  assert (Odd : forall u v, Keyboard.oppositeVector u v ->
            Keyboard.oppositeVector (mkVector3 (vz u) (vy u) (- vx u)%Q)
                                    (mkVector3 (vz v) (vy v) (- vx v)%Q)).
  { intros u v (X & Y & Z0). repeat split; cbn [vx vy vz]; try assumption.
    rewrite X. reflexivity. }
  assert (Inj : forall v,
            Keyboard.zeroVector (mkVector3 (vz v) (vy v) (- vx v)%Q) ->
            Keyboard.zeroVector v).
  { intros v (X & Y & Z0). cbn [vx vy vz] in *. repeat split; try assumption.
    rewrite <- (Qopp_involutive (vx v)), Z0. reflexivity. }
  assert (I : In ("F", "B")%string [("F", "B"); ("R", "L"); ("U", "D")]%string)
    by (cbn; tauto).
  split; [exact Odd|]. split; [exact Inj|]. split; [exact I|].
  split; [reflexivity|]. split; [reflexivity|].
  destruct (proj2 (proj2 (keys_follow_orientation
              (fun v : Vector3 => mkVector3 (vz v) (vy v) (- vx v)%Q)))
              Odd Inj "F"%string "B"%string I)
    as (name & name' & m & m' & N & N' & L & L' & A).
  injection N as <-. injection N' as <-.
  exists m, m'. split; [exact L|]. split; [exact L'|exact A].
Defined.

(** ** The layer turned by a swipe on a corner cubie *)

(** On the grid: the neighbour selected for a corner cubie of the clicked
    face, and the layer of it that holds the cubie. *)
Lemma corner_swipe_grid (g : Z3) (a : string) (l : Z) (h : bool) :
  In g gridCoordinates -> In (mkFace a l) sixOuterFaces ->
  let c := mkCubie (gridPoint g) identityQuaternion [] (mkZ3 0 0 0) in
  let info := getCubieTypeAndNeighbors a l (position c) in
  onFace a l c = true -> fst info = corner ->
  match
    match snd info with
    | [] => None
    | first :: rest =>
        if h then
          match find (fun f => String.eqb (f_axis f) "y") (first :: rest) with
          | Some yNeighbor => Some yNeighbor
          | None => Some first
          end
        else
          match find (fun f => negb (String.eqb (f_axis f) "y")) (first :: rest) with
          | Some sideNeighbor => Some sideNeighbor
          | None => Some first
          end
    end
  with
  | Some f =>
      existsb (fun f' => Face_eqb f' (f_axis f) (f_layer f)) sixOuterFaces
      && onFace (f_axis f) (f_layer f) c
      && String.eqb (f_axis f)
           (if String.eqb a "y" then "x"
            else if h then "y"
            else if String.eqb a "x" then "z" else "x")
  | None => false
  end = true.
Proof.
  intros J F. cbv zeta.
  unfold gridCoordinates in J; cbn [flat_map map app In] in J.
  unfold sixOuterFaces in F; cbn [In] in F.
  destruct h;
    repeat (destruct J as [ <- | J ];
      [repeat (destruct F as [ F | F ];
         [injection F as <- <-; vm_compute; intros O T;
          first [discriminate O | discriminate T | reflexivity]|]);
       destruct F|]);
    destruct J.
Qed.

(** X16.  A swipe on a corner cubie of a reachable state, clicked on one of
    the six outer faces: [selectCornerNeighborBySwipeDirection], given the
    neighbours that [getCubieTypeAndNeighbors] found, returns an outer face
    whose layer holds the clicked cubie, so that the rotation started for it
    turns that cubie.  On the left, right, front and back faces a horizontal
    swipe selects the y layer and a vertical swipe the other side layer; on
    the top and bottom faces the x layer is selected whatever the swipe. *)
Theorem corner_swipe_turns_clicked_cubie (st : RubiksCube) (i : nat)
    (c : Cubie) (a : string) (l : Z) (dx dy : Q) :
  reachable st -> nth_error (cubies st) i = Some c ->
  In (mkFace a l) sixOuterFaces -> onFace a l c = true ->
  fst (getCubieTypeAndNeighbors a l (position c)) = corner ->
  exists f : Face,
    selectCornerNeighborBySwipeDirection
      (Some (snd (getCubieTypeAndNeighbors a l (position c)))) dx dy = Some f /\
    In f sixOuterFaces /\
    In i (getCubiesOnFace (f_axis f) (f_layer f) (cubies st)) /\
    f_axis f = (if String.eqb a "y" then "x"
                else if Qltb (Math_abs dy) (Math_abs dx) then "y"
                else if String.eqb a "x" then "z" else "x")%string.
Proof.
  intros R N F O T.
  destruct (reachable_cubie_inGrid st c R (nth_error_In _ _ N)) as (G & J).
  set (c' := mkCubie (gridPoint (gridOf c)) identityQuaternion [] (mkZ3 0 0 0)).
  assert (P : position c = position c') by exact G.
  rewrite (onFace_position a l c c' P) in O.
  assert (K := corner_swipe_grid (gridOf c) a l
                 (Qltb (Math_abs dy) (Math_abs dx)) J F O).
  cbv zeta in K. cbn [position] in K. rewrite <- G in K. specialize (K T).
  unfold selectCornerNeighborBySwipeDirection.
  destruct (match snd (getCubieTypeAndNeighbors a l (position c)) with
            | [] => None
            | first :: rest => _
            end) as [f|]; [|discriminate K].
  apply andb_prop in K. destruct K as (K & A).
  apply andb_prop in K. destruct K as (Hf & Of).
  exists f. split; [reflexivity|]. split; [|split].
  - apply existsb_exists in Hf. destruct Hf as (f' & I & E).
    apply Face_eqb_eq in E. subst f'. now destruct f.
  - apply getCubiesOnFace_In. exists c. split; [exact N|].
    erewrite onFace_position; [exact Of|reflexivity].
  - now apply String.eqb_eq.
Qed.

Lemma corner_swipe_turns_clicked_cubie_witness :
  let c := createCubie 1 1 1 in
  reachable initialCube /\ nth_error (cubies initialCube) 26 = Some c /\
  In (mkFace "y" 1) sixOuterFaces /\ onFace "y" 1 c = true /\
  fst (getCubieTypeAndNeighbors "y" 1 (position c)) = corner /\
  exists f : Face,
    selectCornerNeighborBySwipeDirection
      (Some (snd (getCubieTypeAndNeighbors "y" 1 (position c)))) 3 40 = Some f /\
    f_axis f = "x"%string.
Proof.
  cbv zeta.
  assert (F : In (mkFace "y" 1) sixOuterFaces) by (cbn; tauto).
  split; [apply reachable_initial|]. split; [reflexivity|]. split; [exact F|].
  split; [reflexivity|]. split; [reflexivity|].
  destruct (corner_swipe_turns_clicked_cubie initialCube 26 (createCubie 1 1 1)
              "y"%string 1 3%Q 40%Q reachable_initial eq_refl F eq_refl eq_refl)
    as (f & S & _ & _ & A).
  exists f. split; [exact S|exact A].
Defined.

(** ** The frames of an animation *)

Lemma animate_early_frames (a : Animation) (frames : list Z) :
  forall st : RubiksCube,
  pendingFrame st = Some a ->
  Forall (fun now => now - a_startTime a < duration) frames ->
  fold_left (fun s now => animate now s) frames st = st.
Proof.
  induction frames as [|now frames IH]; intros st P H; [reflexivity|].
  inversion H as [|? ? H1 H2]; subst. cbn [fold_left].
  rewrite (animate_early now st a P H1). now apply IH.
Qed.

(** X17.  A rotation lasts 200 ms.  While one is pending in a reachable
    state, animation frames that come less than 200 ms after its start,
    however many, leave the whole state as it is; the first frame at 200 ms
    or later turns the layer of the request by its direction, whatever the
    time of that frame. *)
Theorem turn_waits_for_duration (st : RubiksCube) (a : Animation) :
  reachable st -> pendingFrame st = Some a ->
  (forall frames : list Z,
     Forall (fun now => now - a_startTime a < 200) frames ->
     fold_left (fun s now => animate now s) frames st = st) /\
  (forall now : Z,
     200 <= now - a_startTime a ->
     cubies (animate now st) = turnLayer (moveOf (a_request a)) (cubies st) /\
     Forall onGrid (cubies (animate now st))).
Proof.
  intros R P. split.
  - intros frames H. now apply (animate_early_frames a).
  - intros now H.
    destruct (reachable_consistent st R) as ((_ & G) & F & _).
    rewrite (animate_done now st a P H).
    rewrite (commitAnimation_cubies now a st F P).
    split; [reflexivity|]. now apply turnLayer_onGrid.
Qed.

Lemma turn_waits_for_duration_witness :
  let st := rotateFace 1000 "y" 1 (-1) true None initialCube in
  reachable st /\
  Forall (fun now => now - 1000 < 200) [1016; 1033; 1199] /\
  fold_left (fun s now => animate now s) [1016; 1033; 1199] st = st /\
  200 <= 1217 - 1000 /\
  cubies (animate 1217 st) = turnLayer (mkMove "y" 1 (-1)) solvedCubies.
Proof.
  cbv zeta.
  assert (R : reachable (rotateFace 1000 "y" 1 (-1) true None initialCube))
    by exact (reachable_step 1000 (CallRotateFace "y" 1 (-1) true None)
                initialCube reachable_initial).
  assert (E : Forall (fun now => now - 1000 < 200) [1016; 1033; 1199])
    by (repeat constructor).
  assert (L : 200 <= 1217 - 1000) by lia.
  split; [exact R|]. split; [exact E|].
  destruct (turn_waits_for_duration _ _ R eq_refl) as (Early & Done).
  split; [exact (Early _ E)|]. split; [exact L|].
  exact (proj1 (Done 1217 L)).
Defined.

(** ** Scramble and solve of the main script *)

Lemma scramble_chain_result (names : list string) (oc : option nat)
    (ms : list Move) (t : Z) (cs : list Cubie) (h : list Move)
    (tr : list Observation) :
  Forall2 (fun name m => lookupMove MOVES name = Some m) names ms ->
  finishAnimations (List.length ms)
    (scrambleDoNextMove t names 0 oc (idle cs h tr)) =
  callIfGiven oc None
    (idle (turnLayers ms cs) (h ++ ms) (tr ++ map Committed ms)).
Proof.
  intros M.
  rewrite (scramble_run_prefix names oc _ ms 0 t) by (try exact M; lia).
  assert (N := named_nth names ms 0 (List.length ms) M).
  rewrite (proj2 (nth_error_None ms (List.length ms)) (Nat.le_refl _)) in N.
  unfold scrambleDoNextMove. rewrite N, firstn_all. reflexivity.
Qed.

(** X18.  [scramble] of the main script, called with the engine at rest and
    with the results of [Math.random()] in [0, 1), forgets the history:
    after its 20 frames the history holds the 20 moves of the scramble and
    nothing else, while the grid is the one before the call turned by these
    moves.  Its [solve], like its [reset], then puts every cubie back as
    [initCube] makes it, with an empty history, whatever the moves made
    before; both do nothing while the scramble is running. *)
Theorem script_scramble_forgets_history (cs : list Cubie) (h : list Move)
    (tr : list Observation) (t : Z) (random : nat -> Q) :
  (forall k, (0 <= random k < 1)%Q) ->
  let st := idle cs h tr in
  let st' := finishAnimations 20 (Script.scramble t random st) in
  (exists ms : list Move,
     Forall2 (fun i m => lookupMove MOVES (scrambleMove random i) = Some m)
             (seq 0 20) ms /\
     moveHistory st' = ms /\
     cubies st' = turnLayers ms cs /\
     trace st' = tr ++ map Committed ms) /\
  busy st' = false /\
  Script.solve st' = Script.reset st' /\
  cubies (Script.solve st') = solvedCubies /\
  moveHistory (Script.solve st') = [] /\
  (forall n : nat, (n < 20)%nat ->
     let during := finishAnimations n (Script.scramble t random st) in
     Script.solve during = during /\ Script.reset during = during).
Proof.
  intros V. cbv zeta.
  destruct (scramble_named random V (seq 0 20)) as [ms M].
  assert (Len : List.length ms = 20%nat)
    by (rewrite <- (Forall2_length M); apply length_seq).
  pose proof (Forall2_map_l (scrambleMove random)
                (fun name m => lookupMove MOVES name = Some m) _ _ M) as M'.
  set (names := map (scrambleMove random) (seq 0 20)) in *.
  assert (S : Script.scramble t random (idle cs h tr)
              = scrambleDoNextMove t names 0 None (idle cs [] tr))
    by reflexivity.
  rewrite S.
  assert (D : finishAnimations 20
                (scrambleDoNextMove t names 0 None (idle cs [] tr))
              = idle (turnLayers ms cs) ms (tr ++ map Committed ms)).
  { rewrite <- Len. apply (scramble_chain_result names None ms). exact M'. }
  rewrite D. split; [|split; [|split; [|split; [|split]]]]; try reflexivity.
  - exists ms. repeat split. exact M.
  - intros n L.
    rewrite (scramble_run_prefix names None n ms 0 t) by (try exact M'; lia).
    assert (N := named_nth names ms 0 n M').
    destruct (nth_error ms n) as [m|] eqn:F;
      [|apply nth_error_None in F; lia].
    destruct N as (name & N1 & N2).
    unfold scrambleDoNextMove, executeMove. rewrite N1, N2.
    split; reflexivity.
Qed.

Lemma script_scramble_forgets_history_witness :
  let random := fun _ : nat => (3 # 4)%Q in
  let st := idle (turnLayer (mkMove "x" 1 (-1)) solvedCubies)
                 [mkMove "x" 1 (-1)] [] in
  let st' := finishAnimations 20 (Script.scramble 500 random st) in
  (forall k, (0 <= random k < 1)%Q) /\
  List.length (moveHistory st') = 20%nat /\
  cubies (Script.solve st') = solvedCubies.
Proof.
  cbv zeta.
  assert (V : forall k : nat, (0 <= (fun _ : nat => (3 # 4)%Q) k < 1)%Q)
    by (intros k; split; [discriminate|reflexivity]).
  split; [exact V|].
  destruct (script_scramble_forgets_history
              (turnLayer (mkMove "x" 1 (-1)) solvedCubies)
              [mkMove "x" 1 (-1)] [] 500 _ V)
    as ((ms & M & H & _) & _ & _ & C & _).
  split; [|exact C].
  rewrite H, <- (Forall2_length M). reflexivity.
Defined.

(** ** Scramble then solve in [script.js] *)

Lemma script_scramble_result (cs : list Cubie) (h : list Move)
    (tr : list Observation) (t : Z) (random : nat -> Q) (ms : list Move) :
  Forall2 (fun i m => lookupMove MOVES (scrambleMove random i) = Some m)
          (seq 0 20) ms ->
  finishAnimations 20 (ScriptJs.scramble t random (idle cs h tr))
  = idle (turnLayers ms cs) ms (tr ++ map Committed ms).
Proof.
  intros M.
  assert (Len : List.length ms = 20%nat)
    by (rewrite <- (Forall2_length M); apply length_seq).
  pose proof (Forall2_map_l (scrambleMove random)
                (fun name m => lookupMove MOVES name = Some m) _ _ M) as M'.
  change (ScriptJs.scramble t random (idle cs h tr))
    with (scrambleDoNextMove t (map (scrambleMove random) (seq 0 20)) 0 None
            (idle cs [] tr)).
  set (names := map (scrambleMove random) (seq 0 20)) in *.
  rewrite <- Len. now apply (scramble_chain_result names None ms).
Qed.

(** X19.  In [script.js], [scramble] clears the history and keeps the cube,
    and [solve] replays the history backwards: with the engine at rest, the
    cubies on the grid and the results of [Math.random()] in [0, 1),
    [scramble] then [solve], each run to its end, put every cubie back
    where it was before the scramble, with an empty history.  The result is
    the solved cube exactly when the cube was solved before the scramble. *)
Theorem scriptjs_solve_undoes_scramble (cs : list Cubie) (h : list Move)
    (tr : list Observation) (t t' : Z) (random : nat -> Q) :
  Forall onGrid cs ->
  (forall k, (0 <= random k < 1)%Q) ->
  let st1 := finishAnimations 20 (ScriptJs.scramble t random (idle cs h tr)) in
  let st2 := finishAnimations 20 (ScriptJs.solve t' st1) in
  List.length (moveHistory st1) = 20%nat /\
  cubies st2 = cs /\ moveHistory st2 = [] /\ busy st2 = false /\
  (cubies st2 = solvedCubies <-> cs = solvedCubies).
Proof.
  intros G V. cbv zeta.
  destruct (scramble_named random V (seq 0 20)) as [ms M].
  assert (Len : List.length ms = 20%nat)
    by (rewrite <- (Forall2_length M); apply length_seq).
  rewrite (script_scramble_result cs h tr t random ms M).
  cbn [moveHistory idle].
  assert (S : ScriptJs.solve t' (idle (turnLayers ms cs) ms
                                      (tr ++ map Committed ms))
              = solve t' None (idle (turnLayers ms cs) ms
                                    (tr ++ map Committed ms))).
  { unfold ScriptJs.solve, solve. destruct (busy _); [reflexivity|].
    destruct (Nat.eqb _ 0); reflexivity. }
  rewrite S, solve_idle by lia.
  cbn [callIfGiven cubies moveHistory idle busy isAnimating animationQueue
       List.length Nat.ltb Nat.leb orb].
  rewrite (turnLayers_inverse ms cs G).
  repeat split; auto.
Qed.

Lemma scriptjs_solve_undoes_scramble_witness :
  let random := fun _ : nat => (3 # 4)%Q in
  let cs := turnLayer (mkMove "x" 1 (-1)) solvedCubies in
  let st1 :=
    finishAnimations 20
      (ScriptJs.scramble 500 random (idle cs [mkMove "x" 1 (-1)] [])) in
  Forall onGrid cs /\ (forall k, (0 <= random k < 1)%Q) /\
  cubies (finishAnimations 20 (ScriptJs.solve 9000 st1)) = cs /\
  cs <> solvedCubies.
Proof.
  cbv zeta.
  assert (V : forall k : nat, (0 <= (fun _ : nat => (3 # 4)%Q) k < 1)%Q)
    by (intros k; split; [discriminate|reflexivity]).
  assert (G : Forall onGrid (turnLayer (mkMove "x" 1 (-1)) solvedCubies))
    by (apply turnLayer_onGrid, solvedCubies_onGrid).
  split; [exact G|]. split; [exact V|]. split.
  - exact (proj1 (proj2 (scriptjs_solve_undoes_scramble _
                           [mkMove "x" 1 (-1)] [] 500 9000 _ G V))).
  - intros H. apply (f_equal (fun l => map gridOf l)) in H.
    vm_compute in H. discriminate H.
Defined.
